(** SPARK35: the HP-35 engine of [spark35.ino] (microinstruction decoder,
    BCD arithmetic over digit slices, key latch, script sequencer and display
    projection) as a shallow embedding, with the properties of its
    specification stated against it. *)

From Stdlib Require Import ZArith List Bool Lia.
Import ListNotations.
Open Scope Z_scope.

(** * Constants of the sketch *)

Definition WSIZE : Z := 14.
Definition DIGITS : Z := 8.
Definition KEYS : Z := 16.
Definition _END : Z := 0xff.
Definition _KF : Z := 1.

(** Seven-segment patterns used by the display projection and the banners. *)
Definition _70 : Z := 0x3f.
Definition _71 : Z := 0x06.
Definition _72 : Z := 0x5b.
Definition _73 : Z := 0x4f.
Definition _74 : Z := 0x66.
Definition _75 : Z := 0x6d.
Definition _76 : Z := 0x7d.
Definition _77 : Z := 0x07.
Definition _78 : Z := 0x7f.
Definition _79 : Z := 0x6f.
Definition _7E : Z := 0x79.
Definition _7r : Z := 0x50.
Definition _7o : Z := 0x5c.
Definition _7u : Z := 0x1c.
Definition _7n : Z := 0x54.
Definition _7H : Z := 0x76.
Definition _7Y : Z := 0x6e.
Definition _7P : Z := 0x73.
Definition _7DOT : Z := 0x80.
Definition _7QUESTIONMARK : Z := 0x53.
Definition _7MINUS : Z := 0x40.
Definition _7HIGHLINE : Z := 0x01.
Definition _7LOWLINE : Z := 0x08.

Definition digit : list Z := [_70; _71; _72; _73; _74; _75; _76; _77; _78; _79].

Definition MSGERROR : Z := 1.
Definition MSGRUN : Z := 2.
Definition MSGHYP : Z := 3.
Definition msg : list Z :=
  [ 0; _7E; _7r; _7r; _7o; _7r; 0; 0;
    0; _7r; _7u; _7n; 0; 0; 0; 0;
    0; _7H; _7Y; _7P; _7DOT; _7QUESTIONMARK; 0; 0 ].

(** HP-35 key codes. *)
Definition _CLR : Z := 0.
Definition _EXP : Z := 2.
Definition _LN : Z := 3.
Definition _LOG : Z := 4.
Definition _POW : Z := 6.
Definition _RCL : Z := 8.
Definition _STO : Z := 10.
Definition _ROT : Z := 11.
Definition _SWAP : Z := 12.
Definition _INV : Z := 14.
Definition _6 : Z := 18.
Definition _5 : Z := 19.
Definition _4 : Z := 20.
Definition _ADD : Z := 22.
Definition _3 : Z := 26.
Definition _2 : Z := 27.
Definition _1 : Z := 28.
Definition _MULT : Z := 30.
Definition _PI : Z := 34.
Definition _DOT : Z := 35.
Definition _0 : Z := 36.
Definition _DIV : Z := 38.
Definition _TAN : Z := 40.
Definition _COS : Z := 42.
Definition _SIN : Z := 43.
Definition _ARC : Z := 44.
Definition _SQRT : Z := 46.
Definition _9 : Z := 50.
Definition _8 : Z := 51.
Definition _7 : Z := 52.
Definition _SUB : Z := 54.
Definition _CLX : Z := 56.
Definition _EEX : Z := 58.
Definition _CHS : Z := 59.
Definition _ENTER : Z := 62.

(** Key codes of the intrinsic functions. *)
Definition _HYP : Z := 64.
Definition _LIT : Z := 65.
Definition _FR2P : Z := _LIT + 1.
Definition _FP2R : Z := _LIT + 2.
Definition _FPV : Z := _LIT + 3.
Definition _FND : Z := _LIT + 4.
Definition _FGAMMA : Z := _LIT + 5.
Definition _FQE : Z := _LIT + 6.
Definition _FSINH : Z := _LIT + 7.
Definition _FCOSH : Z := _LIT + 8.
Definition _FTANH : Z := _LIT + 9.
Definition _FASINH : Z := _LIT + 10.
Definition _FACOSH : Z := _LIT + 11.
Definition _FATANH : Z := _LIT + 12.

(** Entry points of the intrinsic functions in [mem]. *)
Definition _R2P : Z := 0.
Definition _P2R : Z := 18.
Definition _PV : Z := 35.
Definition _ND : Z := 53.
Definition _GAMMA : Z := 87.
Definition _QE : Z := 120.
Definition _SINH : Z := 145.
Definition _COSH : Z := 153.
Definition _TANH : Z := 160.
Definition _ASINH : Z := 173.
Definition _ACOSH : Z := 182.
Definition _ATANH : Z := 191.

Definition mem : list Z :=
  [
    _ENTER; _MULT; _SWAP; _ENTER; _ENTER; _ROT; _MULT; _ADD; _SQRT; _ENTER;
    _ROT; _DIV; _ARC; _SIN; _ROT; _ROT; _ROT; _END; _SWAP; _SIN; _ENTER;
    _ENTER; _MULT; _CHS; _ENTER; _1; _ADD; _SQRT; _ROT; _MULT; _ROT; _MULT;
    _SWAP; _ROT; _END; _SWAP; _ENTER; _ENTER; _1; _ADD; _ROT; _ROT; _ROT;
    _SWAP; _POW; _INV; _CHS; _ENTER; _1; _ADD; _SWAP; _DIV; _END; _ENTER;
    _ENTER; _ENTER; _MULT; _MULT; _DOT; _0; _7; _MULT; _CHS; _SWAP; _1; _DOT;
    _6; _MULT; _SUB; _EXP; _1; _ADD; _INV; _SWAP; _ENTER; _MULT; _CHS; _2;
    _DIV; _EXP; _PI; _2; _MULT; _SQRT; _INV; _MULT; _END; _ENTER; _1; _ADD;
    _ENTER; _ENTER; _ENTER; _1; _2; _MULT; _SWAP; _1; _0; _MULT; _INV; _SUB;
    _INV; _ADD; _LN; _1; _SUB; _MULT; _SWAP; _LN; _CHS; _PI; _2; _MULT; _LN;
    _ADD; _2; _DIV; _ADD; _END; _SWAP; _2; _DIV; _CHS; _ENTER; _ENTER; _MULT;
    _ROT; _ROT; _ROT; _SUB; _SQRT; _ENTER; _ENTER; _CLX; _ADD; _CHS; _ROT;
    _ADD; _ROT; _ADD; _ROT; _ROT; _ROT; _END; _EXP; _ENTER; _INV; _CHS; _ADD;
    _2; _DIV; _END; _EXP; _ENTER; _INV; _ADD; _2; _DIV; _END; _ENTER; _2;
    _MULT; _EXP; _ENTER; _ENTER; _1; _SUB; _SWAP; _1; _ADD; _DIV; _END;
    _ENTER; _ENTER; _MULT; _1; _ADD; _SQRT; _ADD; _LN; _END; _ENTER; _ENTER;
    _MULT; _1; _SUB; _SQRT; _ADD; _LN; _END; _ENTER; _ENTER; _1; _ADD; _SWAP;
    _CHS; _ENTER; _1; _ADD; _DIV; _SQRT; _LN; _END ].

Definition k2c : list Z :=
  [
    _END; _1; _7; _2; _8; _3; _9; _CLX; _EEX; _0; _4; _DOT; _5; _ENTER; _6;
    _CHS; _END; _EXP; _INV; _LN; _SQRT; _SUB; _DIV; _CLR; _SWAP; _STO; _POW;
    _RCL; _LOG; _ADD; _MULT; _ROT; _END; _TAN; _SIN; _FGAMMA; _FR2P; _FQE;
    _FP2R; _LIT; _END; _ARC; _COS; _HYP; _FPV; _PI; _FND; _END; _END; _FTANH;
    _FSINH; _FATANH; _FASINH; _END; _END; _END; _END; _END; _FCOSH; _END;
    _FACOSH; _END; _END; _END ].

Definition c2m : list Z :=
  [ _R2P; _P2R; _PV; _ND; _GAMMA; _QE; _SINH; _COSH; _TANH; _ASINH; _ACOSH; _ATANH ].

(** The microcode image, byte for byte. *)
Definition rom : list Z :=
  [
    0; 221; 2; 255; 2; 36; 0; 23; 1; 68; 2; 68; 0; 132; 1; 16; 2; 209; 3;
    251; 0; 95; 0; 195; 1; 168; 3; 103; 2; 238; 3; 226; 0; 46; 0; 144; 3;
    234; 3; 234; 3; 234; 0; 107; 2; 105; 0; 168; 2; 168; 0; 255; 3; 234; 3;
    234; 3; 234; 0; 48; 0; 204; 0; 170; 1; 168; 0; 67; 1; 211; 0; 204; 0; 48;
    0; 0; 0; 131; 1; 68; 0; 68; 0; 187; 2; 68; 0; 159; 2; 132; 3; 11; 0; 46;
    0; 144; 3; 40; 3; 111; 3; 234; 3; 234; 3; 234; 0; 75; 2; 103; 3; 168; 1;
    113; 3; 119; 3; 203; 2; 206; 0; 196; 1; 219; 1; 40; 0; 52; 2; 206; 3;
    117; 1; 46; 2; 250; 1; 22; 3; 106; 3; 131; 1; 186; 3; 155; 3; 54; 3; 76;
    3; 155; 0; 28; 1; 234; 0; 2; 1; 51; 2; 196; 2; 214; 3; 166; 1; 20; 2; 31;
    1; 125; 3; 119; 0; 210; 1; 114; 0; 218; 3; 138; 1; 119; 0; 206; 0; 52; 1;
    142; 3; 12; 1; 42; 1; 138; 1; 186; 1; 163; 0; 170; 1; 122; 1; 95; 1; 76;
    3; 170; 1; 20; 1; 11; 3; 42; 0; 42; 3; 221; 1; 10; 2; 206; 3; 44; 2; 39;
    3; 178; 1; 235; 2; 209; 0; 144; 1; 20; 3; 219; 3; 178; 0; 250; 1; 142; 1;
    186; 1; 255; 0; 218; 0; 170; 3; 76; 1; 22; 1; 106; 2; 126; 1; 59; 2; 118;
    2; 3; 0; 202; 3; 221; 2; 214; 1; 158; 3; 44; 2; 79; 0; 142; 1; 238; 0;
    76; 1; 18; 0; 60; 1; 162; 2; 63; 3; 174; 0; 236; 3; 231; 0; 202; 1; 132;
    1; 235; 0; 254; 1; 168; 0; 46; 3; 250; 3; 250; 1; 250; 1; 250; 0; 74; 2;
    143; 3; 174; 3; 166; 1; 166; 2; 159; 3; 174; 2; 38; 0; 74; 2; 251; 2;
    142; 3; 234; 0; 14; 2; 251; 2; 163; 2; 246; 0; 212; 2; 211; 3; 126; 0;
    254; 1; 212; 2; 223; 1; 40; 1; 196; 0; 206; 1; 110; 0; 190; 1; 254; 2;
    46; 0; 48; 0; 144; 1; 113; 1; 68; 3; 119; 2; 206; 1; 158; 2; 36; 3; 63;
    1; 250; 2; 4; 1; 84; 3; 55; 1; 234; 3; 27; 0; 40; 0; 20; 3; 31; 0; 36; 0;
    28; 3; 44; 3; 67; 2; 40; 2; 20; 3; 51; 1; 14; 1; 100; 0; 208; 1; 40; 3;
    174; 1; 117; 1; 196; 3; 221; 2; 189; 2; 43; 2; 214; 0; 28; 0; 172; 1; 23;
    3; 12; 2; 238; 2; 246; 3; 226; 3; 226; 0; 140; 0; 60; 3; 98; 3; 191; 0;
    2; 3; 171; 3; 226; 3; 46; 0; 48; 1; 4; 2; 212; 0; 115; 1; 191; 0; 254; 2;
    164; 3; 15; 1; 148; 3; 243; 0; 28; 2; 146; 1; 233; 2; 168; 3; 111; 3;
    207; 3; 46; 0; 161; 1; 168; 0; 161; 1; 168; 2; 84; 0; 39; 3; 174; 1; 84;
    0; 75; 0; 222; 2; 153; 1; 40; 2; 149; 2; 97; 0; 149; 1; 168; 2; 153; 2;
    148; 3; 107; 2; 238; 3; 226; 1; 38; 3; 166; 1; 106; 2; 146; 1; 186; 0;
    103; 2; 210; 1; 234; 0; 119; 2; 206; 2; 142; 1; 40; 2; 46; 1; 7; 2; 46;
    1; 12; 3; 123; 1; 40; 3; 174; 1; 162; 0; 183; 0; 174; 1; 142; 0; 138; 3;
    47; 1; 142; 0; 84; 0; 151; 2; 148; 1; 183; 1; 84; 0; 87; 0; 254; 3; 190;
    0; 55; 2; 146; 3; 126; 0; 235; 1; 254; 3; 50; 1; 210; 3; 46; 1; 46; 3;
    82; 0; 239; 1; 168; 2; 206; 3; 178; 3; 46; 1; 18; 1; 40; 3; 254; 3; 254;
    0; 143; 0; 206; 0; 42; 2; 214; 2; 201; 1; 98; 1; 168; 3; 174; 1; 12; 2;
    145; 1; 140; 2; 109; 2; 12; 2; 109; 0; 140; 2; 24; 2; 140; 2; 109; 2; 57;
    2; 109; 3; 49; 1; 14; 2; 109; 0; 142; 3; 45; 3; 49; 2; 174; 2; 153; 2;
    84; 1; 179; 0; 254; 2; 97; 0; 100; 0; 206; 1; 98; 1; 234; 0; 84; 2; 151;
    2; 153; 3; 49; 2; 174; 2; 149; 3; 49; 2; 174; 2; 174; 2; 85; 2; 174; 3;
    173; 3; 49; 2; 140; 2; 113; 2; 57; 2; 12; 2; 117; 0; 140; 2; 24; 1; 140;
    2; 113; 1; 12; 2; 113; 2; 113; 3; 46; 2; 78; 3; 76; 1; 88; 3; 239; 1;
    140; 2; 24; 1; 152; 1; 88; 0; 152; 1; 24; 2; 88; 0; 84; 3; 107; 0; 48; 2;
    238; 3; 226; 0; 16; 1; 16; 1; 14; 2; 150; 2; 46; 2; 135; 1; 254; 3; 14;
    2; 131; 3; 142; 1; 16; 1; 16; 1; 74; 1; 16; 1; 226; 3; 78; 2; 163; 3;
    206; 1; 14; 0; 28; 2; 82; 0; 44; 2; 167; 0; 183; 1; 226; 3; 22; 2; 203;
    3; 150; 1; 22; 0; 28; 0; 44; 2; 207; 0; 183; 0; 28; 3; 150; 3; 111; 0;
    16; 1; 122; 1; 122; 2; 234; 3; 94; 2; 126; 3; 27; 1; 16; 2; 6; 3; 43; 0;
    254; 3; 46; 3; 14; 1; 16; 0; 206; 2; 204; 1; 216; 2; 24; 1; 88; 0; 216;
    2; 88; 2; 24; 0; 88; 1; 152; 0; 216; 1; 88; 3; 12; 0; 48; 0; 16; 3; 138;
    3; 123; 1; 98; 1; 254; 0; 44; 2; 239; 3; 170; 2; 234; 0; 98; 3; 155; 2;
    206; 2; 78; 2; 42; 0; 202; 3; 12; 2; 187; 1; 16; 2; 146; 2; 146; 1; 126;
    3; 179; 1; 210; 3; 18; 2; 50; 0; 142; 3; 126; 3; 187; 3; 178; 1; 168; 0;
    30; 0; 7; 1; 14; 3; 178; 1; 40; 2; 146; 1; 126; 2; 62; 0; 16; 3; 62; 3;
    254; 2; 86; 1; 18; 0; 75; 1; 168; 2; 153; 1; 142; 2; 20; 1; 11; 2; 238;
    3; 70; 0; 3; 2; 206; 1; 126; 0; 3; 1; 254; 1; 46; 2; 89; 3; 98; 0; 71; 3;
    50; 3; 158; 0; 7; 1; 204; 1; 181; 2; 12; 2; 117; 2; 76; 2; 113; 3; 249;
    2; 140; 2; 113; 1; 245; 2; 204; 2; 113; 3; 125; 2; 113; 2; 229; 2; 113;
    3; 217; 3; 174; 1; 78; 0; 26; 0; 191; 1; 78; 3; 46; 0; 28; 1; 14; 0; 108;
    0; 195; 3; 174; 1; 190; 0; 227; 0; 230; 1; 234; 2; 204; 3; 21; 2; 84; 0;
    27; 1; 84; 2; 83; 3; 217; 2; 157; 2; 83; 3; 217; 3; 177; 2; 229; 2; 204;
    2; 109; 3; 125; 2; 140; 2; 109; 1; 245; 2; 76; 2; 109; 3; 249; 2; 12; 2;
    109; 2; 109; 2; 109; 1; 140; 2; 242; 3; 76; 2; 46; 3; 174; 1; 152; 2; 59;
    0; 148; 1; 123; 3; 234; 2; 122; 3; 11; 3; 22; 1; 103; 3; 150; 1; 14; 1;
    106; 1; 115; 2; 206; 0; 210; 3; 170; 1; 190; 1; 179; 3; 46; 3; 14; 0;
    238; 2; 206; 2; 46; 0; 206; 1; 102; 0; 148; 1; 219; 1; 24; 1; 230; 1;
    231; 1; 152; 0; 108; 1; 215; 2; 78; 2; 78; 0; 148; 2; 83; 0; 48; 1; 204;
    0; 216; 0; 216; 0; 24; 2; 24; 1; 88; 0; 24; 2; 88; 3; 171; 2; 89; 3; 226;
    1; 46; 1; 126; 2; 27; 2; 210; 3; 174; 1; 22; 3; 174; 3; 126; 2; 35; 3;
    46; 3; 226; 3; 49; 0; 144; 2; 210; 3; 126; 2; 87; 2; 254; 3; 142; 0; 48;
    0; 144; 2; 206; 2; 46; 2; 131; 3; 142; 1; 126; 2; 127; 3; 174; 1; 22; 3;
    174; 1; 183; 0; 204; 1; 202; 1; 94; 2; 175; 0; 190; 3; 38; 2; 238; 3; 44;
    3; 23; 0; 102; 2; 219; 0; 84; 0; 3; 0; 146; 3; 102; 1; 250; 2; 50; 3;
    166; 0; 144; 2; 36; 1; 152; 2; 88; 0; 216; 0; 88; 1; 24; 1; 216; 0; 88;
    3; 155; 3; 230; 1; 147; 3; 142; 1; 98; 3; 19; 2; 206; 0; 60; 3; 108; 3;
    23; 1; 234; 2; 254; 3; 12; 0; 46; 2; 98; 3; 91; 1; 14; 1; 106; 2; 110; 3;
    63; 0; 206; 1; 42; 3; 142; 2; 126; 3; 31; 3; 166; 1; 142; 0; 46; 3; 12;
    1; 235; 2; 76; 0; 216; 0; 88; 0; 24; 0; 88; 1; 216; 2; 88; 2; 24; 0; 24;
    1; 88; 1; 88; 0; 216; 3; 119; 3; 174; 1; 46; 1; 134; 2; 186; 1; 123; 1;
    250; 2; 206; 1; 234; 3; 203; 1; 159; 0; 206; 3; 12; 0; 152; 0; 216; 0;
    24; 0; 152; 1; 88; 2; 7; 1; 76; 1; 251 ].

(** * Machine state

    [cpu] holds the variables of the HP-35 engine: the registers A..F, the
    scratchpad M and the temporary T (16 bytes each, of which the first
    [WSIZE] form the word), the status array (12 bytes), the pointer, the
    program counter, the return slot, the ROM bank, the slice boundaries, the
    two carries, the key latch [key_code] with the latched [key_rom], and the
    two display flags.  Bytes are integers in 0..255. *)

Record cpu : Type := mkCpu {
  a : list Z;
  b : list Z;
  c : list Z;
  d : list Z;
  e : list Z;
  f : list Z;
  m : list Z;
  t : list Z;
  s : list Z;
  p : Z;
  pc : Z;
  ret : Z;
  offset : Z;
  first : Z;
  last : Z;
  carry : Z;
  prevCarry : Z;
  key_code : Z;
  key_rom : Z;
  display_enable : bool;
  display_update : bool
}.

Definition set_a (v : list Z) (st : cpu) : cpu :=
  mkCpu v (b st) (c st) (d st) (e st) (f st) (m st) (t st) (s st) (p st)
    (pc st) (ret st) (offset st) (first st) (last st) (carry st)
    (prevCarry st) (key_code st) (key_rom st) (display_enable st)
    (display_update st).
Definition set_b (v : list Z) (st : cpu) : cpu :=
  mkCpu (a st) v (c st) (d st) (e st) (f st) (m st) (t st) (s st) (p st)
    (pc st) (ret st) (offset st) (first st) (last st) (carry st)
    (prevCarry st) (key_code st) (key_rom st) (display_enable st)
    (display_update st).
Definition set_c (v : list Z) (st : cpu) : cpu :=
  mkCpu (a st) (b st) v (d st) (e st) (f st) (m st) (t st) (s st) (p st)
    (pc st) (ret st) (offset st) (first st) (last st) (carry st)
    (prevCarry st) (key_code st) (key_rom st) (display_enable st)
    (display_update st).
Definition set_d (v : list Z) (st : cpu) : cpu :=
  mkCpu (a st) (b st) (c st) v (e st) (f st) (m st) (t st) (s st) (p st)
    (pc st) (ret st) (offset st) (first st) (last st) (carry st)
    (prevCarry st) (key_code st) (key_rom st) (display_enable st)
    (display_update st).
Definition set_e (v : list Z) (st : cpu) : cpu :=
  mkCpu (a st) (b st) (c st) (d st) v (f st) (m st) (t st) (s st) (p st)
    (pc st) (ret st) (offset st) (first st) (last st) (carry st)
    (prevCarry st) (key_code st) (key_rom st) (display_enable st)
    (display_update st).
Definition set_f (v : list Z) (st : cpu) : cpu :=
  mkCpu (a st) (b st) (c st) (d st) (e st) v (m st) (t st) (s st) (p st)
    (pc st) (ret st) (offset st) (first st) (last st) (carry st)
    (prevCarry st) (key_code st) (key_rom st) (display_enable st)
    (display_update st).
Definition set_m (v : list Z) (st : cpu) : cpu :=
  mkCpu (a st) (b st) (c st) (d st) (e st) (f st) v (t st) (s st) (p st)
    (pc st) (ret st) (offset st) (first st) (last st) (carry st)
    (prevCarry st) (key_code st) (key_rom st) (display_enable st)
    (display_update st).
Definition set_t (v : list Z) (st : cpu) : cpu :=
  mkCpu (a st) (b st) (c st) (d st) (e st) (f st) (m st) v (s st) (p st)
    (pc st) (ret st) (offset st) (first st) (last st) (carry st)
    (prevCarry st) (key_code st) (key_rom st) (display_enable st)
    (display_update st).
Definition set_s (v : list Z) (st : cpu) : cpu :=
  mkCpu (a st) (b st) (c st) (d st) (e st) (f st) (m st) (t st) v (p st)
    (pc st) (ret st) (offset st) (first st) (last st) (carry st)
    (prevCarry st) (key_code st) (key_rom st) (display_enable st)
    (display_update st).
Definition set_p (v : Z) (st : cpu) : cpu :=
  mkCpu (a st) (b st) (c st) (d st) (e st) (f st) (m st) (t st) (s st) v
    (pc st) (ret st) (offset st) (first st) (last st) (carry st)
    (prevCarry st) (key_code st) (key_rom st) (display_enable st)
    (display_update st).
Definition set_pc (v : Z) (st : cpu) : cpu :=
  mkCpu (a st) (b st) (c st) (d st) (e st) (f st) (m st) (t st) (s st) (p st)
    v (ret st) (offset st) (first st) (last st) (carry st) (prevCarry st)
    (key_code st) (key_rom st) (display_enable st) (display_update st).
Definition set_ret (v : Z) (st : cpu) : cpu :=
  mkCpu (a st) (b st) (c st) (d st) (e st) (f st) (m st) (t st) (s st) (p st)
    (pc st) v (offset st) (first st) (last st) (carry st) (prevCarry st)
    (key_code st) (key_rom st) (display_enable st) (display_update st).
Definition set_offset (v : Z) (st : cpu) : cpu :=
  mkCpu (a st) (b st) (c st) (d st) (e st) (f st) (m st) (t st) (s st) (p st)
    (pc st) (ret st) v (first st) (last st) (carry st) (prevCarry st)
    (key_code st) (key_rom st) (display_enable st) (display_update st).
Definition set_first (v : Z) (st : cpu) : cpu :=
  mkCpu (a st) (b st) (c st) (d st) (e st) (f st) (m st) (t st) (s st) (p st)
    (pc st) (ret st) (offset st) v (last st) (carry st) (prevCarry st)
    (key_code st) (key_rom st) (display_enable st) (display_update st).
Definition set_last (v : Z) (st : cpu) : cpu :=
  mkCpu (a st) (b st) (c st) (d st) (e st) (f st) (m st) (t st) (s st) (p st)
    (pc st) (ret st) (offset st) (first st) v (carry st) (prevCarry st)
    (key_code st) (key_rom st) (display_enable st) (display_update st).
Definition set_carry (v : Z) (st : cpu) : cpu :=
  mkCpu (a st) (b st) (c st) (d st) (e st) (f st) (m st) (t st) (s st) (p st)
    (pc st) (ret st) (offset st) (first st) (last st) v (prevCarry st)
    (key_code st) (key_rom st) (display_enable st) (display_update st).
Definition set_prevCarry (v : Z) (st : cpu) : cpu :=
  mkCpu (a st) (b st) (c st) (d st) (e st) (f st) (m st) (t st) (s st) (p st)
    (pc st) (ret st) (offset st) (first st) (last st) (carry st) v
    (key_code st) (key_rom st) (display_enable st) (display_update st).
Definition set_key_code (v : Z) (st : cpu) : cpu :=
  mkCpu (a st) (b st) (c st) (d st) (e st) (f st) (m st) (t st) (s st) (p st)
    (pc st) (ret st) (offset st) (first st) (last st) (carry st)
    (prevCarry st) v (key_rom st) (display_enable st) (display_update st).
Definition set_key_rom (v : Z) (st : cpu) : cpu :=
  mkCpu (a st) (b st) (c st) (d st) (e st) (f st) (m st) (t st) (s st) (p st)
    (pc st) (ret st) (offset st) (first st) (last st) (carry st)
    (prevCarry st) (key_code st) v (display_enable st) (display_update st).
Definition set_display_enable (v : bool) (st : cpu) : cpu :=
  mkCpu (a st) (b st) (c st) (d st) (e st) (f st) (m st) (t st) (s st) (p st)
    (pc st) (ret st) (offset st) (first st) (last st) (carry st)
    (prevCarry st) (key_code st) (key_rom st) v (display_update st).
Definition set_display_update (v : bool) (st : cpu) : cpu :=
  mkCpu (a st) (b st) (c st) (d st) (e st) (f st) (m st) (t st) (s st) (p st)
    (pc st) (ret st) (offset st) (first st) (last st) (carry st)
    (prevCarry st) (key_code st) (key_rom st) (display_enable st) v.

(** [shell] holds the variables of the sketch around the engine: the message
    number, the display buffer, the function-key state, the screensaver flag,
    the script sequencer ([isrun], [islock], [count], [memp]), the key
    sampled by [loop] and the one before, and the brightness. *)

Record shell : Type := mkShell {
  msgnr : Z;
  dbuf : list (option Z);
  fg : Z;
  darkscreen : bool;
  isrun : bool;
  islock : bool;
  count : Z;
  memp : Z;
  key : Z;
  oldkey : Z;
  brightness : Z
}.

Definition set_msgnr (v : Z) (sh : shell) : shell :=
  mkShell v (dbuf sh) (fg sh) (darkscreen sh) (isrun sh) (islock sh)
    (count sh) (memp sh) (key sh) (oldkey sh) (brightness sh).
Definition set_dbuf (v : list (option Z)) (sh : shell) : shell :=
  mkShell (msgnr sh) v (fg sh) (darkscreen sh) (isrun sh) (islock sh)
    (count sh) (memp sh) (key sh) (oldkey sh) (brightness sh).
Definition set_fg (v : Z) (sh : shell) : shell :=
  mkShell (msgnr sh) (dbuf sh) v (darkscreen sh) (isrun sh) (islock sh)
    (count sh) (memp sh) (key sh) (oldkey sh) (brightness sh).
Definition set_darkscreen (v : bool) (sh : shell) : shell :=
  mkShell (msgnr sh) (dbuf sh) (fg sh) v (isrun sh) (islock sh) (count sh)
    (memp sh) (key sh) (oldkey sh) (brightness sh).
Definition set_isrun (v : bool) (sh : shell) : shell :=
  mkShell (msgnr sh) (dbuf sh) (fg sh) (darkscreen sh) v (islock sh)
    (count sh) (memp sh) (key sh) (oldkey sh) (brightness sh).
Definition set_islock (v : bool) (sh : shell) : shell :=
  mkShell (msgnr sh) (dbuf sh) (fg sh) (darkscreen sh) (isrun sh) v (count sh)
    (memp sh) (key sh) (oldkey sh) (brightness sh).
Definition set_count (v : Z) (sh : shell) : shell :=
  mkShell (msgnr sh) (dbuf sh) (fg sh) (darkscreen sh) (isrun sh) (islock sh)
    v (memp sh) (key sh) (oldkey sh) (brightness sh).
Definition set_memp (v : Z) (sh : shell) : shell :=
  mkShell (msgnr sh) (dbuf sh) (fg sh) (darkscreen sh) (isrun sh) (islock sh)
    (count sh) v (key sh) (oldkey sh) (brightness sh).
Definition set_key (v : Z) (sh : shell) : shell :=
  mkShell (msgnr sh) (dbuf sh) (fg sh) (darkscreen sh) (isrun sh) (islock sh)
    (count sh) (memp sh) v (oldkey sh) (brightness sh).
Definition set_oldkey (v : Z) (sh : shell) : shell :=
  mkShell (msgnr sh) (dbuf sh) (fg sh) (darkscreen sh) (isrun sh) (islock sh)
    (count sh) (memp sh) (key sh) v (brightness sh).
Definition set_brightness (v : Z) (sh : shell) : shell :=
  mkShell (msgnr sh) (dbuf sh) (fg sh) (darkscreen sh) (isrun sh) (islock sh)
    (count sh) (memp sh) (key sh) (oldkey sh) v.

Record machine : Type := mkMachine {
  cpu_of : cpu;
  shell_of : shell
}.

(** * Undefined accesses

    The sketch indexes fixed C arrays with computed bytes.  An access that
    leaves the declared array has no defined behaviour; the embedding stops
    with a [Fault] that names the array family instead of inventing a value. *)

Inductive fault : Type :=
| RomRange      (* fetch past the end of [rom] *)
| RegRange      (* index past a working register, M or T *)
| StatusRange   (* index past the status array [s] *)
| TableRange.   (* index past [k2c], [c2m] or [mem] *)

Inductive result (X : Type) : Type :=
| Ok (x : X)
| Fault (ft : fault).
Arguments Ok {X} x.
Arguments Fault {X} ft.

Definition bind {X Y : Type} (r : result X) (k : X -> result Y) : result Y :=
  match r with
  | Ok x => k x
  | Fault ft => Fault ft
  end.

Notation "x <- r ;; k" := (bind r (fun x => k))
  (at level 61, r at next level, right associativity).

(** * Byte arrays *)

Definition peek {X : Type} (l : list X) (i : Z) : option X :=
  if i <? 0 then None else nth_error l (Z.to_nat i).

Fixpoint poke_nat {X : Type} (l : list X) (n : nat) (v : X) : list X :=
  match l, n with
  | [], _ => []
  | _ :: tl, O => v :: tl
  | x :: tl, S n' => x :: poke_nat tl n' v
  end.

Definition poke {X : Type} (l : list X) (i : Z) (v : X) : list X :=
  if i <? 0 then l else poke_nat l (Z.to_nat i) v.

(** A read at an index that the source fixes below [WSIZE]. *)
Definition digit_of (l : list Z) (i : Z) : Z := nth (Z.to_nat i) l 0.

Definition in_range {X : Type} (l : list X) (i : Z) : bool :=
  (0 <=? i) && (i <? Z.of_nat (length l)).

(** [memcpy(dst, src, WSIZE)]: the first 14 entries of [dst] are replaced,
    entries 14 and 15 stay. *)
Definition memcpy (dst src : list Z) : list Z :=
  firstn (Z.to_nat WSIZE) src ++ skipn (Z.to_nat WSIZE) dst.

Definition zero_word (dst : list Z) : list Z :=
  repeat 0 (Z.to_nat WSIZE) ++ skipn (Z.to_nat WSIZE) dst.

(** * Register file *)

Inductive reg : Type := RA | RB | RC | RD | RE | RF | RM | RT.

Definition rget (r : reg) (st : cpu) : list Z :=
  match r with
  | RA => a st | RB => b st | RC => c st | RD => d st
  | RE => e st | RF => f st | RM => m st | RT => t st
  end.

Definition rset (r : reg) (v : list Z) (st : cpu) : cpu :=
  match r with
  | RA => set_a v st | RB => set_b v st | RC => set_c v st | RD => set_d v st
  | RE => set_e v st | RF => set_f v st | RM => set_m v st | RT => set_t v st
  end.

Definition rd (r : reg) (i : Z) (st : cpu) : result Z :=
  match peek (rget r st) i with
  | Some v => Ok v
  | None => Fault RegRange
  end.

Definition wr (r : reg) (i : Z) (v : Z) (st : cpu) : result cpu :=
  if in_range (rget r st) i then Ok (rset r (poke (rget r st) i v) st)
  else Fault RegRange.

Definition rd_status (i : Z) (st : cpu) : result Z :=
  match peek (s st) i with
  | Some v => Ok v
  | None => Fault StatusRange
  end.

Definition wr_status (i : Z) (v : Z) (st : cpu) : result cpu :=
  if in_range (s st) i then Ok (set_s (poke (s st) i v) st)
  else Fault StatusRange.

(** * BCD primitives

    [do_add] and [do_sub] read and write the global [carry]; here the carry
    goes in as third argument and comes out as second component.  The C
    functions return a [byte], hence the reduction modulo 256. *)

Definition do_add (x y cy : Z) : Z * Z :=
  let res := x + y + cy in
  if 9 <? res then ((res - 10) mod 256, 1) else (res mod 256, 0).

Definition do_sub (x y cy : Z) : Z * Z :=
  let res := x - y - cy in
  if res <? 0 then ((res + 10) mod 256, 1) else (res mod 256, 0).

(** * Loops over a digit slice *)

Fixpoint iter_up (n : nat) (i : Z) (body : Z -> cpu -> result cpu)
    (st : cpu) : result cpu :=
  match n with
  | O => Ok st
  | S n' => st' <- body i st ;; iter_up n' (i + 1) body st'
  end.

Fixpoint iter_down (n : nat) (i : Z) (body : Z -> cpu -> result cpu)
    (st : cpu) : result cpu :=
  match n with
  | O => Ok st
  | S n' => st' <- body i st ;; iter_down n' (i - 1) body st'
  end.

(** [for (byte i = lo; i <= hi; i++) body] *)
Definition for_up (lo hi : Z) (body : Z -> cpu -> result cpu) (st : cpu)
    : result cpu :=
  iter_up (Z.to_nat (hi + 1 - lo)) lo body st.

(** [for (int8_t i = hi; i > lo; i--) body] *)
Definition for_down (hi lo : Z) (body : Z -> cpu -> result cpu) (st : cpu)
    : result cpu :=
  iter_down (Z.to_nat (hi - lo)) hi body st.

(** An operand of the two BCD primitives: a register digit or a literal. *)
Inductive operand : Type :=
| Reg (r : reg)
| Imm (z : Z).

Definition operand_at (o : operand) (i : Z) (st : cpu) : result Z :=
  match o with
  | Reg r => rd r i st
  | Imm z => Ok z
  end.

(** The body [dst[i] = prim(x[i], y[i]);] *)
Definition alu_step (prim : Z -> Z -> Z -> Z * Z) (dst : reg) (x y : operand)
    (i : Z) (st : cpu) : result cpu :=
  xv <- operand_at x i st ;;
  yv <- operand_at y i st ;;
  let '(res, cy) := prim xv yv (carry st) in
  wr dst i res (set_carry cy st).

(** [for (...) dst[i] = prim(x[i], y[i]);] *)
Definition alu (prim : Z -> Z -> Z -> Z * Z) (dst : reg) (x y : operand)
    (st : cpu) : result cpu :=
  for_up (first st) (last st) (alu_step prim dst x y) st.

(** [for (...) if (r[i] != 0) carry = v;] *)
Definition test (r : reg) (v : Z) (st : cpu) : result cpu :=
  for_up (first st) (last st)
    (fun i st =>
       x <- rd r i st ;;
       Ok (if x =? 0 then st else set_carry v st)) st.

(** [for (...) dst[i] = 0;] *)
Definition clear (dst : reg) (st : cpu) : result cpu :=
  for_up (first st) (last st) (fun i st => wr dst i 0 st) st.

(** [for (...) dst[i] = src[i];] *)
Definition copy (dst src : reg) (st : cpu) : result cpu :=
  for_up (first st) (last st)
    (fun i st => x <- rd src i st ;; wr dst i x st) st.

(** [for (...) { byte tmp = x[i]; x[i] = y[i]; y[i] = tmp; }] *)
Definition exchange (x y : reg) (st : cpu) : result cpu :=
  for_up (first st) (last st)
    (fun i st =>
       tmp <- rd x i st ;;
       yv <- rd y i st ;;
       st1 <- wr x i yv st ;;
       wr y i tmp st1) st.

(** [for (int8_t i = last; i > first; i--) r[i] = r[i - 1]; r[first] = 0;] *)
Definition shift_left (r : reg) (st : cpu) : result cpu :=
  st1 <- for_down (last st) (first st)
    (fun i st => x <- rd r (i - 1) st ;; wr r i x st) st ;;
  wr r (first st1) 0 st1.

(** [for (byte i = first; i < last; i++) r[i] = r[i + 1]; r[last] = 0;] *)
Definition shift_right (r : reg) (st : cpu) : result cpu :=
  st1 <- for_up (first st) (last st - 1)
    (fun i st => x <- rd r (i + 1) st ;; wr r i x st) st ;;
  wr r (last st1) 0 st1.

(** * Slice selector: [switch ((fetch_l >> 2) & 0x07)]

    The selector is a 3-bit field; the last branch is never taken. *)

Definition select_slice (code : Z) (st : cpu) : cpu :=
  match code with
  | 0 => set_last (p st) (set_first (p st) st)
  | 1 => set_last 12 (set_first 3 st)
  | 2 => set_last 2 (set_first 0 st)
  | 3 => set_last 13 (set_first 0 st)
  | 4 => set_last (p st) (set_first 0 st)
  | 5 => set_last 13 (set_first 3 st)
  | 6 => set_last 2 (set_first 2 st)
  | 7 => set_last 13 (set_first 13 st)
  | _ => st
  end.

(** * Arithmetic and register operations: [switch (op_code)]

    All 32 values of the 5-bit [op_code] have a case; the last branch is
    never taken. *)

Definition alu_op (op_code : Z) (st : cpu) : result cpu :=
  match op_code with
  | 0x00 => test RB 1 st                                       (* 0+B *)
  | 0x01 => clear RB st                                        (* 0->B *)
  | 0x02 => alu do_sub RT (Reg RA) (Reg RC) st                 (* A-C *)
  | 0x03 => test RC 0 (set_carry 1 st)                         (* C-1 *)
  | 0x04 => copy RC RB st                                      (* B->C *)
  | 0x05 => alu do_sub RC (Imm 0) (Reg RC) st                  (* 0-C->C *)
  | 0x06 => clear RC st                                        (* 0->C *)
  | 0x07 => alu do_sub RC (Imm 0) (Reg RC) (set_carry 1 st)    (* 0-C-1->C *)
  | 0x08 => shift_left RA st                                   (* Sh A Left *)
  | 0x09 => copy RB RA st                                      (* A->B *)
  | 0x0a => alu do_sub RC (Reg RA) (Reg RC) st                 (* A-C->C *)
  | 0x0b => alu do_sub RC (Reg RC) (Imm 0) (set_carry 1 st)    (* C-1->C *)
  | 0x0c => copy RA RC st                                      (* C->A *)
  | 0x0d => test RC 1 st                                       (* 0-C *)
  | 0x0e => alu do_add RC (Reg RA) (Reg RC) st                 (* A+C->C *)
  | 0x0f => alu do_add RC (Reg RC) (Imm 0) (set_carry 1 st)    (* C+1->C *)
  | 0x10 => alu do_sub RT (Reg RA) (Reg RB) st                 (* A-B *)
  | 0x11 => exchange RB RC st                                  (* B<->C *)
  | 0x12 => shift_right RC st                                  (* Sh C Right *)
  | 0x13 => test RA 0 (set_carry 1 st)                         (* A-1 *)
  | 0x14 => shift_right RB st                                  (* Sh B Right *)
  | 0x15 => alu do_add RC (Reg RC) (Reg RC) st                 (* C+C->C *)
  | 0x16 => shift_right RA st                                  (* Sh A Right *)
  | 0x17 => clear RA st                                        (* 0->A *)
  | 0x18 => alu do_sub RA (Reg RA) (Reg RB) st                 (* A-B->A *)
  | 0x19 => exchange RA RB st                                  (* A<->B *)
  | 0x1a => alu do_sub RA (Reg RA) (Reg RC) st                 (* A-C->A *)
  | 0x1b => alu do_sub RA (Reg RA) (Imm 0) (set_carry 1 st)    (* A-1->A *)
  | 0x1c => alu do_add RA (Reg RA) (Reg RB) st                 (* A+B->A *)
  | 0x1d => exchange RA RC st                                  (* C<->A *)
  | 0x1e => alu do_add RA (Reg RA) (Reg RC) st                 (* A+C->A *)
  | 0x1f => alu do_add RA (Reg RA) (Imm 0) (set_carry 1 st)    (* A+1->A *)
  | _ => Ok st
  end.

(** * Decoder

    [process_rom] tests the fetched pair [(fetch_h, fetch_l)] against a cascade
    of independent [if]s.  Each test is a [family]; [families] lists them in
    the order of the source. *)

Inductive family : Type :=
| Call | Return | SelectRom | KeyJump
| TestStatus | SetStatus | ClearStatus | ClearAllStatus
| TestP | SetP | IncP | DecP | LoadConst
| SwapCM | Push | Pop | RecallM | RotateDown | ClearRegs
| DisplayOff | DisplayToggle
| Branch | Arith.

Definition families : list family :=
  [ Call; Return; SelectRom; KeyJump;
    TestStatus; SetStatus; ClearStatus; ClearAllStatus;
    TestP; SetP; IncP; DecP; LoadConst;
    SwapCM; Push; Pop; RecallM; RotateDown; ClearRegs;
    DisplayOff; DisplayToggle;
    Branch; Arith ].

Definition l3f (fetch_l : Z) : Z := Z.land fetch_l 0x3f.
Definition h3 (fetch_h : Z) : Z := Z.land fetch_h 0x03.

(** [((fetch_h & 0x03) << 2) | ((fetch_l & 0xc0) >> 6)] *)
Definition bitsel (fetch_h fetch_l : Z) : Z :=
  Z.lor (Z.shiftl (Z.land fetch_h 0x03) 2) (Z.shiftr (Z.land fetch_l 0xc0) 6).

(** [((fetch_l >> 5) & 0x07) | ((fetch_h << 3) & 0x18)] *)
Definition op_code_of (fetch_h fetch_l : Z) : Z :=
  Z.lor (Z.land (Z.shiftr fetch_l 5) 0x07) (Z.land (Z.shiftl fetch_h 3) 0x18).

(** [(fetch_l >> 2) & 0x07] *)
Definition slice_code (fetch_l : Z) : Z := Z.land (Z.shiftr fetch_l 2) 0x07.

Definition guard (k : family) (fetch_h fetch_l : Z) : bool :=
  match k with
  | Call => Z.land fetch_l 0x03 =? 0x01
  | Return => Z.land fetch_l 0x7F =? 0x30
  | SelectRom => Z.land fetch_l 0x7F =? 0x10
  | KeyJump => fetch_l =? 0xD0
  | TestStatus => l3f fetch_l =? 0x14
  | SetStatus => l3f fetch_l =? 0x04
  | ClearStatus => l3f fetch_l =? 0x24
  | ClearAllStatus => l3f fetch_l =? 0x34
  | TestP => l3f fetch_l =? 0x2C
  | SetP => l3f fetch_l =? 0x0c
  | IncP => l3f fetch_l =? 0x3c
  | DecP => l3f fetch_l =? 0x1c
  | LoadConst => l3f fetch_l =? 0x18
  | SwapCM => (h3 fetch_h =? 0x00) && (Z.land fetch_l 0xef =? 0xa8)
  | Push => (h3 fetch_h =? 0x01) && (Z.land fetch_l 0xef =? 0x28)
  | Pop => (h3 fetch_h =? 0x01) && (Z.land fetch_l 0xef =? 0xa8)
  | RecallM => (h3 fetch_h =? 0x02) && (Z.land fetch_l 0xef =? 0xa8)
  | RotateDown => (h3 fetch_h =? 0x03) && (Z.land fetch_l 0xef =? 0x28)
  | ClearRegs => (h3 fetch_h =? 0x03) && (Z.land fetch_l 0xef =? 0xa8)
  | DisplayOff => (h3 fetch_h =? 0x00) && (Z.land fetch_l 0xef =? 0x28)
  | DisplayToggle => (h3 fetch_h =? 0x02) && (Z.land fetch_l 0xef =? 0x28)
  | Branch => Z.land fetch_l 0x03 =? 0x03
  | Arith => Z.land fetch_l 0x03 =? 0x02
  end.

Definition effect (k : family) (fetch_h fetch_l : Z) (st : cpu) : result cpu :=
  match k with
  | Call =>
      Ok (set_pc (Z.lor (Z.land (Z.shiftr fetch_l 2) 0x3f)
                        (Z.land (Z.shiftl fetch_h 6) 0x0c0))
            (set_ret (pc st) st))
  | Return => Ok (set_pc (ret st) st)
  | SelectRom =>
      Ok (set_offset (Z.lor (Z.land (Z.shiftl fetch_h 1) 6)
                            (Z.land (Z.shiftr fetch_l 7) 1)) st)
  | KeyJump =>
      wr_status 0 0 (set_pc (key_rom st) st)
  | TestStatus =>
      v <- rd_status (bitsel fetch_h fetch_l) st ;; Ok (set_carry v st)
  | SetStatus => wr_status (bitsel fetch_h fetch_l) 1 st
  | ClearStatus => wr_status (bitsel fetch_h fetch_l) 0 st
  | ClearAllStatus => Ok (set_s (repeat 0 12 ++ skipn 12 (s st)) st)
  | TestP =>
      Ok (set_carry (if p st =? bitsel fetch_h fetch_l then 1 else 0) st)
  | SetP => Ok (set_p (bitsel fetch_h fetch_l) st)
  | IncP => Ok (set_p (Z.land (p st + 1) 0x0f) st)
  | DecP => Ok (set_p (Z.land (p st - 1) 0x0f) st)
  | LoadConst =>
      st1 <- wr RC (p st)
               (Z.lor (Z.shiftr fetch_l 6) (Z.shiftl fetch_h 2) mod 256) st ;;
      Ok (set_p (Z.land (p st1 - 1) 0x0f) st1)
  | SwapCM =>                                     (* tmp = c; c = m; m = tmp *)
      let tmp := firstn (Z.to_nat WSIZE) (c st) in
      let st1 := set_c (memcpy (c st) (m st)) st in
      Ok (set_m (memcpy (m st1) tmp) st1)
  | Push =>                                       (* f = e; e = d; d = c *)
      let st1 := set_f (memcpy (f st) (e st)) st in
      let st2 := set_e (memcpy (e st1) (d st1)) st1 in
      Ok (set_d (memcpy (d st2) (c st2)) st2)
  | Pop =>                                        (* a = d; d = e; e = f *)
      let st1 := set_a (memcpy (a st) (d st)) st in
      let st2 := set_d (memcpy (d st1) (e st1)) st1 in
      Ok (set_e (memcpy (e st2) (f st2)) st2)
  | RecallM => Ok (set_c (memcpy (c st) (m st)) st)
  | RotateDown =>                     (* tmp = c; c = d; d = e; e = f; f = tmp *)
      let tmp := firstn (Z.to_nat WSIZE) (c st) in
      let st1 := set_c (memcpy (c st) (d st)) st in
      let st2 := set_d (memcpy (d st1) (e st1)) st1 in
      let st3 := set_e (memcpy (e st2) (f st2)) st2 in
      Ok (set_f (memcpy (f st3) tmp) st3)
  | ClearRegs =>
      Ok (set_m (zero_word (m st)) (set_f (zero_word (f st))
         (set_e (zero_word (e st)) (set_d (zero_word (d st))
         (set_c (zero_word (c st)) (set_b (zero_word (b st))
         (set_a (zero_word (a st)) st)))))))
  | DisplayOff => Ok (set_display_enable false (set_display_update false st))
  | DisplayToggle => Ok (set_display_enable (negb (display_enable st)) st)
  | Branch =>
      Ok (if negb (prevCarry st =? 1)
          then set_pc (Z.lor (Z.shiftr (Z.land fetch_l 0xfc) 2)
                             (Z.shiftl (Z.land fetch_h 0x03) 6)) st
          else st)
  | Arith =>
      let st1 := select_slice (slice_code fetch_l) st in
      alu_op (op_code_of fetch_h fetch_l) (set_carry 0 st1)
  end.

(** The cascade: every family whose test succeeds acts, in source order. *)
Fixpoint cascade (ks : list family) (fetch_h fetch_l : Z) (st : cpu)
    : result cpu :=
  match ks with
  | [] => Ok st
  | k :: ks' =>
      if guard k fetch_h fetch_l
      then st' <- effect k fetch_h fetch_l st ;; cascade ks' fetch_h fetch_l st'
      else cascade ks' fetch_h fetch_l st
  end.

(** The families whose test succeeds on a pair. *)
Definition matching (fetch_h fetch_l : Z) : list family :=
  filter (fun k => guard k fetch_h fetch_l) families.

(** [if (key_code < _END) { key_rom = key_code; key_code = _END; s[0] = 1; }] *)
Definition latch_key (st : cpu) : result cpu :=
  if key_code st <? _END
  then wr_status 0 1 (set_key_code _END (set_key_rom (key_code st) st))
  else Ok st.

(** What [process_rom] does with the fetched pair, up to the display
    handshake: advance [pc], latch a waiting key, run the cascade. *)
Definition execute (fetch_h fetch_l : Z) (st : cpu) : result cpu :=
  st1 <- latch_key (set_pc ((pc st + 1) mod 256) st) ;;
  cascade families fetch_h fetch_l st1.

(** [pgm_read_byte_near(rom + offset * 256 * 2 + pc * 2)] and the byte after. *)
Definition fetch (st : cpu) : result (Z * Z) :=
  match peek rom (offset st * 256 * 2 + pc st * 2),
        peek rom (offset st * 256 * 2 + pc st * 2 + 1) with
  | Some fetch_h, Some fetch_l => Ok (fetch_h, fetch_l)
  | _, _ => Fault RomRange
  end.

(** * Display projection

    A cell of [dbuf] is [None] when its byte was read past the ten entries of
    [digit] or past [msg]: the sketch then shows whatever lies behind the
    table. *)

(** [message(n)] *)
Definition message (n : Z) : list (option Z) :=
  map (fun i => peek msg ((DIGITS * (n - 1) + i) mod 256))
      [0; 1; 2; 3; 4; 5; 6; 7].

(** One round of [for (int8_t i = WSIZE - 1; i > 5; i--)] in [printscreen]. *)
Definition show_digit (av bv : list Z) (i : Z)
    (acc : list (option Z) * Z) : list (option Z) * Z :=
  let '(buf, pos) := acc in
  let ai := digit_of av i in
  let bi := digit_of bv i in
  let buf := poke buf pos (Some 0) in
  let buf :=
    if 8 <=? bi then poke buf pos (Some 0)
    else if i =? 13 then
      (if 8 <=? ai then poke buf pos (Some _7MINUS) else buf)
    else poke buf pos (peek digit ai) in
  let pos := pos + 1 in
  let buf :=
    if bi =? 2
    then poke buf (pos - 1)
           (option_map (fun cell => Z.lor cell _7DOT)
              (nth (Z.to_nat (pos - 1)) buf None))
    else buf in
  (buf, pos).

(** The stack branch of [printscreen]: mantissa loop, then the exponent. *)
Definition show_stack (av bv : list Z) (buf : list (option Z))
    : list (option Z) :=
  let '(buf, _) :=
    fold_left (fun acc i => show_digit av bv i acc)
              [13; 12; 11; 10; 9; 8; 7; 6] (buf, 0) in
  if Z.lor (Z.lor (digit_of bv 0) (digit_of bv 1)) (digit_of bv 2) <? 8
  then poke (poke (poke buf 5
                     (Some (if digit_of av 2 <? 8 then 0 else _7MINUS)))
                  6 (peek digit (digit_of av 1)))
            7 (peek digit (digit_of av 0))
  else buf.

(** [printbuf] as far as it touches [dbuf]: the F-key indicator. *)
Definition printbuf (sh : shell) : shell :=
  if (fg sh =? 1) || (fg sh =? 2)
  then set_dbuf (poke (dbuf sh) 0
                   (Some (if fg sh =? 1 then _7HIGHLINE else _7LOWLINE))) sh
  else sh.

Definition printscreen (mc : machine) : machine :=
  let st := cpu_of mc in
  let sh := shell_of mc in
  let sh1 :=
    if negb (msgnr sh =? 0) then set_dbuf (message (msgnr sh)) sh
    else if darkscreen sh then set_dbuf (repeat (Some 0) 8) sh
    else set_dbuf (show_stack (a st) (b st) (dbuf sh)) sh in
  mkMachine (set_display_update false st) (printbuf sh1).

(** The display handshake that ends [process_rom]. *)
Definition refresh (mc : machine) : machine :=
  if display_enable (cpu_of mc)
  then mkMachine (set_display_update true (cpu_of mc)) (shell_of mc)
  else if display_update (cpu_of mc)
  then let mc1 := printscreen mc in
       mkMachine (cpu_of mc1) (set_count 0 (set_islock false (shell_of mc1)))
  else mc.

(** * One microcycle *)

(** [if ((pc == 191) & (offset == 0)) msgnr = MSGERROR;] *)
Definition check_error (mc : machine) : machine :=
  if (pc (cpu_of mc) =? 191) && (offset (cpu_of mc) =? 0)
  then mkMachine (cpu_of mc) (set_msgnr MSGERROR (shell_of mc))
  else mc.

(** The microcycle after the error check. *)
Definition microcycle (mc : machine) : result machine :=
  let st := set_carry 0 (set_prevCarry (carry (cpu_of mc)) (cpu_of mc)) in
  hl <- fetch st ;;
  st1 <- execute (fst hl) (snd hl) st ;;
  Ok (refresh (mkMachine st1 (shell_of mc))).

Definition process_rom (mc : machine) : result machine :=
  microcycle (check_error mc).

(** * Main loop *)

(** The key dispatch that opens [loop]. *)
Definition dispatch_key (mc : machine) : result machine :=
  let st := cpu_of mc in
  let sh := shell_of mc in
  if negb (key sh =? 0) && (key sh <? _END) then
    let st := set_display_update true st in
    let sh := set_isrun false (set_darkscreen false (set_msgnr 0 sh)) in
    if key sh =? _KF then
      let sh := set_fg ((fg sh + 1) mod 256) sh in
      Ok (mkMachine st
            (if 2 <? fg sh then set_fg 0 (set_darkscreen true sh) else sh))
    else
      let pos := (fg sh * KEYS + key sh - 1) mod 256 in
      match peek k2c pos with
      | None => Fault TableRange
      | Some kc =>
          let st := set_key_code kc st in
          let sh := set_fg 0 sh in
          if kc =? _HYP then
            Ok (mkMachine st (set_msgnr MSGHYP (set_fg 3 sh)))
          else if kc =? _LIT then
            Ok (mkMachine (set_key_code _END st)
                  (set_brightness ((brightness sh + 1) mod 256) sh))
          else if _LIT <? kc then
            match peek c2m (kc - _LIT - 1) with
            | None => Fault TableRange
            | Some mp =>
                Ok (mkMachine st
                      (set_msgnr MSGRUN (set_isrun true (set_memp mp sh))))
            end
          else Ok (mkMachine st sh)
      end
  else Ok mc.

(** [if (isrun && !islock && count++ > 5) { ... }]: [count] is incremented
    whenever the first two conjuncts hold.  [count] and [memp] are C [int]s;
    they are kept as unbounded integers here, [count] being reset or locked
    long before it could wrap. *)
Definition sequencer (mc : machine) : result machine :=
  let st := cpu_of mc in
  let sh := shell_of mc in
  if isrun sh && negb (islock sh) then
    let sh1 := set_count (count sh + 1) sh in
    if 5 <? count sh then
      match peek mem (memp sh1) with
      | None => Fault TableRange
      | Some cmd =>
          let sh2 := set_memp (memp sh1 + 1) sh1 in
          if cmd =? _END then
            Ok (mkMachine (set_display_update true st)
                  (set_islock true (set_msgnr 0 (set_isrun false sh2))))
          else
            Ok (mkMachine (set_key_code cmd st) (set_islock true sh2))
      end
    else Ok (mkMachine st sh1)
  else Ok mc.

(** [key = getkey(); if (key == oldkey) key = _END; else oldkey = key;] with
    the value of [getkey()] as [hw]. *)
Definition scan_key (hw : Z) (mc : machine) : machine :=
  let sh := shell_of mc in
  mkMachine (cpu_of mc)
    (if hw =? oldkey sh then set_key _END sh
     else set_oldkey hw (set_key hw sh)).

(** One pass of [loop()]. *)
Definition loop (hw : Z) (mc : machine) : result machine :=
  mc1 <- dispatch_key mc ;;
  mc2 <- process_rom mc1 ;;
  mc3 <- sequencer mc2 ;;
  Ok (scan_key hw mc3).

(** Successive passes, one [getkey()] sample each. *)
Fixpoint run (hws : list Z) (mc : machine) : result machine :=
  match hws with
  | [] => Ok mc
  | hw :: rest => mc1 <- loop hw mc ;; run rest mc1
  end.

(** * Power-on state: the initialisers of the globals *)

Definition _KX : Z := 8.

Definition reset_cpu : cpu :=
  let z := repeat 0 16 in
  mkCpu z z z z z z z z (repeat 0 12) 0 0 0 0 0 0 0 0 _END 0 true true.

Definition reset_shell : shell :=
  mkShell 0 (repeat (Some 0) 8) 2 false false false 0 0 _KX _KX 0x02.

Definition reset : machine := mkMachine reset_cpu reset_shell.

(** * Keyboard and display wiring *)

Definition _KN : Z := 16.
Definition SEGMENTS : Z := 8.

(** [while (c >>= 1) ans++;] of [getkey].  [c] is a 16-bit [unsigned int],
    so sixteen rounds always reach [c == 0]; [ans] is a byte. *)
Fixpoint count_shifts (fuel : nat) (c ans : Z) : Z :=
  match fuel with
  | O => ans
  | S fuel' =>
      let c := Z.shiftr c 1 in
      if c =? 0 then ans else count_shifts fuel' c ((ans + 1) mod 256)
  end.

(** [getkey()] on the value [buttons] of [getbuttons()]. *)
Definition getkey (buttons : Z) : Z :=
  if negb (Z.land buttons 0x0001 =? 0) then _KN
  else count_shifts 16 buttons 0.

(** One round of the gathering loop of [printbuf]:
    [dtmp = (dtmp << 1) | ((dbuf[i] & (0x01 << j)) ? 0x01 : 0x00)],
    [dtmp] being a byte. *)
Definition gather_bit (j : Z) (dtmp cell : Z) : Z :=
  Z.lor (Z.shiftl dtmp 1)
        (if negb (Z.land cell (Z.shiftl 0x01 j) =? 0) then 0x01 else 0x00)
  mod 256.

(** [for (byte i = 0; i < DIGITS; i++) dtmp = ...;] *)
Definition segment_byte (j : Z) (cells : list Z) (dtmp : Z) : Z :=
  fold_left (fun dtmp i => gather_bit j dtmp (digit_of cells i))
            [0; 1; 2; 3; 4; 5; 6; 7] dtmp.

(** The (address, data) frames [printbuf] shifts out after the indicator,
    for the segments [js] in turn: each segment byte is sent [DIGITS] times,
    and [dtmp] is carried from one segment to the next. *)
Fixpoint segment_frames (js : list Z) (cells : list Z) (dtmp : Z)
    : list (Z * Z) :=
  match js with
  | [] => []
  | j :: rest =>
      let dtmp := segment_byte j cells dtmp in
      repeat (Z.lor 0xc0 (2 * j), Z.lor 0x00 dtmp) (Z.to_nat DIGITS)
      ++ segment_frames rest cells dtmp
  end.

Definition printbuf_frames (cells : list Z) : list (Z * Z) :=
  segment_frames [0; 1; 2; 3; 4; 5; 6; 7] cells 0.

(** * Predicates of the specification *)

(** The 256 bytes, for properties settled by enumeration. *)
Definition bytes : list Z := map Z.of_nat (seq 0 256).

Definition for_all_bytes (test : Z -> bool) : bool := forallb test bytes.

Arguments memcpy : simpl never.
Arguments zero_word : simpl never.
Arguments show_stack : simpl never.
Arguments printscreen : simpl never.
Arguments message : simpl never.

(** Well-formed processor states.

    The arrays have their declared sizes and [p] is a nibble. *)

Definition wf_cpu (st : cpu) : Prop :=
  (forall r, length (rget r st) = 16%nat) /\
  length (s st) = 12%nat /\
  0 <= p st < 16.

Definition reg_eq_dec (r r' : reg) : {r = r'} + {r <> r'}.
Proof. decide equality. Defined.

(** Everything but the registers and [carry]. *)
Definition control (st : cpu) :=
  (s st, p st, pc st, ret st, offset st, first st, last st,
   prevCarry st, key_code st, key_rom st, display_enable st,
   display_update st).

(** Frames of the slice loops.

    [frame lo hi st st']: [st'] is well formed, differs from [st] in the
    registers only at indices [lo..hi], and has the same control fields. *)

Definition frame (lo hi : Z) (st st' : cpu) : Prop :=
  wf_cpu st' /\
  control st' = control st /\
  forall r i, ~ (lo <= i <= hi) -> peek (rget r st') i = peek (rget r st) i.

(** The slice every loop of [alu_op] ranges over. *)
Definition slice_ok (st : cpu) : Prop :=
  0 <= first st /\ first st <= last st /\ last st < 16.

(** The families that index the status array with [bitsel]. *)
Definition status_family (k : family) : bool :=
  match k with
  | TestStatus | SetStatus | ClearStatus => true
  | _ => false
  end.

(** The processor after [latch_key] when [s] holds its twelve entries. *)
Definition latched (st : cpu) : cpu :=
  if key_code st <? _END
  then set_s (poke (s st) 0 1) (set_key_code _END (set_key_rom (key_code st) st))
  else st.
Arguments latched : simpl never.

(** A register file whose E holds a 1 in digit 0 and whose F is zero. *)
Definition stack_sample : cpu := set_e (poke (e reset_cpu) 0 1) reset_cpu.

(** ** Decimal addition as the specification words it *)

(** [add(x, y, cin)]: [s = x + y + cin]; if [s >= 10] then [s -= 10],
    [cout = 1], else [cout = 0]. *)
Definition spec_add (x y cin : Z) : Z * Z :=
  let sum := x + y + cin in
  if 10 <=? sum then (sum - 10, 1) else (sum, 0).

(** [spec_add] rippled through two digit strings, least significant digit
    first; the second component is the carry out of the last digit. *)
Fixpoint spec_add_digits (xs ys : list Z) (cin : Z) : list Z * Z :=
  match xs, ys with
  | x :: xs', y :: ys' =>
      let '(sd, c1) := spec_add x y cin in
      let '(rest, cout) := spec_add_digits xs' ys' c1 in
      (sd :: rest, cout)
  | _, _ => ([], cin)
  end.

(** The number a digit string denotes. *)
Fixpoint decimal (ds : list Z) : Z :=
  match ds with
  | [] => 0
  | x :: tl => x + 10 * decimal tl
  end.

(** The [n] digits of a register from index [lo] upwards. *)
Fixpoint slice (l : list Z) (lo : Z) (n : nat) : list Z :=
  match n with
  | O => []
  | S n' => digit_of l lo :: slice l (lo + 1) n'
  end.

(** The add-class operations: target and the two operands. *)
Definition add_class (op_code : Z) : option (reg * reg * reg) :=
  match op_code with
  | 0x0e => Some (RC, RA, RC)
  | 0x1c => Some (RA, RA, RB)
  | 0x15 => Some (RC, RC, RC)
  | _ => None
  end.

Definition is_digit (x : Z) : Prop := 0 <= x <= 9.

(** ** The microcode image as 10-bit words *)

(** The words of a byte image stored as pairs, high byte first. *)
Fixpoint words (image : list Z) : list Z :=
  match image with
  | hb :: lb :: rest => (hb * 256 + lb) :: words rest
  | _ => []
  end.

Definition is_word10 (w : Z) : Prop := 0 <= w < 1024.

(** ** The sign cell of the display *)

(** What the projection leaves in cell 0 for the nibbles [A[13]], [B[13]]. *)
Definition sign_cell (a13 b13 : Z) : Z :=
  if 8 <=? b13 then 0
  else Z.lor (if 8 <=? a13 then _7MINUS else 0)
             (if b13 =? 2 then _7DOT else 0).

(** A machine showing a negative number whose B register blanks digit 13. *)
Definition blanked_sign : machine :=
  mkMachine
    (set_b (poke (b reset_cpu) 13 9) (set_a (poke (a reset_cpu) 13 9)
       reset_cpu))
    (set_fg 0 reset_shell).

(** ** The shell besides the banner *)

(** Everything of the shell but the message number and the display buffer. *)
Definition shell_rest (sh : shell) :=
  (fg sh, darkscreen sh, isrun sh, islock sh, count sh, memp sh, key sh,
   oldkey sh, brightness sh).

(** ** Script sequencer *)







(** ** Key pending monitor *)

(** Status bit 0. *)
Definition s0 (st : cpu) : Z := digit_of (s st) 0.

(** The monitor of the pending key: a key code is pending from the
    microcycle that latches it up to a microcycle whose low byte is [0xD0].
    [mc1] is the machine on which [process_rom] starts, [pend] the monitor
    before. *)
Definition pending_next (pend : bool) (mc1 : machine) : bool :=
  match fetch (cpu_of mc1) with
  | Ok (_, fetch_l) =>
      if fetch_l =? 0xD0 then false
      else if key_code (cpu_of mc1) <? _END then true
      else pend
  | Fault _ => pend
  end.

(** [run] with the monitor carried along. *)
Fixpoint run_monitor (hws : list Z) (mc : machine) (pend : bool)
    : result (machine * bool) :=
  match hws with
  | [] => Ok (mc, pend)
  | hw :: rest =>
      mc1 <- dispatch_key mc ;;
      mc' <- loop hw mc ;;
      run_monitor rest mc' (pending_next pend mc1)
  end.

(** The pairs of a byte image. *)
Fixpoint pairs (image : list Z) : list (Z * Z) :=
  match image with
  | hb :: lb :: rest => (hb, lb) :: pairs rest
  | _ => []
  end.

(** A pair that sets status bit 0 by the set-status microinstruction. *)
Definition sets_s0 (fetch_h fetch_l : Z) : bool :=
  guard SetStatus fetch_h fetch_l && (bitsel fetch_h fetch_l =? 0).

(** What the pending-key invariant needs of a pair of the image. *)
Definition plain_pair (hl : Z * Z) : bool :=
  (0 <=? fst hl) && (fst hl <? 256) && (0 <=? snd hl) && (snd hl <? 256) &&
  negb (sets_s0 (fst hl) (snd hl)).

(** The machine two passes after power-on, the key 1 sampled in the first
    pass and latched in the second. *)
Definition latched_machine : machine :=
  match run [2; 0] reset with
  | Ok mc => mc
  | Fault _ => reset
  end.

(** ** A run of the whole machine *)

(** [n] samples of [getkey()] with no key down. *)
Definition no_key (n : nat) : list Z := repeat 0 n.

(** The samples for the keys 1, 2, ENTER, 3, 4, F, + of the key matrix. *)
Definition keys_12_enter_34_add : list Z :=
  no_key 300 ++ [2] ++ no_key 400 ++ [4] ++ no_key 400 ++ [14] ++
  no_key 600 ++ [6] ++ no_key 400 ++ [11] ++ no_key 400 ++ [1] ++
  no_key 10 ++ [14] ++ no_key 1500.

(** * Further predicates: arithmetic over a slice *)

(** [sub(x, y, bin)] in the words of the specification: [d = x - y - bin];
    if [d < 0] then [d += 10], [bout = 1], else [bout = 0]. *)
Definition spec_sub (x y bin : Z) : Z * Z :=
  let d := x - y - bin in
  if d <? 0 then (d + 10, 1) else (d, 0).

(** The digit an operand contributes at index [i]. *)
Definition odigit (o : operand) (st : cpu) (i : Z) : Z :=
  match o with
  | Reg r => digit_of (rget r st) i
  | Imm z => z
  end.

(** The [n] digits of an operand from index [lo] upwards. *)
Fixpoint oslice (o : operand) (st : cpu) (lo : Z) (n : nat) : list Z :=
  match n with
  | O => []
  | S n' => odigit o st lo :: oslice o st (lo + 1) n'
  end.

(** Only the register [dst] differs between two states. *)
Definition only_reg (dst : reg) (st st' : cpu) : Prop :=
  forall r, r <> dst -> rget r st' = rget r st.

(** The law a BCD primitive obeys on digits: [sg] is 1 for addition and -1
    for subtraction. *)
Definition digit_law (prim : Z -> Z -> Z -> Z * Z) (sg : Z) : Prop :=
  forall x y cy, is_digit x -> is_digit y -> 0 <= cy <= 1 ->
  is_digit (fst (prim x y cy)) /\
  0 <= snd (prim x y cy) <= 1 /\
  fst (prim x y cy) = x + sg * (y + cy - 10 * snd (prim x y cy)).

(** The subtracting operations: target, minuend, subtrahend. *)
Definition sub_class (op_code : Z) : option (reg * reg * reg) :=
  match op_code with
  | 0x02 => Some (RT, RA, RC)
  | 0x0a => Some (RC, RA, RC)
  | 0x10 => Some (RT, RA, RB)
  | 0x18 => Some (RA, RA, RB)
  | 0x1a => Some (RA, RA, RC)
  | _ => None
  end.

(** The incrementing and the decrementing operations and their register. *)
Definition inc_class (op_code : Z) : option reg :=
  match op_code with
  | 0x0f => Some RC
  | 0x1f => Some RA
  | _ => None
  end.

Definition dec_class (op_code : Z) : option reg :=
  match op_code with
  | 0x0b => Some RC
  | 0x1b => Some RA
  | _ => None
  end.

(** The lower end and the upper end of the slice an arithmetic
    microinstruction with low byte [l] selects in state [st]. *)
Definition slice_lo (l : Z) (st : cpu) : Z :=
  first (select_slice (slice_code l) st).
Definition slice_hi (l : Z) (st : cpu) : Z :=
  last (select_slice (slice_code l) st).
Definition slice_len (l : Z) (st : cpu) : nat :=
  Z.to_nat (slice_hi l st + 1 - slice_lo l st).

(** The test operations: the register they look at and the value [carry]
    takes when a digit of the slice is not zero (it starts at the other
    value). *)
Definition test_class (op_code : Z) : option (reg * Z) :=
  match op_code with
  | 0x00 => Some (RB, 1)
  | 0x0d => Some (RC, 1)
  | 0x03 => Some (RC, 0)
  | 0x13 => Some (RA, 0)
  | _ => None
  end.

(** The copying operations (target, source), the clearing operations, the
    exchanging operations and the right shifts. *)
Definition copy_class (op_code : Z) : option (reg * reg) :=
  match op_code with
  | 0x04 => Some (RC, RB)
  | 0x09 => Some (RB, RA)
  | 0x0c => Some (RA, RC)
  | _ => None
  end.

Definition clear_class (op_code : Z) : option reg :=
  match op_code with
  | 0x01 => Some RB
  | 0x06 => Some RC
  | 0x17 => Some RA
  | _ => None
  end.

Definition exchange_class (op_code : Z) : option (reg * reg) :=
  match op_code with
  | 0x11 => Some (RB, RC)
  | 0x19 => Some (RA, RB)
  | 0x1d => Some (RA, RC)
  | _ => None
  end.

Definition shift_right_class (op_code : Z) : option reg :=
  match op_code with
  | 0x12 => Some RC
  | 0x14 => Some RB
  | 0x16 => Some RA
  | _ => None
  end.

Definition all_zero (ds : list Z) : bool := forallb (fun x => x =? 0) ds.

(** A state with a digit in [A] and in [C]. *)
Definition ac_sample : cpu :=
  set_c (poke (c reset_cpu) 3 7) (set_a (poke (a reset_cpu) 3 5) reset_cpu).

(** The state a microcycle hands to the cascade: [pc] advanced and a waiting
    key latched. *)
Definition entry (st : cpu) : cpu := latched (set_pc ((pc st + 1) mod 256) st).

(** ** Invariants of a run *)

(** Every entry of every register is a decimal digit. *)
Definition digits (st : cpu) : Prop := forall r, Forall is_digit (rget r st).

Definition operand_ok (o : operand) : Prop :=
  match o with Reg _ => True | Imm z => is_digit z end.

(** What the slice loops keep: well-formedness, decimal digits and a carry
    that is 0 or 1. *)
Definition good (st : cpu) : Prop :=
  wf_cpu st /\ digits st /\ 0 <= carry st <= 1.

(** The bank a [SelectRom] word selects and the digit a [LoadConst] word
    loads, as [process_rom] computes them. *)
Definition bank_of (fetch_h fetch_l : Z) : Z :=
  Z.lor (Z.land (Z.shiftl fetch_h 1) 6) (Z.land (Z.shiftr fetch_l 7) 1).

Definition const_of (fetch_h fetch_l : Z) : Z :=
  Z.lor (Z.shiftr fetch_l 6) (Z.shiftl fetch_h 2) mod 256.

(** What a run needs of a pair of the image: two bytes; a bank switch goes to
    one of the three banks; a status instruction names one of the twelve
    status bits; a loaded constant is a decimal digit. *)
Definition rom_pair_ok (hl : Z * Z) : bool :=
  let h := fst hl in
  let l := snd hl in
  (0 <=? h) && (h <? 256) && (0 <=? l) && (l <? 256) &&
  (negb (guard SelectRom h l) || ((0 <=? bank_of h l) && (bank_of h l <=? 2))) &&
  (negb (guard TestStatus h l || guard SetStatus h l || guard ClearStatus h l)
   || (bitsel h l <? 12)) &&
  (negb (guard LoadConst h l) || (const_of h l <=? 9)).

(** The processor side of the invariant of a run. *)
Definition cpu_inv (st : cpu) : Prop :=
  wf_cpu st /\ digits st /\
  0 <= pc st < 256 /\ 0 <= ret st < 256 /\ 0 <= offset st <= 2 /\
  0 <= key_rom st < 256 /\ 0 <= key_code st < 256.

(** A display cell that holds a segment pattern of the tables. *)
Definition defined (cell : option Z) : Prop := cell <> None.

(** The shell side of the invariant of a run. *)
Definition shell_inv (sh : shell) : Prop :=
  0 <= fg sh <= 3 /\ 0 <= msgnr sh <= 3 /\
  length (dbuf sh) = 8%nat /\ Forall defined (dbuf sh) /\
  (isrun sh = true -> 0 <= memp sh <= 203).

Definition machine_inv (mc : machine) : Prop :=
  cpu_inv (cpu_of mc) /\ shell_inv (shell_of mc).

(** [fg * KEYS + key - 1], the index [loop] reads [k2c] at. *)
Definition key_slot (sh : shell) : Z := (fg sh * KEYS + key sh - 1) mod 256.

(** What the sequencer needs of the tape at an index: a byte that is the end
    mark or is not the last entry. *)
Definition tape_ok (i : Z) : bool :=
  match peek mem i with
  | Some cmd => (0 <=? cmd) && (cmd <? 256) && ((cmd =? _END) || (i <? 203))
  | None => false
  end.

Definition byte_ok (x : Z) : bool := (0 <=? x) && (x <? 256).
Definition entry_ok (x : Z) : bool := (0 <=? x) && (x <=? 203).

(** The key codes of [k2c]: a ROM key code, [_HYP], [_LIT], one of the
    twelve scripts, or the end mark. *)
Definition code_ok (kc : Z) : bool :=
  ((0 <=? kc) && (kc <=? _LIT + 12)) || (kc =? _END).

(** The machine a list of key samples leaves behind, from power-on. *)
Definition outcome (hws : list Z) : machine :=
  match run hws reset with
  | Ok mc => mc
  | Fault _ => reset
  end.

(** The samples for F, F and the key 9, which has no function on the second
    shifted plane. *)
Definition keys_f_f_9 : list Z := [1; 0; 1; 0; 9; 0].

(** The samples for F, F and the key 5: the script R->P. *)
Definition keys_f_f_5 : list Z := [1; 0; 1; 0; 5; 0].

(** ** The script sequencer at work *)




(** The key codes found in the key latch after each pass of a run in which
    the tape position moved on and the sequencer stayed armed. *)
Fixpoint fed (hws : list Z) (mc : machine) : list Z :=
  match hws with
  | [] => []
  | hw :: rest =>
      match loop hw mc with
      | Ok mc1 =>
          (if isrun (shell_of mc1) &&
              (memp (shell_of mc) <? memp (shell_of mc1))
           then [key_code (cpu_of mc1)] else [])
          ++ fed rest mc1
      | Fault _ => []
      end
  end.

(** The samples for F, F, HYP and the key of SINH, each released: the script
    SINH is armed. *)
Definition keys_sinh : list Z := [1; 0; 1; 0; 12; 0; 3; 0].

Definition sinh_machine : machine := outcome keys_sinh.

(** ** Keys without a function *)

(** The key variable holds the end mark or a key number of [getkey]. *)
Definition key_ok (sh : shell) : Prop := key sh = _END \/ 0 <= key sh <= 16.

(** The key waiting at the head of a pass is dispatched to an entry of [k2c]
    above [_LIT] that is none of the twelve scripts: the read of [c2m] at
    [key_code - _LIT - 1] is behind the table. *)
Definition dead_key (sh : shell) : bool :=
  negb (key sh =? 0) && (key sh <? _END) && negb (key sh =? _KF) &&
  match peek k2c (key_slot sh) with
  | Some kc => (_LIT <? kc) && (12 <=? kc - _LIT - 1)
  | None => false
  end.

(** No pass of the run starts with such a key waiting. *)
Fixpoint live (hws : list Z) (mc : machine) : bool :=
  match hws with
  | [] => true
  | hw :: rest =>
      negb (dead_key (shell_of mc)) &&
      match loop hw mc with
      | Ok mc1 => live rest mc1
      | Fault _ => true
      end
  end.


(** * Enumerating bytes *)

Lemma in_bytes (z : Z) : 0 <= z < 256 -> In z bytes.
Proof.
  intros Hz. unfold bytes.
  replace z with (Z.of_nat (Z.to_nat z)) by lia.
  apply in_map, in_seq. lia.
Qed.

Lemma for_all_bytes_spec (test : Z -> bool) :
  for_all_bytes test = true -> forall z, 0 <= z < 256 -> test z = true.
Proof.
  unfold for_all_bytes. intros Hall z Hz.
  rewrite forallb_forall in Hall. apply Hall, in_bytes, Hz.
Qed.

Lemma for_all_pairs_spec (test : Z -> Z -> bool) :
  for_all_bytes (fun h => for_all_bytes (test h)) = true ->
  forall h l, 0 <= h < 256 -> 0 <= l < 256 -> test h l = true.
Proof.
  intros Hall h l Hh Hl.
  apply (for_all_bytes_spec (test h)); [|exact Hl].
  apply (for_all_bytes_spec (fun h => for_all_bytes (test h))); assumption.
Qed.

(** * The decoder fires at most one family *)

Lemma exclusive_on_bytes :
  for_all_bytes (fun h => for_all_bytes (fun l =>
    Nat.leb (length (matching h l)) 1)) = true.
Proof. vm_compute. reflexivity. Qed.

Lemma matching_at_most_one (h l : Z) :
  0 <= h < 256 -> 0 <= l < 256 -> (length (matching h l) <= 1)%nat.
Proof.
  intros Hh Hl. apply Nat.leb_le.
  apply (for_all_pairs_spec (fun h l => Nat.leb (length (matching h l)) 1)
           exclusive_on_bytes); assumption.
Qed.

Lemma bind_ok_r {X : Type} (r : result X) : (x <- r ;; Ok x) = r.
Proof. destruct r; reflexivity. Qed.

Lemma cascade_filter (ks : list family) (h l : Z) (st : cpu) :
  cascade ks h l st = cascade (filter (fun k => guard k h l) ks) h l st.
Proof.
  revert st. induction ks as [|k ks IH]; intros st; simpl; [reflexivity|].
  destruct (guard k h l) eqn:Hg; simpl.
  - rewrite Hg. destruct (effect k h l st); simpl; [apply IH|reflexivity].
  - apply IH.
Qed.

Lemma cascade_matching (h l : Z) (st : cpu) :
  cascade families h l st = cascade (matching h l) h l st.
Proof. unfold matching. apply cascade_filter. Qed.

Lemma matching_guarded (k : family) (h l : Z) :
  In k (matching h l) -> guard k h l = true.
Proof. unfold matching. intros Hin. apply filter_In in Hin. apply Hin. Qed.

Lemma in_families (k : family) : In k families.
Proof. destruct k; unfold families; simpl; tauto. Qed.

Lemma guarded_matching (k : family) (h l : Z) :
  guard k h l = true -> In k (matching h l).
Proof.
  intros Hg. unfold matching. apply filter_In. split; [apply in_families|exact Hg].
Qed.

Lemma cascade_dispatch (h l : Z) (st : cpu) :
  0 <= h < 256 -> 0 <= l < 256 ->
  cascade families h l st =
  match matching h l with
  | [] => Ok st
  | k :: _ => effect k h l st
  end.
Proof.
  intros Hh Hl. rewrite cascade_matching.
  pose proof (matching_at_most_one h l Hh Hl) as Hlen.
  pose proof (matching_guarded) as Hg. specialize (fun k => Hg k h l).
  destruct (matching h l) as [|k [|k' rest]].
  - reflexivity.
  - cbn [cascade]. rewrite (Hg k (or_introl eq_refl)). apply bind_ok_r.
  - cbn [length] in Hlen. lia.
Qed.

Lemma matching_guard (k : family) (h l : Z) :
  0 <= h < 256 -> 0 <= l < 256 ->
  guard k h l = true -> matching h l = [k].
Proof.
  intros Hh Hl Hg.
  pose proof (matching_at_most_one h l Hh Hl) as Hlen.
  pose proof (guarded_matching k h l Hg) as Hin.
  destruct (matching h l) as [|k0 [|k1 rest]].
  - destruct Hin.
  - destruct Hin as [->|[]]. reflexivity.
  - cbn [length] in Hlen. lia.
Qed.

Lemma bind_ext {X Y : Type} (r : result X) (k1 k2 : X -> result Y) :
  (forall x, k1 x = k2 x) -> bind r k1 = bind r k2.
Proof. intros Hk. destruct r; simpl; [apply Hk|reflexivity]. Qed.

Lemma execute_dispatch (k : family) (h l : Z) (st : cpu) :
  0 <= h < 256 -> 0 <= l < 256 -> guard k h l = true ->
  execute h l st =
  (st1 <- latch_key (set_pc ((pc st + 1) mod 256) st) ;; effect k h l st1).
Proof.
  intros Hh Hl Hg. unfold execute. apply bind_ext. intros st1.
  rewrite cascade_dispatch, (matching_guard k) by assumption. reflexivity.
Qed.

(** * Checked arrays *)

Lemma poke_nat_length {X : Type} (l : list X) (n : nat) (v : X) :
  length (poke_nat l n v) = length l.
Proof.
  revert n. induction l as [|x tl IH]; intros [|n]; simpl; auto.
Qed.

Lemma poke_length {X : Type} (l : list X) (i : Z) (v : X) :
  length (poke l i v) = length l.
Proof. unfold poke. destruct (i <? 0); [reflexivity|apply poke_nat_length]. Qed.

Lemma nth_error_poke_nat_eq {X : Type} (l : list X) (n : nat) (v : X) :
  (n < length l)%nat -> nth_error (poke_nat l n v) n = Some v.
Proof.
  revert n. induction l as [|x tl IH]; intros [|n] Hn; simpl in *;
    try lia; [reflexivity|apply IH; lia].
Qed.

Lemma nth_error_poke_nat_ne {X : Type} (l : list X) (n k : nat) (v : X) :
  n <> k -> nth_error (poke_nat l n v) k = nth_error l k.
Proof.
  revert n k. induction l as [|x tl IH]; intros [|n] [|k] Hne; simpl;
    try reflexivity; try congruence.
  all: try (apply IH; congruence).
Qed.

Lemma peek_poke_eq {X : Type} (l : list X) (i : Z) (v : X) :
  in_range l i = true -> peek (poke l i v) i = Some v.
Proof.
  unfold in_range, peek, poke. intros Hin.
  apply andb_prop in Hin. destruct Hin as [Hlo Hhi].
  apply Z.leb_le in Hlo. apply Z.ltb_lt in Hhi.
  destruct (i <? 0) eqn:Hneg; [apply Z.ltb_lt in Hneg; lia|].
  apply nth_error_poke_nat_eq. lia.
Qed.

Lemma peek_poke_ne {X : Type} (l : list X) (i j : Z) (v : X) :
  i <> j -> peek (poke l i v) j = peek l j.
Proof.
  unfold peek, poke. intros Hne.
  destruct (j <? 0) eqn:Hj; [reflexivity|].
  destruct (i <? 0) eqn:Hi; [reflexivity|].
  apply Z.ltb_ge in Hj, Hi. apply nth_error_poke_nat_ne. lia.
Qed.

Lemma peek_in_range {X : Type} (l : list X) (i : Z) :
  in_range l i = true -> exists v, peek l i = Some v.
Proof.
  unfold in_range, peek. intros Hin.
  apply andb_prop in Hin. destruct Hin as [Hlo Hhi].
  apply Z.leb_le in Hlo. apply Z.ltb_lt in Hhi.
  destruct (i <? 0) eqn:Hneg; [apply Z.ltb_lt in Hneg; lia|].
  destruct (nth_error l (Z.to_nat i)) as [v|] eqn:Hnth; [eauto|].
  apply nth_error_None in Hnth. lia.
Qed.

Lemma peek_nth (l : list Z) (i v : Z) :
  peek l i = Some v -> nth (Z.to_nat i) l 0 = v.
Proof.
  unfold peek. destruct (i <? 0); [discriminate|].
  intros Hnth. apply nth_error_nth. exact Hnth.
Qed.

Lemma in_range_bounds {X : Type} (l : list X) (i : Z) :
  in_range l i = true <-> 0 <= i < Z.of_nat (length l).
Proof.
  unfold in_range. rewrite andb_true_iff, Z.leb_le, Z.ltb_lt. tauto.
Qed.

Lemma memcpy_length (dst src : list Z) :
  (14 <= length src)%nat -> length (memcpy dst src) = length dst \/
                            (length dst < 14)%nat.
Proof.
  intros Hsrc. unfold memcpy.
  rewrite length_app, length_firstn, length_skipn.
  change (Z.to_nat WSIZE) with 14%nat. lia.
Qed.

Lemma memcpy_length16 (dst src : list Z) :
  length src = 16%nat -> length dst = 16%nat ->
  length (memcpy dst src) = 16%nat.
Proof.
  intros Hsrc Hdst. destruct (memcpy_length dst src); lia.
Qed.

Lemma memcpy_tmp_length16 (dst src : list Z) :
  length src = 16%nat -> length dst = 16%nat ->
  length (memcpy dst (firstn (Z.to_nat WSIZE) src)) = 16%nat.
Proof.
  intros Hsrc Hdst. unfold memcpy.
  rewrite length_app, !length_firstn, length_skipn.
  change (Z.to_nat WSIZE) with 14%nat. lia.
Qed.

Lemma zero_word_length16 (dst : list Z) :
  length dst = 16%nat -> length (zero_word dst) = 16%nat.
Proof.
  intros Hdst. unfold zero_word.
  rewrite length_app, repeat_length, length_skipn.
  change (Z.to_nat WSIZE) with 14%nat. lia.
Qed.



Lemma wf_reset : wf_cpu reset_cpu.
Proof.
  split; [intros []; reflexivity|]. split; [reflexivity|simpl; lia].
Qed.

Lemma rget_rset_eq (r : reg) (v : list Z) (st : cpu) :
  rget r (rset r v st) = v.
Proof. destruct r; reflexivity. Qed.

Lemma rget_rset_ne (r r' : reg) (v : list Z) (st : cpu) :
  r <> r' -> rget r' (rset r v st) = rget r' st.
Proof. destruct r, r'; intros Hne; try reflexivity; congruence. Qed.



Lemma control_rset (r : reg) (v : list Z) (st : cpu) :
  control (rset r v st) = control st.
Proof. destruct r; reflexivity. Qed.

Lemma carry_rset (r : reg) (v : list Z) (st : cpu) :
  carry (rset r v st) = carry st.
Proof. destruct r; reflexivity. Qed.

Lemma wf_rset (r : reg) (v : list Z) (st : cpu) :
  wf_cpu st -> length v = 16%nat -> wf_cpu (rset r v st).
Proof.
  intros (Hregs & Hs & Hp) Hv. split; [|split].
  - intros r'. destruct (reg_eq_dec r r') as [<-|Hne].
    + rewrite rget_rset_eq. exact Hv.
    + rewrite rget_rset_ne by exact Hne. apply Hregs.
  - destruct r; exact Hs.
  - destruct r; exact Hp.
Qed.

Lemma wf_set_carry (v : Z) (st : cpu) : wf_cpu st -> wf_cpu (set_carry v st).
Proof. intros Hwf. exact Hwf. Qed.


(** * Frames of the slice loops *)

Lemma frame_refl (lo hi : Z) (st : cpu) : wf_cpu st -> frame lo hi st st.
Proof. intros Hwf. repeat split; auto; apply Hwf. Qed.

Lemma frame_trans (lo hi : Z) (st1 st2 st3 : cpu) :
  frame lo hi st1 st2 -> frame lo hi st2 st3 -> frame lo hi st1 st3.
Proof.
  intros (_ & Hc12 & Hr12) (Hwf & Hc23 & Hr23). split; [exact Hwf|]. split.
  - congruence.
  - intros r i Hi. rewrite Hr23, Hr12 by exact Hi. reflexivity.
Qed.

Lemma wf_in_range (r : reg) (i : Z) (st : cpu) :
  wf_cpu st -> 0 <= i < 16 -> in_range (rget r st) i = true.
Proof.
  intros (Hregs & _) Hi. apply in_range_bounds. rewrite Hregs. lia.
Qed.

Lemma rd_ok (r : reg) (i : Z) (st : cpu) :
  wf_cpu st -> 0 <= i < 16 ->
  exists v, rd r i st = Ok v /\ peek (rget r st) i = Some v.
Proof.
  intros Hwf Hi. unfold rd.
  destruct (peek_in_range _ _ (wf_in_range r i st Hwf Hi)) as [v ->]. eauto.
Qed.

Lemma operand_at_ok (o : operand) (i : Z) (st : cpu) :
  wf_cpu st -> 0 <= i < 16 -> exists v, operand_at o i st = Ok v.
Proof.
  intros Hwf Hi. destruct o as [r|z]; simpl; [|eauto].
  destruct (rd_ok r i st Hwf Hi) as (v & -> & _). eauto.
Qed.

Lemma wr_ok (r : reg) (i v : Z) (st : cpu) :
  wf_cpu st -> 0 <= i < 16 ->
  wr r i v st = Ok (rset r (poke (rget r st) i v) st).
Proof. intros Hwf Hi. unfold wr. rewrite wf_in_range; auto. Qed.

Lemma wr_frame (lo hi : Z) (r : reg) (i v : Z) (st : cpu) :
  wf_cpu st -> 0 <= lo -> hi < 16 -> lo <= i <= hi ->
  exists st', wr r i v st = Ok st' /\ frame lo hi st st' /\
              carry st' = carry st.
Proof.
  intros Hwf Hlo Hhi Hi. rewrite wr_ok by (auto; lia).
  eexists. split; [reflexivity|]. split; [|apply carry_rset].
  split; [|split].
  - apply wf_rset; [exact Hwf|]. rewrite poke_length. apply Hwf.
  - apply control_rset.
  - intros r' j Hj. destruct (reg_eq_dec r r') as [<-|Hne].
    + rewrite rget_rset_eq. apply peek_poke_ne. lia.
    + rewrite rget_rset_ne by exact Hne. reflexivity.
Qed.

Lemma iter_up_inv (I : cpu -> Prop) (body : Z -> cpu -> result cpu)
    (n : nat) :
  forall lo,
  (forall i st, lo <= i < lo + Z.of_nat n -> I st ->
                exists st', body i st = Ok st' /\ I st') ->
  forall st, I st -> exists st', iter_up n lo body st = Ok st' /\ I st'.
Proof.
  induction n as [|n IH]; intros lo Hbody st Hst; simpl.
  - eauto.
  - destruct (Hbody lo st ltac:(lia) Hst) as (st1 & -> & Hst1). simpl.
    apply IH; [|exact Hst1].
    intros i st2 Hi. apply Hbody. lia.
Qed.

Lemma iter_down_inv (I : cpu -> Prop) (body : Z -> cpu -> result cpu)
    (n : nat) :
  forall hi,
  (forall i st, hi - Z.of_nat n < i <= hi -> I st ->
                exists st', body i st = Ok st' /\ I st') ->
  forall st, I st -> exists st', iter_down n hi body st = Ok st' /\ I st'.
Proof.
  induction n as [|n IH]; intros hi Hbody st Hst; simpl.
  - eauto.
  - destruct (Hbody hi st ltac:(lia) Hst) as (st1 & -> & Hst1). simpl.
    apply IH; [|exact Hst1].
    intros i st2 Hi. apply Hbody. lia.
Qed.

Lemma for_up_frame (lo hi : Z) (body : Z -> cpu -> result cpu) (a0 b0 : Z)
    (st : cpu) :
  (forall i st1, a0 <= i <= b0 -> wf_cpu st1 ->
     exists st2, body i st1 = Ok st2 /\ frame lo hi st1 st2) ->
  wf_cpu st ->
  exists st', for_up a0 b0 body st = Ok st' /\ frame lo hi st st'.
Proof.
  intros Hbody Hwf. unfold for_up.
  apply (iter_up_inv (frame lo hi st)); [|apply frame_refl, Hwf].
  intros i st1 Hi Hfr.
  destruct (Hbody i st1 ltac:(lia) ltac:(apply Hfr)) as (st2 & -> & Hfr2).
  eexists. split; [reflexivity|]. eapply frame_trans; eassumption.
Qed.

Lemma for_down_frame (lo hi : Z) (body : Z -> cpu -> result cpu) (a0 b0 : Z)
    (st : cpu) :
  (forall i st1, b0 < i <= a0 -> wf_cpu st1 ->
     exists st2, body i st1 = Ok st2 /\ frame lo hi st1 st2) ->
  wf_cpu st ->
  exists st', for_down a0 b0 body st = Ok st' /\ frame lo hi st st'.
Proof.
  intros Hbody Hwf. unfold for_down.
  apply (iter_down_inv (frame lo hi st)); [|apply frame_refl, Hwf].
  intros i st1 Hi Hfr.
  destruct (Hbody i st1 ltac:(lia) ltac:(apply Hfr)) as (st2 & -> & Hfr2).
  eexists. split; [reflexivity|]. eapply frame_trans; eassumption.
Qed.


Ltac read_reg r i st Hwf :=
  let v := fresh "v" in
  let Hrd := fresh "Hrd" in
  destruct (rd_ok r i st Hwf ltac:(lia)) as (v & Hrd & _);
  rewrite Hrd; cbn [bind].

Ltac write_reg Hwf :=
  match goal with
  | |- exists st', wr ?r ?i ?v ?st = Ok st' /\ frame ?lo ?hi _ st' =>
      let Hw := fresh "Hw" in
      destruct (wr_frame lo hi r i v st Hwf ltac:(lia) ltac:(lia) ltac:(lia))
        as (? & Hw & ? & _);
      rewrite Hw; eexists; split; [reflexivity|assumption]
  end.

Lemma alu_frame (prim : Z -> Z -> Z -> Z * Z) (dst : reg) (x y : operand)
    (st : cpu) :
  wf_cpu st -> slice_ok st ->
  exists st', alu prim dst x y st = Ok st' /\
              frame (first st) (last st) st st'.
Proof.
  intros Hwf Hsl. unfold alu, alu_step, slice_ok in *.
  apply for_up_frame; [|exact Hwf]. intros i st1 Hi Hwf1.
  destruct (operand_at_ok x i st1 Hwf1 ltac:(lia)) as [xv ->].
  destruct (operand_at_ok y i st1 Hwf1 ltac:(lia)) as [yv ->]. cbn [bind].
  destruct (prim xv yv (carry st1)) as [res cy].
  apply (wf_set_carry cy) in Hwf1.
  change (frame (first st) (last st) st1)
    with (frame (first st) (last st) (set_carry cy st1)).
  write_reg Hwf1.
Qed.

Lemma test_frame (r : reg) (v : Z) (st : cpu) :
  wf_cpu st -> slice_ok st ->
  exists st', test r v st = Ok st' /\ frame (first st) (last st) st st'.
Proof.
  intros Hwf Hsl. unfold test, slice_ok in *.
  apply for_up_frame; [|exact Hwf]. intros i st1 Hi Hwf1.
  read_reg r i st1 Hwf1. eexists. split; [reflexivity|].
  destruct (v0 =? 0); exact (frame_refl _ _ st1 Hwf1).
Qed.

Lemma clear_frame (dst : reg) (st : cpu) :
  wf_cpu st -> slice_ok st ->
  exists st', clear dst st = Ok st' /\ frame (first st) (last st) st st'.
Proof.
  intros Hwf Hsl. unfold clear, slice_ok in *.
  apply for_up_frame; [|exact Hwf]. intros i st1 Hi Hwf1.
  write_reg Hwf1.
Qed.

Lemma copy_frame (dst src : reg) (st : cpu) :
  wf_cpu st -> slice_ok st ->
  exists st', copy dst src st = Ok st' /\ frame (first st) (last st) st st'.
Proof.
  intros Hwf Hsl. unfold copy, slice_ok in *.
  apply for_up_frame; [|exact Hwf]. intros i st1 Hi Hwf1.
  read_reg src i st1 Hwf1. write_reg Hwf1.
Qed.

Lemma exchange_frame (x y : reg) (st : cpu) :
  wf_cpu st -> slice_ok st ->
  exists st', exchange x y st = Ok st' /\ frame (first st) (last st) st st'.
Proof.
  intros Hwf Hsl. unfold exchange, slice_ok in *.
  apply for_up_frame; [|exact Hwf]. intros i st1 Hi Hwf1.
  read_reg x i st1 Hwf1. read_reg y i st1 Hwf1.
  destruct (wr_frame (first st) (last st) x i v0 st1 Hwf1
              ltac:(lia) ltac:(lia) ltac:(lia)) as (st2 & -> & Hfr2 & _).
  cbn [bind].
  destruct (wr_frame (first st) (last st) y i v st2 ltac:(apply Hfr2)
              ltac:(lia) ltac:(lia) ltac:(lia)) as (st3 & -> & Hfr3 & _).
  eexists. split; [reflexivity|]. eapply frame_trans; eassumption.
Qed.

Lemma frame_first_last (lo hi : Z) (st st' : cpu) :
  frame lo hi st st' -> first st' = first st /\ last st' = last st.
Proof.
  intros (_ & Hc & _). unfold control in Hc.
  injection Hc as Hs Hp Hpc Hret Hoff Hfirst Hlast. auto.
Qed.

Lemma shift_left_frame (r : reg) (st : cpu) :
  wf_cpu st -> slice_ok st ->
  exists st', shift_left r st = Ok st' /\ frame (first st) (last st) st st'.
Proof.
  intros Hwf Hsl. unfold shift_left, slice_ok in *.
  destruct (for_down_frame (first st) (last st)
              (fun i st0 => x <- rd r (i - 1) st0 ;; wr r i x st0)
              (last st) (first st) st) as (st1 & -> & Hfr1); [|exact Hwf|].
  - intros i st1 Hi Hwf1. read_reg r (i - 1) st1 Hwf1. write_reg Hwf1.
  - cbn [bind]. destruct (frame_first_last _ _ _ _ Hfr1) as [-> _].
    destruct (wr_frame (first st) (last st) r (first st) 0 st1
                ltac:(apply Hfr1) ltac:(lia) ltac:(lia) ltac:(lia))
      as (st2 & -> & Hfr2 & _).
    eexists. split; [reflexivity|]. eapply frame_trans; eassumption.
Qed.

Lemma shift_right_frame (r : reg) (st : cpu) :
  wf_cpu st -> slice_ok st ->
  exists st', shift_right r st = Ok st' /\ frame (first st) (last st) st st'.
Proof.
  intros Hwf Hsl. unfold shift_right, slice_ok in *.
  destruct (for_up_frame (first st) (last st)
              (fun i st0 => x <- rd r (i + 1) st0 ;; wr r i x st0)
              (first st) (last st - 1) st) as (st1 & -> & Hfr1); [|exact Hwf|].
  - intros i st1 Hi Hwf1. read_reg r (i + 1) st1 Hwf1. write_reg Hwf1.
  - cbn [bind]. destruct (frame_first_last _ _ _ _ Hfr1) as [_ ->].
    destruct (wr_frame (first st) (last st) r (last st) 0 st1
                ltac:(apply Hfr1) ltac:(lia) ltac:(lia) ltac:(lia))
      as (st2 & -> & Hfr2 & _).
    eexists. split; [reflexivity|]. eapply frame_trans; eassumption.
Qed.

Create HintDb slice_loops.
#[local] Hint Resolve alu_frame test_frame clear_frame copy_frame
  exchange_frame shift_left_frame shift_right_frame wf_set_carry
  : slice_loops.

Lemma alu_op_frame (op_code : Z) (st : cpu) :
  wf_cpu st -> slice_ok st -> 0 <= op_code < 32 ->
  exists st', alu_op op_code st = Ok st' /\
              frame (first st) (last st) st st'.
Proof.
  intros Hwf Hsl Hop.
  assert (Hcases : In op_code (map Z.of_nat (seq 0 32))).
  { replace op_code with (Z.of_nat (Z.to_nat op_code)) by lia.
    apply in_map, in_seq. lia. }
  cbn [seq map In] in Hcases.
  repeat (destruct Hcases as [<-|Hcases]);
    [.. | destruct Hcases]; cbn [alu_op Z.of_nat Pos.of_succ_nat Pos.succ];
    auto with slice_loops;
    match goal with
    | |- exists st', ?fn (set_carry 1 st) = _ /\ _ =>
        change (frame (first st) (last st) st)
          with (frame (first (set_carry 1 st)) (last (set_carry 1 st))
                  (set_carry 1 st));
        auto with slice_loops
    end.
Qed.

(** * Bit fields of a fetched pair *)

Section FetchedPair.

Variables h l : Z.
Hypothesis Hh : 0 <= h < 256.
Hypothesis Hl : 0 <= l < 256.

Lemma bitsel_bound : 0 <= bitsel h l < 16.
Proof.
  assert (Hb : (0 <=? bitsel h l) && (bitsel h l <? 16) = true).
  { apply (for_all_pairs_spec
             (fun h l => (0 <=? bitsel h l) && (bitsel h l <? 16)));
      [vm_compute; reflexivity|assumption..]. }
  apply andb_prop in Hb. destruct Hb as [Hlo Hhi].
  apply Z.leb_le in Hlo. apply Z.ltb_lt in Hhi. lia.
Qed.

Lemma op_code_bound : 0 <= op_code_of h l < 32.
Proof.
  assert (Hb : (0 <=? op_code_of h l) && (op_code_of h l <? 32) = true).
  { apply (for_all_pairs_spec
             (fun h l => (0 <=? op_code_of h l) && (op_code_of h l <? 32)));
      [vm_compute; reflexivity|assumption..]. }
  apply andb_prop in Hb. destruct Hb as [Hlo Hhi].
  apply Z.leb_le in Hlo. apply Z.ltb_lt in Hhi. lia.
Qed.

Lemma slice_code_bound : 0 <= slice_code l < 8.
Proof.
  assert (Hb : (0 <=? slice_code l) && (slice_code l <? 8) = true).
  { apply (for_all_bytes_spec
             (fun l => (0 <=? slice_code l) && (slice_code l <? 8)));
      [vm_compute; reflexivity|assumption]. }
  apply andb_prop in Hb. destruct Hb as [Hlo Hhi].
  apply Z.leb_le in Hlo. apply Z.ltb_lt in Hhi. lia.
Qed.

End FetchedPair.

Lemma nibble_mask (x : Z) : 0 <= Z.land x 0x0f < 16.
Proof.
  change 0x0f with (Z.ones 4). rewrite Z.land_ones by lia.
  apply Z.mod_pos_bound. reflexivity.
Qed.

Lemma select_slice_ok (code : Z) (st : cpu) :
  0 <= code < 8 -> 0 <= p st < 16 -> slice_ok (select_slice code st).
Proof.
  intros Hcode Hp. unfold slice_ok.
  assert (Hcases : In code (map Z.of_nat (seq 0 8))).
  { replace code with (Z.of_nat (Z.to_nat code)) by lia.
    apply in_map, in_seq. lia. }
  cbn [seq map In] in Hcases.
  repeat (destruct Hcases as [<-|Hcases]); [.. | destruct Hcases];
    cbn; lia.
Qed.

Lemma select_slice_regs (code : Z) (st : cpu) :
  0 <= code < 8 ->
  (forall r, rget r (select_slice code st) = rget r st) /\
  wf_cpu (select_slice code st) = wf_cpu st.
Proof.
  intros Hcode.
  assert (Hcases : In code (map Z.of_nat (seq 0 8))).
  { replace code with (Z.of_nat (Z.to_nat code)) by lia.
    apply in_map, in_seq. lia. }
  cbn [seq map In] in Hcases.
  repeat (destruct Hcases as [<-|Hcases]); [.. | destruct Hcases];
    (split; [intros []; reflexivity|reflexivity]).
Qed.

(** * Memory safety of one decoded instruction *)

Lemma wr_status_ok (i v : Z) (st : cpu) :
  wf_cpu st -> 0 <= i < 12 ->
  wr_status i v st = Ok (set_s (poke (s st) i v) st).
Proof.
  intros (_ & Hs & _) Hi. unfold wr_status.
  replace (in_range (s st) i) with true; [reflexivity|].
  symmetry. apply in_range_bounds. rewrite Hs. lia.
Qed.

Lemma wr_status_fault (i v : Z) (st : cpu) :
  wf_cpu st -> 12 <= i -> wr_status i v st = Fault StatusRange.
Proof.
  intros (_ & Hs & _) Hi. unfold wr_status.
  destruct (in_range (s st) i) eqn:Hin; [|reflexivity].
  apply in_range_bounds in Hin. rewrite Hs in Hin. lia.
Qed.

Lemma rd_status_ok (i : Z) (st : cpu) :
  wf_cpu st -> 0 <= i < 12 -> exists v, rd_status i st = Ok v.
Proof.
  intros (_ & Hs & _) Hi. unfold rd_status.
  destruct (peek_in_range (s st) i) as [v ->]; [|eauto].
  apply in_range_bounds. rewrite Hs. lia.
Qed.

Lemma rd_status_fault (i : Z) (st : cpu) :
  wf_cpu st -> 12 <= i -> rd_status i st = Fault StatusRange.
Proof.
  intros (_ & Hs & _) Hi. unfold rd_status, peek.
  destruct (i <? 0) eqn:Hneg; [reflexivity|].
  destruct (nth_error (s st) (Z.to_nat i)) eqn:Hnth; [|reflexivity].
  assert (Z.to_nat i < length (s st))%nat
    by (apply nth_error_Some; congruence). lia.
Qed.

Lemma wf_set_s (v : list Z) (st : cpu) :
  wf_cpu st -> length v = 12%nat -> wf_cpu (set_s v st).
Proof. intros (Hregs & Hs & Hp) Hv. split; [exact Hregs|]. split; assumption. Qed.

Lemma wf_set_p (v : Z) (st : cpu) :
  wf_cpu st -> 0 <= v < 16 -> wf_cpu (set_p v st).
Proof. intros (Hregs & Hs & Hp) Hv. split; [exact Hregs|]. split; assumption. Qed.

Lemma wf_regs (st st' : cpu) :
  wf_cpu st -> (forall r, length (rget r st') = 16%nat) ->
  s st' = s st -> p st' = p st -> wf_cpu st'.
Proof.
  intros (_ & Hs & Hp) Hregs Hs' Hp'. split; [exact Hregs|].
  rewrite Hs', Hp'. split; assumption.
Qed.

Ltac regs_keep_size Hwf :=
  match type of Hwf with
  | wf_cpu ?st =>
      let Hregs := fresh "Hregs" in
      pose proof (proj1 Hwf) as Hregs;
      apply (wf_regs st); [exact Hwf| |reflexivity..];
      let r := fresh "r" in
      intros r;
      pose proof (Hregs RA); pose proof (Hregs RB); pose proof (Hregs RC);
      pose proof (Hregs RD); pose proof (Hregs RE); pose proof (Hregs RF);
      pose proof (Hregs RM); pose proof (Hregs RT);
      destruct r; cbn in *;
      auto using memcpy_length16, memcpy_tmp_length16, zero_word_length16
  end.


Lemma effect_safe (k : family) (h l : Z) (st : cpu) :
  0 <= h < 256 -> 0 <= l < 256 -> wf_cpu st ->
  (exists st', effect k h l st = Ok st' /\ wf_cpu st') \/
  (effect k h l st = Fault StatusRange /\ status_family k = true /\
   12 <= bitsel h l).
Proof.
  intros Hh Hl Hwf.
  pose proof (bitsel_bound h l Hh Hl) as Hb.
  pose proof Hwf as (Hregs & Hs & Hp).
  destruct k; cbn [effect];
    try (left; eexists; split; [reflexivity|exact Hwf]).
  - (* KeyJump *)
    left. change (wf_cpu st) with (wf_cpu (set_pc (key_rom st) st)) in Hwf.
    rewrite wr_status_ok by (auto; lia). eexists. split; [reflexivity|].
    apply wf_set_s; [exact Hwf|]. rewrite poke_length. exact Hs.
  - (* TestStatus *)
    destruct (Z_lt_le_dec (bitsel h l) 12) as [Hlt|Hge].
    + left. destruct (rd_status_ok (bitsel h l) st Hwf ltac:(lia)) as [v ->].
      eexists. split; [reflexivity|exact Hwf].
    + right. rewrite rd_status_fault by assumption. auto.
  - (* SetStatus *)
    destruct (Z_lt_le_dec (bitsel h l) 12) as [Hlt|Hge].
    + left. rewrite wr_status_ok by (auto; lia). eexists.
      split; [reflexivity|]. apply wf_set_s; [exact Hwf|].
      rewrite poke_length. exact Hs.
    + right. rewrite wr_status_fault by assumption. auto.
  - (* ClearStatus *)
    destruct (Z_lt_le_dec (bitsel h l) 12) as [Hlt|Hge].
    + left. rewrite wr_status_ok by (auto; lia). eexists.
      split; [reflexivity|]. apply wf_set_s; [exact Hwf|].
      rewrite poke_length. exact Hs.
    + right. rewrite wr_status_fault by assumption. auto.
  - (* ClearAllStatus *)
    left. eexists. split; [reflexivity|]. apply wf_set_s; [exact Hwf|].
    rewrite length_app, repeat_length, length_skipn. lia.
  - (* SetP *)
    left. eexists. split; [reflexivity|]. apply wf_set_p; assumption.
  - (* IncP *)
    left. eexists. split; [reflexivity|].
    apply wf_set_p; [exact Hwf|apply nibble_mask].
  - (* DecP *)
    left. eexists. split; [reflexivity|].
    apply wf_set_p; [exact Hwf|apply nibble_mask].
  - (* LoadConst *)
    left. rewrite wr_ok by assumption. cbn [bind]. eexists.
    split; [reflexivity|]. apply wf_set_p; [|apply nibble_mask].
    apply wf_rset; [exact Hwf|]. rewrite poke_length. apply Hregs.
  - (* SwapCM *)
    left. eexists. split; [reflexivity|]. regs_keep_size Hwf.
  - (* Push *)
    left. eexists. split; [reflexivity|]. regs_keep_size Hwf.
  - (* Pop *)
    left. eexists. split; [reflexivity|]. regs_keep_size Hwf.
  - (* RecallM *)
    left. eexists. split; [reflexivity|]. regs_keep_size Hwf.
  - (* RotateDown *)
    left. eexists. split; [reflexivity|]. regs_keep_size Hwf.
  - (* ClearRegs *)
    left. eexists. split; [reflexivity|]. regs_keep_size Hwf.
  - (* Branch *)
    left. eexists. split; [reflexivity|].
    destruct (negb (prevCarry st =? 1)); exact Hwf.
  - (* Arith *)
    left.
    pose proof (slice_code_bound l Hl) as Hcode.
    pose proof (select_slice_ok (slice_code l) st Hcode Hp) as Hsl.
    destruct (select_slice_regs (slice_code l) st Hcode) as [_ Hwfeq].
    destruct (alu_op_frame (op_code_of h l)
                (set_carry 0 (select_slice (slice_code l) st)))
      as (st' & -> & Hfr & _).
    + change (wf_cpu (select_slice (slice_code l) st)). rewrite Hwfeq.
      exact Hwf.
    + exact Hsl.
    + apply op_code_bound; assumption.
    + eauto.
Qed.

(** * The key latch *)

Lemma latch_key_ok (st : cpu) : wf_cpu st -> latch_key st = Ok (latched st).
Proof.
  intros Hwf. unfold latch_key, latched.
  destruct (key_code st <? _END); [|reflexivity].
  exact (wr_status_ok 0 1
           (set_key_code _END (set_key_rom (key_code st) st)) Hwf
           ltac:(lia)).
Qed.

Lemma wf_latched (st : cpu) : wf_cpu st -> wf_cpu (latched st).
Proof.
  intros Hwf. unfold latched. destruct (key_code st <? _END); [|exact Hwf].
  apply (wf_set_s _ (set_key_code _END (set_key_rom (key_code st) st)));
    [exact Hwf|].
  rewrite poke_length. apply Hwf.
Qed.

Lemma rget_latched (r : reg) (st : cpu) : rget r (latched st) = rget r st.
Proof.
  unfold latched. destruct (key_code st <? _END); destruct r; reflexivity.
Qed.

Lemma p_latched (st : cpu) : p (latched st) = p st.
Proof. unfold latched. destruct (key_code st <? _END); reflexivity. Qed.

Lemma execute_guarded (k : family) (h l : Z) (st : cpu) :
  0 <= h < 256 -> 0 <= l < 256 -> wf_cpu st -> guard k h l = true ->
  execute h l st = effect k h l (latched (set_pc ((pc st + 1) mod 256) st)).
Proof.
  intros Hh Hl Hwf Hg. rewrite (execute_dispatch k) by assumption.
  rewrite latch_key_ok by exact Hwf. reflexivity.
Qed.

(** * Decoder *)

(** C3.  For every byte pair [(H, L)] at most one family of the cascade
    matches, and one microcycle is the key latch followed by the effect of
    that single family, or by nothing when no family matches: no pair runs
    the effects of two families. *)
Theorem decoder_total_exclusive (h l : Z) :
  0 <= h < 256 -> 0 <= l < 256 ->
  (length (matching h l) <= 1)%nat /\
  (forall k, In k (matching h l) <-> guard k h l = true) /\
  forall st,
    execute h l st =
    (st1 <- latch_key (set_pc ((pc st + 1) mod 256) st) ;;
     match matching h l with
     | [] => Ok st1
     | k :: _ => effect k h l st1
     end).
Proof.
  intros Hh Hl. split; [apply matching_at_most_one; assumption|]. split.
  - intros k. split; [apply matching_guarded|apply guarded_matching].
  - intros st. unfold execute. apply bind_ext. intros st1.
    apply cascade_dispatch; assumption.
Qed.

Lemma decoder_total_exclusive_witness :
  (length (matching 0 221) <= 1)%nat /\
  (forall k, In k (matching 0 221) <-> guard k 0 221 = true) /\
  forall st,
    execute 0 221 st =
    (st1 <- latch_key (set_pc ((pc st + 1) mod 256) st) ;;
     match matching 0 221 with
     | [] => Ok st1
     | k :: _ => effect k 0 221 st1
     end).
Proof. apply (decoder_total_exclusive 0 221); lia. Defined.

(** * Memory safety *)

Lemma execute_safe (h l : Z) (st : cpu) :
  0 <= h < 256 -> 0 <= l < 256 -> wf_cpu st ->
  (exists st', execute h l st = Ok st' /\ wf_cpu st') \/
  (execute h l st = Fault StatusRange /\ 12 <= bitsel h l).
Proof.
  intros Hh Hl Hwf.
  assert (Hwf1 : wf_cpu (latched (set_pc ((pc st + 1) mod 256) st))).
  { apply wf_latched. exact Hwf. }
  unfold execute. rewrite latch_key_ok by exact Hwf. cbn [bind].
  rewrite cascade_dispatch by assumption.
  destruct (matching h l) as [|k rest].
  - left. eauto.
  - destruct (effect_safe k h l _ Hh Hl Hwf1) as [Hok|(Hft & _ & Hsel)];
      [left|right]; auto.
Qed.

(** C10.  From a state whose arrays have their declared 16 (registers) and
    12 (status) entries and whose [p] is a nibble, a microinstruction never
    indexes a working register, M or T out of bounds: it either completes in
    such a state again ([p] stays in 0..15, being masked at every write) or
    stops on a status index of 12 or more; the slices of codes 0 and 4 lie
    within 0..15 for every such [p]. *)
Theorem register_accesses_in_bounds (h l : Z) (st : cpu) :
  0 <= h < 256 -> 0 <= l < 256 -> wf_cpu st ->
  ((exists st', execute h l st = Ok st' /\ wf_cpu st') \/
   (execute h l st = Fault StatusRange /\ 12 <= bitsel h l)) /\
  execute h l st <> Fault RegRange /\
  slice_ok (select_slice 0 st) /\ slice_ok (select_slice 4 st).
Proof.
  intros Hh Hl Hwf.
  pose proof (execute_safe h l st Hh Hl Hwf) as Hrun.
  split; [exact Hrun|]. split.
  - destruct Hrun as [(st' & -> & _)|[-> _]]; discriminate.
  - split; apply select_slice_ok; try lia; apply Hwf.
Qed.

Lemma register_accesses_in_bounds_witness :
  ((exists st', execute 1 24 (set_p 15 reset_cpu) = Ok st' /\ wf_cpu st') \/
   (execute 1 24 (set_p 15 reset_cpu) = Fault StatusRange /\
    12 <= bitsel 1 24)) /\
  execute 1 24 (set_p 15 reset_cpu) <> Fault RegRange /\
  slice_ok (select_slice 0 (set_p 15 reset_cpu)) /\
  slice_ok (select_slice 4 (set_p 15 reset_cpu)).
Proof.
  apply (register_accesses_in_bounds 1 24 (set_p 15 reset_cpu)); try lia.
  split; [intros []; reflexivity|]. split; [reflexivity|simpl; lia].
Defined.

(** * Frame of the arithmetic family *)

Lemma select_slice_bounds (code : Z) (st1 st2 : cpu) :
  0 <= code < 8 -> p st1 = p st2 ->
  first (select_slice code st1) = first (select_slice code st2) /\
  last (select_slice code st1) = last (select_slice code st2).
Proof.
  intros Hcode Hp.
  assert (Hcases : In code (map Z.of_nat (seq 0 8))).
  { replace code with (Z.of_nat (Z.to_nat code)) by lia.
    apply in_map, in_seq. lia. }
  cbn [seq map In] in Hcases.
  repeat (destruct Hcases as [<-|Hcases]); [.. | destruct Hcases];
    cbn; auto.
Qed.

Lemma arith_guard (h l : Z) : Z.land l 0x03 = 0x02 -> guard Arith h l = true.
Proof. intros Hl. cbn [guard]. rewrite Hl. reflexivity. Qed.

(** The state on which the arithmetic switch starts. *)
Lemma execute_arith (h l : Z) (st : cpu) :
  0 <= h < 256 -> 0 <= l < 256 -> Z.land l 0x03 = 0x02 -> wf_cpu st ->
  execute h l st =
  alu_op (op_code_of h l)
    (set_carry 0 (select_slice (slice_code l)
                    (latched (set_pc ((pc st + 1) mod 256) st)))).
Proof.
  intros Hh Hl Hfam Hwf.
  rewrite (execute_guarded Arith) by (auto using arith_guard). reflexivity.
Qed.

(** C2.  An arithmetic-family microinstruction ([L & 0x03 == 0x02]) run on
    a well-formed state completes, and no register (target or other) changes
    at any index outside the selected slice [first..last]. *)
Theorem arithmetic_confined_to_slice (h l : Z) (st : cpu) :
  0 <= h < 256 -> 0 <= l < 256 -> Z.land l 0x03 = 0x02 -> wf_cpu st ->
  exists st',
    execute h l st = Ok st' /\
    first st' = first (select_slice (slice_code l) st) /\
    last st' = last (select_slice (slice_code l) st) /\
    forall r i, ~ (first st' <= i <= last st') ->
                peek (rget r st') i = peek (rget r st) i.
Proof.
  intros Hh Hl Hfam Hwf. rewrite execute_arith by assumption.
  set (st1 := latched (set_pc ((pc st + 1) mod 256) st)).
  assert (Hwf1 : wf_cpu st1) by (apply wf_latched; exact Hwf).
  pose proof (slice_code_bound l Hl) as Hcode.
  destruct (select_slice_regs (slice_code l) st1 Hcode) as [Hregs Hwfeq].
  destruct (select_slice_bounds (slice_code l) st1 st Hcode) as [Hfst Hlst].
  { unfold st1. rewrite p_latched. reflexivity. }
  destruct (alu_op_frame (op_code_of h l)
              (set_carry 0 (select_slice (slice_code l) st1)))
    as (st' & Hrun & Hfr).
  - change (wf_cpu (select_slice (slice_code l) st1)). rewrite Hwfeq.
    exact Hwf1.
  - apply (select_slice_ok (slice_code l) st1 Hcode). apply Hwf1.
  - apply op_code_bound; assumption.
  - exists st'. split; [exact Hrun|].
    destruct (frame_first_last _ _ _ _ Hfr) as [Hf Hl'].
    cbn [first last set_carry] in Hf, Hl'.
    split; [congruence|]. split; [congruence|].
    intros r i Hi. destruct Hfr as (_ & _ & Hframe).
    rewrite Hframe.
    + change (rget r (set_carry 0 (select_slice (slice_code l) st1)))
        with (rget r (select_slice (slice_code l) st1)).
      rewrite Hregs. unfold st1. rewrite rget_latched. reflexivity.
    + cbn [first last set_carry]. rewrite <- Hf, <- Hl'. exact Hi.
Qed.

Lemma arithmetic_confined_to_slice_witness :
  exists st',
    execute 3 142 reset_cpu = Ok st' /\
    first st' = first (select_slice (slice_code 142) reset_cpu) /\
    last st' = last (select_slice (slice_code 142) reset_cpu) /\
    forall r i, ~ (first st' <= i <= last st') ->
                peek (rget r st') i = peek (rget r reset_cpu) i.
Proof.
  apply (arithmetic_confined_to_slice 3 142 reset_cpu);
    [lia|lia|reflexivity|].
  split; [intros []; reflexivity|]. split; [reflexivity|simpl; lia].
Defined.

(** * Stack moves *)

Lemma firstn_memcpy (dst src : list Z) :
  (14 <= length src)%nat ->
  firstn (Z.to_nat WSIZE) (memcpy dst src) = firstn (Z.to_nat WSIZE) src.
Proof.
  intros Hsrc. unfold memcpy. change (Z.to_nat WSIZE) with 14%nat.
  rewrite firstn_app, firstn_firstn, length_firstn.
  replace (14 - Nat.min 14 (length src))%nat with 0%nat by lia.
  rewrite Nat.min_id, firstn_O, app_nil_r. reflexivity.
Qed.

Lemma skipn_memcpy (dst src : list Z) :
  (14 <= length src)%nat ->
  skipn (Z.to_nat WSIZE) (memcpy dst src) = skipn (Z.to_nat WSIZE) dst.
Proof.
  intros Hsrc. unfold memcpy. change (Z.to_nat WSIZE) with 14%nat.
  rewrite skipn_app, length_firstn.
  replace (14 - Nat.min 14 (length src))%nat with 0%nat by lia.
  rewrite skipn_all2 by (rewrite length_firstn; lia). reflexivity.
Qed.

Lemma memcpy_back (x y z : list Z) :
  (14 <= length x)%nat -> (14 <= length y)%nat ->
  memcpy (memcpy x y) (memcpy z x) = x.
Proof.
  intros Hx Hy. unfold memcpy at 1.
  rewrite firstn_memcpy, skipn_memcpy by assumption.
  apply firstn_skipn.
Qed.

Lemma memcpy_through (x y z : list Z) :
  (14 <= length y)%nat -> memcpy x (memcpy z y) = memcpy x y.
Proof.
  intros Hy. unfold memcpy at 1. rewrite firstn_memcpy by assumption.
  reflexivity.
Qed.

Lemma push_guard (h l : Z) :
  Z.land h 0x03 = 0x01 -> Z.land l 0xef = 0x28 -> guard Push h l = true.
Proof. intros Hh Hl. cbn [guard]. unfold h3. rewrite Hh, Hl. reflexivity. Qed.

Lemma pop_guard (h l : Z) :
  Z.land h 0x03 = 0x01 -> Z.land l 0xef = 0xa8 -> guard Pop h l = true.
Proof. intros Hh Hl. cbn [guard]. unfold h3. rewrite Hh, Hl. reflexivity. Qed.

Lemma rget_entry (r : reg) (v : Z) (st : cpu) :
  rget r (latched (set_pc v st)) = rget r st.
Proof. rewrite rget_latched. destruct r; reflexivity. Qed.

Ltac strip_entry :=
  repeat match goal with
         | H : context [rget _ (latched (set_pc _ _))] |- _ =>
             rewrite rget_entry in H
         end.

Lemma wf_set_pc (v : Z) (st : cpu) : wf_cpu st -> wf_cpu (set_pc v st).
Proof. intros Hwf. exact Hwf. Qed.

Lemma push_regs (h l : Z) (st : cpu) :
  exists st',
    effect Push h l st = Ok st' /\
    rget RA st' = rget RA st /\
    rget RC st' = rget RC st /\
    rget RD st' = memcpy (rget RD st) (rget RC st) /\
    rget RE st' = memcpy (rget RE st) (rget RD st) /\
    rget RF st' = memcpy (rget RF st) (rget RE st).
Proof. eexists. split; [reflexivity|]. repeat split; reflexivity. Qed.

Lemma pop_regs (h l : Z) (st : cpu) :
  exists st',
    effect Pop h l st = Ok st' /\
    rget RA st' = memcpy (rget RA st) (rget RD st) /\
    rget RC st' = rget RC st /\
    rget RD st' = memcpy (rget RD st) (rget RE st) /\
    rget RE st' = memcpy (rget RE st) (rget RF st) /\
    rget RF st' = rget RF st.
Proof. eexists. split; [reflexivity|]. repeat split; reflexivity. Qed.

(** C4, as the code has it.  Push ([F<-E, E<-D, D<-C]) followed by pop
    ([A<-D, D<-E, E<-F]) restores D and E, leaves C untouched and copies the
    pushed word to A; F is not restored: it keeps the word of E that the push
    moved into it. *)
Theorem push_pop_restores_D_E (h1 l1 h2 l2 : Z) (st : cpu) :
  0 <= h1 < 256 -> 0 <= l1 < 256 -> 0 <= h2 < 256 -> 0 <= l2 < 256 ->
  Z.land h1 0x03 = 0x01 -> Z.land l1 0xef = 0x28 ->
  Z.land h2 0x03 = 0x01 -> Z.land l2 0xef = 0xa8 ->
  wf_cpu st ->
  exists st1 st2,
    execute h1 l1 st = Ok st1 /\ execute h2 l2 st1 = Ok st2 /\
    rget RD st2 = rget RD st /\
    rget RE st2 = rget RE st /\
    rget RF st2 = memcpy (rget RF st) (rget RE st) /\
    rget RC st2 = rget RC st /\
    rget RA st2 = memcpy (rget RA st) (rget RC st).
Proof.
  intros Hh1 Hl1 Hh2 Hl2 Hp1 Hp2 Hq1 Hq2 Hwf.
  pose proof (push_guard h1 l1 Hp1 Hp2) as Hpush.
  pose proof (pop_guard h2 l2 Hq1 Hq2) as Hpop.
  rewrite (execute_guarded Push) by assumption.
  destruct (push_regs h1 l1 (latched (set_pc ((pc st + 1) mod 256) st)))
    as (st1 & Hrun1 & HA1 & HC1 & HD1 & HE1 & HF1).
  strip_entry.
  assert (Hwf1 : wf_cpu st1).
  { destruct (effect_safe Push h1 l1 _ Hh1 Hl1
                (wf_latched _ (wf_set_pc ((pc st + 1) mod 256) st Hwf)))
      as [(st' & Hrun' & Hwf')|(_ & Hst & _)]; [|discriminate].
    congruence. }
  exists st1. rewrite Hrun1.
  rewrite (execute_guarded Pop) by assumption.
  destruct (pop_regs h2 l2 (latched (set_pc ((pc st1 + 1) mod 256) st1)))
    as (st2 & Hrun2 & HA2 & HC2 & HD2 & HE2 & HF2).
  strip_entry.
  exists st2. rewrite Hrun2.
  split; [reflexivity|]. split; [reflexivity|].
  rewrite HA2, HC2, HD2, HE2, HF2, HA1, HC1, HD1, HE1, HF1.
  destruct Hwf as (Hregs & _).
  pose proof (Hregs RC) as LC. pose proof (Hregs RD) as LD.
  pose proof (Hregs RE) as LE.
  repeat split; try reflexivity.
  - apply memcpy_back; lia.
  - apply memcpy_back; lia.
  - apply memcpy_through; lia.
Qed.

Lemma push_pop_restores_D_E_witness :
  exists st1 st2,
    execute 1 0x28 reset_cpu = Ok st1 /\ execute 1 0xa8 st1 = Ok st2 /\
    rget RD st2 = rget RD reset_cpu /\
    rget RE st2 = rget RE reset_cpu /\
    rget RF st2 = memcpy (rget RF reset_cpu) (rget RE reset_cpu) /\
    rget RC st2 = rget RC reset_cpu /\
    rget RA st2 = memcpy (rget RA reset_cpu) (rget RC reset_cpu).
Proof.
  apply (push_pop_restores_D_E 1 0x28 1 0xa8 reset_cpu);
    try lia; try reflexivity.
  split; [intros []; reflexivity|]. split; [reflexivity|simpl; lia].
Defined.

(** C4 as stated fails: after push and pop, F holds the old E, not the old
    F. *)
Lemma push_pop_loses_F :
  exists st1 st2,
    execute 1 0x28 stack_sample = Ok st1 /\
    execute 1 0xa8 st1 = Ok st2 /\
    rget RF st2 <> rget RF stack_sample.
Proof.
  eexists. eexists. split; [vm_compute; reflexivity|].
  split; [vm_compute; reflexivity|].
  vm_compute. discriminate.
Qed.

(** * Decimal addition over a slice *)

Lemma do_add_spec (x y cy : Z) :
  is_digit x -> is_digit y -> 0 <= cy <= 1 ->
  do_add x y cy = spec_add x y cy.
Proof.
  unfold is_digit, do_add, spec_add. intros Hx Hy Hc. cbv zeta.
  destruct (9 <? x + y + cy) eqn:Hgt.
  - apply Z.ltb_lt in Hgt.
    replace (10 <=? x + y + cy) with true by (symmetry; apply Z.leb_le; lia).
    rewrite Z.mod_small by lia. reflexivity.
  - apply Z.ltb_ge in Hgt.
    replace (10 <=? x + y + cy) with false by (symmetry; apply Z.leb_gt; lia).
    rewrite Z.mod_small by lia. reflexivity.
Qed.

Lemma spec_add_range (x y cin : Z) :
  is_digit x -> is_digit y -> 0 <= cin <= 1 ->
  is_digit (fst (spec_add x y cin)) /\ 0 <= snd (spec_add x y cin) <= 1 /\
  fst (spec_add x y cin) + 10 * snd (spec_add x y cin) = x + y + cin.
Proof.
  unfold is_digit, spec_add. intros Hx Hy Hc. cbv zeta.
  destruct (10 <=? x + y + cin) eqn:Hge; cbn [fst snd].
  - apply Z.leb_le in Hge. lia.
  - apply Z.leb_gt in Hge. lia.
Qed.

Lemma spec_add_digits_sum (xs : list Z) :
  forall ys cin,
  length ys = length xs -> Forall is_digit xs -> Forall is_digit ys ->
  0 <= cin <= 1 ->
  Forall is_digit (fst (spec_add_digits xs ys cin)) /\
  length (fst (spec_add_digits xs ys cin)) = length xs /\
  0 <= snd (spec_add_digits xs ys cin) <= 1 /\
  decimal (fst (spec_add_digits xs ys cin)) +
    10 ^ Z.of_nat (length xs) * snd (spec_add_digits xs ys cin) =
  decimal xs + decimal ys + cin.
Proof.
  induction xs as [|x xs IH]; intros [|y ys] cin Hlen Hxs Hys Hc;
    try discriminate.
  - cbn [spec_add_digits fst snd length decimal].
    change (Z.of_nat 0) with 0. rewrite Z.pow_0_r.
    split; [constructor|]. repeat split; lia.
  - inversion Hxs as [|? ? Hx Hxs']. inversion Hys as [|? ? Hy Hys']. subst.
    injection Hlen as Hlen.
    destruct (spec_add_range x y cin Hx Hy Hc) as (Hd & Hc1 & Hsum).
    cbn [spec_add_digits]. destruct (spec_add x y cin) as [sd c1].
    cbn [fst snd] in Hd, Hc1, Hsum.
    destruct (IH ys c1 Hlen Hxs' Hys' Hc1) as (Hds & Hl & Hco & Hdec).
    destruct (spec_add_digits xs ys c1) as [rest cout].
    cbn [fst snd length decimal] in *.
    repeat split; try lia; [constructor; assumption|].
    rewrite Nat2Z.inj_succ, Z.pow_succ_r by lia. lia.
Qed.

Lemma decimal_bound (ds : list Z) :
  Forall is_digit ds -> 0 <= decimal ds <= 10 ^ Z.of_nat (length ds) - 1.
Proof.
  induction 1 as [|x tl Hx Htl IH]; cbn [decimal length].
  - cbn. lia.
  - unfold is_digit in Hx. rewrite Nat2Z.inj_succ, Z.pow_succ_r by lia. lia.
Qed.

Lemma digit_of_peek (l l' : list Z) (i : Z) :
  0 <= i -> peek l' i = peek l i -> digit_of l' i = digit_of l i.
Proof.
  unfold peek, digit_of. intros Hi.
  destruct (i <? 0) eqn:Hneg; [apply Z.ltb_lt in Hneg; lia|].
  intros Hnth. rewrite <- !nth_default_eq. unfold nth_default.
  rewrite Hnth. reflexivity.
Qed.

Lemma digit_of_peek_some (l : list Z) (i v : Z) :
  peek l i = Some v -> digit_of l i = v.
Proof. apply peek_nth. Qed.

Lemma slice_frame (l l' : list Z) (n : nat) :
  forall lo, 0 <= lo ->
  (forall i, lo <= i < lo + Z.of_nat n -> peek l' i = peek l i) ->
  slice l' lo n = slice l lo n.
Proof.
  induction n as [|n IH]; intros lo Hlo Hpeek; cbn [slice]; [reflexivity|].
  rewrite (digit_of_peek l l' lo Hlo) by (apply Hpeek; lia).
  rewrite IH; [reflexivity|lia|]. intros i Hi. apply Hpeek. lia.
Qed.

Lemma slice_digits (l : list Z) (n : nat) :
  forall lo,
  (forall i, lo <= i < lo + Z.of_nat n -> is_digit (digit_of l i)) ->
  Forall is_digit (slice l lo n).
Proof.
  induction n as [|n IH]; intros lo Hd; cbn [slice]; constructor.
  - apply Hd. lia.
  - apply IH. intros i Hi. apply Hd. lia.
Qed.

Lemma slice_length (l : list Z) (n : nat) (lo : Z) :
  length (slice l lo n) = n.
Proof. revert lo. induction n as [|n IH]; intros lo; cbn; auto. Qed.

(** One round of an add loop. *)
Lemma alu_step_add (dst x y : reg) (i : Z) (st : cpu) :
  wf_cpu st -> 0 <= i < 16 ->
  is_digit (digit_of (rget x st) i) -> is_digit (digit_of (rget y st) i) ->
  0 <= carry st <= 1 ->
  exists st1,
    alu_step do_add dst (Reg x) (Reg y) i st = Ok st1 /\
    frame i i st st1 /\
    digit_of (rget dst st1) i =
      fst (spec_add (digit_of (rget x st) i) (digit_of (rget y st) i)
             (carry st)) /\
    carry st1 =
      snd (spec_add (digit_of (rget x st) i) (digit_of (rget y st) i)
             (carry st)).
Proof.
  intros Hwf Hi Hx Hy Hc. unfold alu_step. cbn [operand_at].
  destruct (rd_ok x i st Hwf Hi) as (xv & -> & Hxv).
  destruct (rd_ok y i st Hwf Hi) as (yv & -> & Hyv). cbn [bind].
  apply digit_of_peek_some in Hxv, Hyv. rewrite Hxv in *. rewrite Hyv in *.
  rewrite do_add_spec by assumption.
  destruct (spec_add xv yv (carry st)) as [res cy]. cbn [fst snd].
  pose proof (wf_set_carry cy st Hwf) as Hwf1.
  destruct (wr_frame i i dst i res (set_carry cy st) Hwf1
              ltac:(lia) ltac:(lia) ltac:(lia)) as (st1 & Hwr & Hfr & Hcy).
  exists st1. split; [exact Hwr|]. split; [exact Hfr|].
  rewrite wr_ok in Hwr by assumption. injection Hwr as <-.
  split; [|apply carry_rset].
  rewrite rget_rset_eq. apply digit_of_peek_some, peek_poke_eq.
  apply wf_in_range; assumption.
Qed.

Lemma frame_widen (lo hi lo' hi' : Z) (st st' : cpu) :
  lo' <= lo -> hi <= hi' -> frame lo hi st st' -> frame lo' hi' st st'.
Proof.
  intros Hlo Hhi (Hwf & Hc & Hr). split; [exact Hwf|]. split; [exact Hc|].
  intros r i Hi. apply Hr. lia.
Qed.

(** The add loop from digit [lo] over [n] digits. *)
Lemma iter_up_add (dst x y : reg) (n : nat) :
  forall lo st,
  wf_cpu st -> 0 <= lo -> lo + Z.of_nat n <= 16 ->
  (forall i, lo <= i < lo + Z.of_nat n ->
     is_digit (digit_of (rget x st) i) /\ is_digit (digit_of (rget y st) i)) ->
  0 <= carry st <= 1 ->
  exists st',
    iter_up n lo (alu_step do_add dst (Reg x) (Reg y)) st = Ok st' /\
    frame lo (lo + Z.of_nat n - 1) st st' /\
    slice (rget dst st') lo n =
      fst (spec_add_digits (slice (rget x st) lo n) (slice (rget y st) lo n)
             (carry st)) /\
    carry st' =
      snd (spec_add_digits (slice (rget x st) lo n) (slice (rget y st) lo n)
             (carry st)).
Proof.
  induction n as [|n IH]; intros lo st Hwf Hlo Hhi Hdig Hc.
  - cbn. eexists. split; [reflexivity|]. split; [|split; reflexivity].
    apply frame_refl, Hwf.
  - cbn [iter_up]. rewrite Nat2Z.inj_succ in Hhi, Hdig.
    destruct (Hdig lo ltac:(lia)) as [Hx Hy].
    destruct (alu_step_add dst x y lo st Hwf ltac:(lia) Hx Hy Hc)
      as (st1 & -> & Hfr1 & Hd1 & Hc1). cbn [bind].
    destruct (spec_add_range _ _ _ Hx Hy Hc) as (_ & Hc1r & _).
    rewrite <- Hc1 in Hc1r.
    pose proof Hfr1 as (Hwf1 & _ & Hpk1).
    assert (Hsl : forall r, slice (rget r st1) (lo + 1) n =
                            slice (rget r st) (lo + 1) n).
    { intros r. apply slice_frame; [lia|]. intros i Hi. apply Hpk1. lia. }
    destruct (IH (lo + 1) st1 Hwf1 ltac:(lia) ltac:(lia)) as
      (st' & Hrun & Hfr & Hds & Hco); [|exact Hc1r|].
    { intros i Hi.
      rewrite !(digit_of_peek (rget _ st) (rget _ st1) i) by
        (try lia; apply Hpk1; lia).
      apply Hdig. lia. }
    exists st'. split; [exact Hrun|]. split.
    + eapply frame_trans.
      * eapply frame_widen; [| |exact Hfr1]; lia.
      * eapply frame_widen; [| |exact Hfr]; lia.
    + rewrite !Hsl in Hds, Hco. cbn [slice spec_add_digits].
      destruct Hfr as (_ & _ & Hpk).
      rewrite (digit_of_peek (rget dst st1) (rget dst st') lo) by
        (try lia; apply Hpk; lia).
      rewrite Hd1, Hds, Hco, Hc1.
      destruct (spec_add (digit_of (rget x st) lo) (digit_of (rget y st) lo)
                  (carry st)) as [sd c1].
      cbn [fst snd].
      destruct (spec_add_digits (slice (rget x st) (lo + 1) n)
                  (slice (rget y st) (lo + 1) n) c1) as [rest cout].
      split; reflexivity.
Qed.

(** The add loop over the selected slice, carry seeded to 0. *)
Lemma alu_add_slice (dst x y : reg) (st : cpu) :
  wf_cpu st -> slice_ok st -> carry st = 0 ->
  (forall i, first st <= i <= last st ->
     is_digit (digit_of (rget x st) i) /\ is_digit (digit_of (rget y st) i)) ->
  let n := Z.to_nat (last st + 1 - first st) in
  let xs := slice (rget x st) (first st) n in
  let ys := slice (rget y st) (first st) n in
  exists st',
    alu do_add dst (Reg x) (Reg y) st = Ok st' /\
    slice (rget dst st') (first st) n = fst (spec_add_digits xs ys 0) /\
    carry st' = snd (spec_add_digits xs ys 0) /\
    Forall is_digit (slice (rget dst st') (first st) n) /\
    decimal (slice (rget dst st') (first st) n) +
      10 ^ (last st - first st + 1) * carry st' = decimal xs + decimal ys /\
    (carry st' = 1 <->
     decimal xs + decimal ys > 10 ^ (last st - first st + 1) - 1).
Proof.
  intros Hwf (Hlo & Hle & Hhi) Hcy Hdig n xs ys. unfold alu, for_up.
  fold n.
  assert (Hn : Z.of_nat n = last st - first st + 1) by (unfold n; lia).
  destruct (iter_up_add dst x y n (first st) st Hwf Hlo ltac:(lia))
    as (st' & Hrun & _ & Hds & Hco).
  { intros i Hi. apply Hdig. lia. }
  { lia. }
  rewrite Hcy in Hds, Hco. fold xs ys in Hds, Hco.
  assert (Hxs : Forall is_digit xs).
  { apply slice_digits. intros i Hi. apply Hdig. lia. }
  assert (Hys : Forall is_digit ys).
  { apply slice_digits. intros i Hi. apply Hdig. lia. }
  destruct (spec_add_digits_sum xs ys 0) as (Hrs & Hlen & Hcr & Hsum);
    try assumption; try lia.
  { unfold xs, ys. rewrite !slice_length. reflexivity. }
  pose proof (decimal_bound _ Hrs) as Hbound.
  assert (Hlx : length xs = n) by apply slice_length.
  rewrite Hlen, Hlx, Hn in Hbound. rewrite Hlx, Hn in Hsum.
  exists st'. rewrite Hds, Hco. split; [exact Hrun|].
  split; [reflexivity|]. split; [reflexivity|]. split; [exact Hrs|].
  revert Hsum Hbound Hcr.
  generalize (10 ^ (last st - first st + 1)) as pw.
  generalize (decimal (fst (spec_add_digits xs ys 0))) as dr.
  generalize (snd (spec_add_digits xs ys 0)) as cout.
  intros cout dr pw Hsum Hbound Hcr.
  assert (Hbit : cout = 0 \/ cout = 1) by lia.
  destruct Hbit as [-> | ->]; lia.
Qed.

Lemma add_class_cases (op_code : Z) (dst x y : reg) :
  0 <= op_code < 32 -> add_class op_code = Some (dst, x, y) ->
  alu_op op_code = alu do_add dst (Reg x) (Reg y).
Proof.
  intros Hop Hclass.
  assert (Hcases : In op_code (map Z.of_nat (seq 0 32))).
  { replace op_code with (Z.of_nat (Z.to_nat op_code)) by lia.
    apply in_map, in_seq. lia. }
  cbn [seq map In] in Hcases.
  repeat (destruct Hcases as [<-|Hcases]); [.. | destruct Hcases];
    cbn in Hclass; try discriminate; injection Hclass as <- <- <-;
    reflexivity.
Qed.

(** C1.  An add-class microinstruction ([A+C->C], [A+B->A], [C+C->C]) on a
    slice whose operand nibbles are decimal digits: each digit is formed by
    the specification's [add] (sum of the two digits and the incoming carry,
    reduced by 10 with a carry out exactly when it reaches 10), rippled from
    [first] to [last] with carry 0 in; the final [carry] is 1 exactly when
    the decimal sum of the two slice operands exceeds
    [10^(last-first+1) - 1]. *)
Theorem add_carry_out (h l : Z) (st : cpu) (dst x y : reg) :
  0 <= h < 256 -> 0 <= l < 256 -> Z.land l 0x03 = 0x02 ->
  add_class (op_code_of h l) = Some (dst, x, y) ->
  wf_cpu st ->
  let lo := first (select_slice (slice_code l) st) in
  let hi := last (select_slice (slice_code l) st) in
  (forall i, lo <= i <= hi ->
     is_digit (digit_of (rget x st) i) /\ is_digit (digit_of (rget y st) i)) ->
  let n := Z.to_nat (hi + 1 - lo) in
  let xs := slice (rget x st) lo n in
  let ys := slice (rget y st) lo n in
  (forall xd yd cin, is_digit xd -> is_digit yd -> 0 <= cin <= 1 ->
     do_add xd yd cin = spec_add xd yd cin) /\
  exists st',
    execute h l st = Ok st' /\
    slice (rget dst st') lo n = fst (spec_add_digits xs ys 0) /\
    carry st' = snd (spec_add_digits xs ys 0) /\
    Forall is_digit (slice (rget dst st') lo n) /\
    decimal (slice (rget dst st') lo n) + 10 ^ (hi - lo + 1) * carry st' =
      decimal xs + decimal ys /\
    (carry st' = 1 <-> decimal xs + decimal ys > 10 ^ (hi - lo + 1) - 1).
Proof.
  intros Hh Hl Hfam Hclass Hwf lo hi Hdig n xs ys.
  split; [apply do_add_spec|].
  rewrite execute_arith by assumption.
  rewrite (add_class_cases _ dst x y) by (auto using op_code_bound).
  set (st1 := latched (set_pc ((pc st + 1) mod 256) st)).
  assert (Hwf1 : wf_cpu st1) by (apply wf_latched; exact Hwf).
  pose proof (slice_code_bound l Hl) as Hcode.
  destruct (select_slice_regs (slice_code l) st1 Hcode) as [Hregs Hwfeq].
  destruct (select_slice_bounds (slice_code l) st1 st Hcode) as [Hfst Hlst].
  { unfold st1. rewrite p_latched. reflexivity. }
  set (st2 := set_carry 0 (select_slice (slice_code l) st1)).
  assert (Hr2 : forall r, rget r st2 = rget r st).
  { intros r.
    change (rget r st2) with (rget r (select_slice (slice_code l) st1)).
    rewrite Hregs. unfold st1. rewrite rget_latched. destruct r; reflexivity. }
  assert (Hf2 : first st2 = lo) by exact Hfst.
  assert (Hl2 : last st2 = hi) by exact Hlst.
  destruct (alu_add_slice dst x y st2) as (st' & Hrun & Hres).
  - change (wf_cpu (select_slice (slice_code l) st1)). rewrite Hwfeq.
    exact Hwf1.
  - apply (select_slice_ok (slice_code l) st1 Hcode). apply Hwf1.
  - reflexivity.
  - rewrite Hf2, Hl2, !Hr2. exact Hdig.
  - rewrite Hf2, Hl2, !Hr2 in Hres. exists st'. split; assumption.
Qed.

Lemma add_carry_out_witness :
  let st := set_c (poke (c reset_cpu) 3 7) (set_a (poke (a reset_cpu) 3 5)
              reset_cpu) in
  let lo := first (select_slice (slice_code 0xce) st) in
  let hi := last (select_slice (slice_code 0xce) st) in
  let n := Z.to_nat (hi + 1 - lo) in
  let xs := slice (rget RA st) lo n in
  let ys := slice (rget RC st) lo n in
  (forall xd yd cin, is_digit xd -> is_digit yd -> 0 <= cin <= 1 ->
     do_add xd yd cin = spec_add xd yd cin) /\
  exists st',
    execute 1 0xce st = Ok st' /\
    slice (rget RC st') lo n = fst (spec_add_digits xs ys 0) /\
    carry st' = snd (spec_add_digits xs ys 0) /\
    Forall is_digit (slice (rget RC st') lo n) /\
    decimal (slice (rget RC st') lo n) + 10 ^ (hi - lo + 1) * carry st' =
      decimal xs + decimal ys /\
    (carry st' = 1 <-> decimal xs + decimal ys > 10 ^ (hi - lo + 1) - 1).
Proof.
  intros st.
  apply (add_carry_out 1 0xce st RC RA RC); try lia; try reflexivity.
  - split; [intros []; reflexivity|]. split; [reflexivity|cbn; lia].
  - intros i Hi. cbn in Hi.
    assert (Hcases : In i (map Z.of_nat (seq 0 16))).
    { replace i with (Z.of_nat (Z.to_nat i)) by lia.
      apply in_map, in_seq. lia. }
    cbn [seq map In] in Hcases.
    repeat (destruct Hcases as [<-|Hcases]); [.. | destruct Hcases];
      split; vm_compute; split; discriminate.
Defined.

(** * The microcode image *)

Lemma rom_length : length rom = 1536%nat.
Proof. vm_compute. reflexivity. Qed.

Lemma words_nth_error (k : nat) :
  forall image hb lb,
  nth_error image (2 * k) = Some hb ->
  nth_error image (S (2 * k)) = Some lb ->
  nth_error (words image) k = Some (hb * 256 + lb).
Proof.
  induction k as [|k IH]; intros image hb lb Hh Hl.
  - destruct image as [|x [|y rest]]; cbn in Hh, Hl; try discriminate.
    cbn [words nth_error]. congruence.
  - replace (2 * S k)%nat with (S (S (2 * k))) in Hh, Hl by lia.
    destruct image as [|x [|y rest]]; cbn [nth_error] in Hh, Hl;
      try discriminate.
    cbn [words nth_error]. apply IH; assumption.
Qed.

Lemma words_peek (image : list Z) (k hb lb : Z) :
  0 <= k ->
  peek image (2 * k) = Some hb ->
  peek image (2 * k + 1) = Some lb ->
  peek (words image) k = Some (hb * 256 + lb).
Proof.
  unfold peek. intros Hk Hh Hl.
  destruct (2 * k <? 0) eqn:E1; [discriminate|].
  destruct (2 * k + 1 <? 0) eqn:E2; [discriminate|].
  replace (k <? 0) with false by (symmetry; apply Z.ltb_ge; lia).
  apply words_nth_error.
  - rewrite <- Hh. f_equal. lia.
  - rewrite <- Hl. f_equal. lia.
Qed.

Lemma rom_words : length (words rom) = 768%nat /\ Forall is_word10 (words rom).
Proof.
  split; [vm_compute; reflexivity|].
  apply Forall_forall. intros w Hin.
  assert (Hall : forallb (fun w => (0 <=? w) && (w <? 1024)) (words rom)
                 = true) by (vm_compute; reflexivity).
  rewrite forallb_forall in Hall. specialize (Hall w Hin).
  apply andb_prop in Hall. destruct Hall as [Hlo Hhi].
  apply Z.leb_le in Hlo. apply Z.ltb_lt in Hhi. split; assumption.
Qed.

Lemma peek_rom (i : Z) : 0 <= i < 1536 -> exists v, peek rom i = Some v.
Proof.
  intros Hi. apply peek_in_range, in_range_bounds. rewrite rom_length. lia.
Qed.

Lemma peek_rom_none (i : Z) : 1536 <= i -> peek rom i = None.
Proof.
  intros Hi. unfold peek.
  destruct (i <? 0); [reflexivity|].
  apply nth_error_None. rewrite rom_length. lia.
Qed.

(** C8, as the code has it.  The image is 1536 bytes: 768 ten-bit
    microinstructions as (H, L) pairs, high byte first.  The fetch of address
    [pc] in bank [offset] reads the bytes at [offset * 512 + pc * 2] and the
    next index, that is word [offset * 256 + pc]; it stays inside the image
    exactly for the banks 0..2. *)
Theorem rom_image_layout (st : cpu) :
  0 <= pc st < 256 -> 0 <= offset st ->
  length rom = 1536%nat /\
  length (words rom) = 768%nat /\
  Forall is_word10 (words rom) /\
  fetch st =
    match peek rom (offset st * 512 + pc st * 2),
          peek rom (offset st * 512 + pc st * 2 + 1) with
    | Some hb, Some lb => Ok (hb, lb)
    | _, _ => Fault RomRange
    end /\
  (offset st <= 2 <->
   exists hb lb, fetch st = Ok (hb, lb) /\
     peek (words rom) (offset st * 256 + pc st) = Some (hb * 256 + lb)).
Proof.
  intros Hpc Hoff. split; [exact rom_length|].
  split; [apply rom_words|]. split; [apply rom_words|].
  assert (Hidx : offset st * 256 * 2 + pc st * 2 = offset st * 512 + pc st * 2)
    by lia.
  split.
  - unfold fetch. rewrite Hidx. reflexivity.
  - unfold fetch. rewrite Hidx. split.
    + intros Hbank.
      destruct (peek_rom (offset st * 512 + pc st * 2) ltac:(lia)) as [hb Hh].
      destruct (peek_rom (offset st * 512 + pc st * 2 + 1) ltac:(lia))
        as [lb Hl].
      rewrite Hh, Hl. exists hb, lb. split; [reflexivity|].
      apply words_peek; [lia| |].
      * rewrite <- Hh. f_equal. lia.
      * rewrite <- Hl. f_equal. lia.
    + intros (hb & lb & Hrun & _).
      destruct (Z_le_gt_dec (offset st) 2) as [Hle|Hgt]; [exact Hle|].
      rewrite peek_rom_none in Hrun by lia. discriminate.
Qed.

Lemma rom_image_layout_witness :
  length rom = 1536%nat /\
  length (words rom) = 768%nat /\
  Forall is_word10 (words rom) /\
  fetch reset_cpu =
    match peek rom (offset reset_cpu * 512 + pc reset_cpu * 2),
          peek rom (offset reset_cpu * 512 + pc reset_cpu * 2 + 1) with
    | Some hb, Some lb => Ok (hb, lb)
    | _, _ => Fault RomRange
    end /\
  (offset reset_cpu <= 2 <->
   exists hb lb, fetch reset_cpu = Ok (hb, lb) /\
     peek (words rom) (offset reset_cpu * 256 + pc reset_cpu)
     = Some (hb * 256 + lb)).
Proof. apply (rom_image_layout reset_cpu); cbn; lia. Defined.

(** C8 as stated fails: the image does not have 768 bytes. *)
Lemma rom_image_not_768_bytes : length rom <> 768%nat.
Proof. rewrite rom_length. discriminate. Qed.

(** * Display projection *)

Lemma peek_some_in_range {X : Type} (l : list X) (i : Z) (v : X) :
  peek l i = Some v -> in_range l i = true.
Proof.
  unfold peek, in_range. destruct (i <? 0) eqn:Hneg; [discriminate|].
  intros Hnth. apply Z.ltb_ge in Hneg.
  assert (Hlt : (Z.to_nat i < length l)%nat)
    by (apply nth_error_Some; congruence).
  apply andb_true_intro. split; [apply Z.leb_le|apply Z.ltb_lt]; lia.
Qed.

Lemma show_digit_later (av bv : list Z) (i : Z) (buf : list (option Z))
    (pos : Z) :
  1 <= pos ->
  peek (fst (show_digit av bv i (buf, pos))) 0 = peek buf 0 /\
  snd (show_digit av bv i (buf, pos)) = pos + 1.
Proof.
  intros Hpos. unfold show_digit.
  destruct (8 <=? digit_of bv i); destruct (i =? 13);
    destruct (8 <=? digit_of av i); destruct (digit_of bv i =? 2);
    cbn [fst snd]; split; try reflexivity;
    rewrite ?peek_poke_ne by lia; reflexivity.
Qed.

Lemma show_digits_later (av bv : list Z) (idx : list Z) :
  forall buf pos, 1 <= pos ->
  peek (fst (fold_left (fun acc i => show_digit av bv i acc) idx (buf, pos)))
       0 = peek buf 0.
Proof.
  induction idx as [|i idx IH]; intros buf pos Hpos; [reflexivity|].
  cbn [fold_left].
  destruct (show_digit_later av bv i buf pos Hpos) as [Hcell Hnext].
  destruct (show_digit av bv i (buf, pos)) as [buf1 pos1].
  cbn [fst snd] in Hcell, Hnext. rewrite IH by lia. exact Hcell.
Qed.

Lemma show_digit_sign (av bv : list Z) (buf : list (option Z)) :
  length buf = 8%nat ->
  peek (fst (show_digit av bv 13 (buf, 0))) 0 =
    Some (Some (sign_cell (digit_of av 13) (digit_of bv 13))) /\
  snd (show_digit av bv 13 (buf, 0)) = 1.
Proof.
  intros Hlen. destruct buf as [|cell rest]; [discriminate|].
  unfold show_digit, sign_cell.
  destruct (8 <=? digit_of bv 13) eqn:Hb8;
    destruct (digit_of bv 13 =? 2) eqn:Hb2;
    destruct (8 <=? digit_of av 13); cbn; split; try reflexivity.
  apply Z.leb_le in Hb8. apply Z.eqb_eq in Hb2. lia.
  apply Z.leb_le in Hb8. apply Z.eqb_eq in Hb2. lia.
Qed.

Lemma show_stack_sign (av bv : list Z) (buf : list (option Z)) :
  length buf = 8%nat ->
  peek (show_stack av bv buf) 0 =
    Some (Some (sign_cell (digit_of av 13) (digit_of bv 13))).
Proof.
  intros Hlen. unfold show_stack. cbn [fold_left].
  destruct (show_digit_sign av bv buf Hlen) as [Hcell Hnext].
  destruct (show_digit av bv 13 (buf, 0)) as [buf1 pos1].
  cbn [fst snd] in Hcell, Hnext. subst pos1.
  pose proof (show_digits_later av bv [6] buf1 1) as Hrest.
  revert Hrest.
  generalize (show_digits_later av bv [12; 11; 10; 9; 8; 7; 6] buf1 1
                ltac:(lia)).
  cbn [fold_left].
  destruct (show_digit av bv 6 _) as [buf8 pos8]. cbn [fst].
  intros Hkeep _.
  destruct (Z.lor _ _ <? 8); [|congruence].
  rewrite !peek_poke_ne by lia. congruence.
Qed.

(** C9, as the code has it.  In the stack projection (no banner, no
    screensaver) the cell of digit 13 is blank when [B[13] >= 8]; otherwise it
    is a minus sign if [A[13] >= 8] and blank if not, with the decimal point
    added when [B[13] == 2].  [printbuf] then puts the F-key indicator into
    this cell when [fg] is 1 or 2. *)
Theorem sign_cell_projection (mc : machine) :
  length (dbuf (shell_of mc)) = 8%nat ->
  msgnr (shell_of mc) = 0 -> darkscreen (shell_of mc) = false ->
  let a13 := digit_of (a (cpu_of mc)) 13 in
  let b13 := digit_of (b (cpu_of mc)) 13 in
  peek (show_stack (a (cpu_of mc)) (b (cpu_of mc)) (dbuf (shell_of mc))) 0 =
    Some (Some (if 8 <=? b13 then 0
                else Z.lor (if 8 <=? a13 then _7MINUS else 0)
                           (if b13 =? 2 then _7DOT else 0))) /\
  peek (dbuf (shell_of (printscreen mc))) 0 =
    Some (Some (if fg (shell_of mc) =? 1 then _7HIGHLINE
                else if fg (shell_of mc) =? 2 then _7LOWLINE
                else sign_cell a13 b13)).
Proof.
  intros Hlen Hmsg Hdark a13 b13.
  pose proof (show_stack_sign (a (cpu_of mc)) (b (cpu_of mc))
                (dbuf (shell_of mc)) Hlen) as Hsign.
  split; [exact Hsign|].
  unfold printscreen, printbuf. rewrite Hmsg, Hdark. cbn [negb Z.eqb].
  cbn [fg set_dbuf dbuf].
  destruct (fg (shell_of mc) =? 1) eqn:Hf1; cbn [orb shell_of dbuf set_dbuf].
  - apply peek_poke_eq. eapply peek_some_in_range. exact Hsign.
  - destruct (fg (shell_of mc) =? 2) eqn:Hf2; cbn [shell_of dbuf set_dbuf].
    + apply peek_poke_eq. eapply peek_some_in_range. exact Hsign.
    + exact Hsign.
Qed.

Lemma sign_cell_projection_witness :
  let a13 := digit_of (a (cpu_of blanked_sign)) 13 in
  let b13 := digit_of (b (cpu_of blanked_sign)) 13 in
  peek (show_stack (a (cpu_of blanked_sign)) (b (cpu_of blanked_sign))
          (dbuf (shell_of blanked_sign))) 0 =
    Some (Some (if 8 <=? b13 then 0
                else Z.lor (if 8 <=? a13 then _7MINUS else 0)
                           (if b13 =? 2 then _7DOT else 0))) /\
  peek (dbuf (shell_of (printscreen blanked_sign))) 0 =
    Some (Some (if fg (shell_of blanked_sign) =? 1 then _7HIGHLINE
                else if fg (shell_of blanked_sign) =? 2 then _7LOWLINE
                else sign_cell a13 b13)).
Proof. apply (sign_cell_projection blanked_sign); reflexivity. Defined.

(** C9 as stated fails: with [A[13] = 9] and [B[13] = 9] the projection
    leaves the cell of digit 13 blank. *)
Lemma minus_blanked_by_B :
  8 <= digit_of (a (cpu_of blanked_sign)) 13 /\
  msgnr (shell_of blanked_sign) = 0 /\
  darkscreen (shell_of blanked_sign) = false /\
  peek (dbuf (shell_of (printscreen blanked_sign))) 0 = Some (Some 0) /\
  peek (dbuf (shell_of (printscreen blanked_sign))) 0
    <> Some (Some _7MINUS).
Proof.
  split; [vm_compute; discriminate|]. split; [reflexivity|].
  split; [reflexivity|]. split; [vm_compute; reflexivity|].
  vm_compute. discriminate.
Qed.

(** * The error trap *)

Lemma refresh_cpu (st : cpu) (sh1 sh2 : shell) :
  cpu_of (refresh (mkMachine st sh1)) = cpu_of (refresh (mkMachine st sh2)).
Proof.
  unfold refresh. cbn [cpu_of shell_of].
  destruct (display_enable st); [reflexivity|].
  destruct (display_update st); reflexivity.
Qed.

Lemma printbuf_rest (sh : shell) :
  shell_rest (printbuf sh) = shell_rest sh /\ msgnr (printbuf sh) = msgnr sh.
Proof.
  unfold printbuf. destruct ((fg sh =? 1) || (fg sh =? 2)); split; reflexivity.
Qed.

Lemma printscreen_rest (mc : machine) :
  shell_rest (shell_of (printscreen mc)) = shell_rest (shell_of mc) /\
  msgnr (shell_of (printscreen mc)) = msgnr (shell_of mc).
Proof.
  unfold printscreen. cbn [shell_of].
  destruct (printbuf_rest
              (if negb (msgnr (shell_of mc) =? 0)
               then set_dbuf (message (msgnr (shell_of mc))) (shell_of mc)
               else if darkscreen (shell_of mc)
                    then set_dbuf (repeat (Some 0) 8) (shell_of mc)
                    else set_dbuf (show_stack (a (cpu_of mc)) (b (cpu_of mc))
                                     (dbuf (shell_of mc))) (shell_of mc)))
    as [-> ->].
  destruct (negb (msgnr (shell_of mc) =? 0)); [split; reflexivity|].
  destruct (darkscreen (shell_of mc)); split; reflexivity.
Qed.

Lemma shell_rest_unlock (sh sh' : shell) :
  shell_rest sh = shell_rest sh' ->
  shell_rest (set_count 0 (set_islock false sh)) =
  shell_rest (set_count 0 (set_islock false sh')).
Proof.
  unfold shell_rest. cbn [set_count set_islock fg darkscreen isrun islock
                          count memp key oldkey brightness].
  intros Hrest. injection Hrest as -> -> -> _ _ -> -> -> ->. reflexivity.
Qed.

Lemma refresh_shell (st : cpu) (sh1 sh2 : shell) :
  shell_rest sh1 = shell_rest sh2 ->
  shell_rest (shell_of (refresh (mkMachine st sh1))) =
  shell_rest (shell_of (refresh (mkMachine st sh2))).
Proof.
  intros Hrest. unfold refresh. cbn [cpu_of shell_of].
  destruct (display_enable st); [exact Hrest|].
  destruct (display_update st); [|exact Hrest].
  destruct (printscreen_rest (mkMachine st sh1)) as [H1 _].
  destruct (printscreen_rest (mkMachine st sh2)) as [H2 _].
  cbn [shell_of] in H1, H2. rewrite Hrest, <- H2 in H1.
  apply shell_rest_unlock. exact H1.
Qed.

Lemma refresh_msgnr (st : cpu) (sh : shell) :
  msgnr (shell_of (refresh (mkMachine st sh))) = msgnr sh.
Proof.
  unfold refresh. cbn [cpu_of shell_of].
  destruct (display_enable st); [reflexivity|].
  destruct (display_update st); [|reflexivity].
  destruct (printscreen_rest (mkMachine st sh)) as [_ Hmsg]. exact Hmsg.
Qed.

Lemma fetch_trap (st : cpu) :
  pc st = 191 -> offset st = 0 -> fetch st = Ok (1, 113).
Proof. unfold fetch. intros -> ->. reflexivity. Qed.

Lemma call_never_faults (h l : Z) (st : cpu) :
  0 <= h < 256 -> 0 <= l < 256 -> wf_cpu st -> guard Call h l = true ->
  exists st', execute h l st = Ok st'.
Proof.
  intros Hh Hl Hwf Hg. rewrite (execute_guarded Call) by assumption.
  eexists. reflexivity.
Qed.

(** C7.  With [pc = 191] in bank 0 at the start of a microcycle the error
    banner is requested ([msgnr = MSGERROR]) and the microcycle is carried
    out all the same: the processor ends in the state of the microcycle
    without the check, and the shell differs at most in the message number
    and the display buffer. *)
Theorem error_trap_only_signals (mc : machine) :
  pc (cpu_of mc) = 191 -> offset (cpu_of mc) = 0 -> wf_cpu (cpu_of mc) ->
  exists mc' mc0,
    process_rom mc = Ok mc' /\
    microcycle mc = Ok mc0 /\
    msgnr (shell_of mc') = MSGERROR /\
    cpu_of mc' = cpu_of mc0 /\
    shell_rest (shell_of mc') = shell_rest (shell_of mc0).
Proof.
  intros Hpc Hoff Hwf. unfold process_rom, check_error.
  rewrite Hpc, Hoff. cbn [Z.eqb Pos.eqb andb].
  unfold microcycle. cbn [cpu_of shell_of].
  set (st := set_carry 0 (set_prevCarry (carry (cpu_of mc)) (cpu_of mc))).
  rewrite (fetch_trap st Hpc Hoff). cbn [bind fst snd].
  destruct (call_never_faults 1 113 st) as [st1 ->];
    [lia|lia|exact Hwf|reflexivity|].
  cbn [bind]. eexists. eexists.
  split; [reflexivity|]. split; [reflexivity|].
  split; [apply refresh_msgnr|]. split; [apply refresh_cpu|].
  apply refresh_shell. reflexivity.
Qed.

Lemma error_trap_only_signals_witness :
  exists mc' mc0,
    process_rom (mkMachine (set_pc 191 reset_cpu) reset_shell) = Ok mc' /\
    microcycle (mkMachine (set_pc 191 reset_cpu) reset_shell) = Ok mc0 /\
    msgnr (shell_of mc') = MSGERROR /\
    cpu_of mc' = cpu_of mc0 /\
    shell_rest (shell_of mc') = shell_rest (shell_of mc0).
Proof.
  apply (error_trap_only_signals (mkMachine (set_pc 191 reset_cpu) reset_shell));
    try reflexivity.
  split; [intros []; reflexivity|]. split; [reflexivity|cbn; lia].
Defined.

(** * Script sequencer *)











(** * Status bit 0 and the pending key *)

Lemma pairs_nth_error (k : nat) :
  forall image hb lb,
  nth_error image (2 * k) = Some hb ->
  nth_error image (S (2 * k)) = Some lb ->
  nth_error (pairs image) k = Some (hb, lb).
Proof.
  induction k as [|k IH]; intros image hb lb Hh Hl.
  - destruct image as [|x [|y rest]]; cbn in Hh, Hl; try discriminate.
    cbn [pairs nth_error]. congruence.
  - replace (2 * S k)%nat with (S (S (2 * k))) in Hh, Hl by lia.
    destruct image as [|x [|y rest]]; cbn [nth_error] in Hh, Hl;
      try discriminate.
    cbn [pairs nth_error]. apply IH; assumption.
Qed.

Lemma rom_pairs_plain : forallb plain_pair (pairs rom) = true.
Proof. vm_compute. reflexivity. Qed.

Lemma fetch_plain (st : cpu) (h l : Z) :
  fetch st = Ok (h, l) ->
  0 <= h < 256 /\ 0 <= l < 256 /\ sets_s0 h l = false.
Proof.
  unfold fetch, peek. intros Hrun.
  destruct (offset st * 256 * 2 + pc st * 2 <? 0) eqn:E1; [discriminate|].
  destruct (offset st * 256 * 2 + pc st * 2 + 1 <? 0) eqn:E2;
    [destruct (nth_error rom _); discriminate|].
  apply Z.ltb_ge in E1.
  destruct (nth_error rom (Z.to_nat (offset st * 256 * 2 + pc st * 2)))
    as [hb|] eqn:Hh; [|discriminate].
  destruct (nth_error rom (Z.to_nat (offset st * 256 * 2 + pc st * 2 + 1)))
    as [lb|] eqn:Hl; [|discriminate].
  injection Hrun as -> ->.
  assert (Hin : In (h, l) (pairs rom)).
  { apply (nth_error_In _ (Z.to_nat (offset st * 256 + pc st))).
    apply pairs_nth_error.
    - rewrite <- Hh. f_equal. lia.
    - rewrite <- Hl. f_equal. lia. }
  pose proof rom_pairs_plain as Hall. rewrite forallb_forall in Hall.
  specialize (Hall _ Hin). unfold plain_pair in Hall. cbn [fst snd] in Hall.
  repeat (apply andb_prop in Hall; destruct Hall as [Hall ?]).
  repeat match goal with
         | H : (_ <=? _) = true |- _ => apply Z.leb_le in H
         | H : (_ <? _) = true |- _ => apply Z.ltb_lt in H
         end.
  apply Z.leb_le in Hall.
  split; [lia|]. split; [lia|]. apply negb_true_iff. assumption.
Qed.

Lemma digit_of_poke_ne (l : list Z) (i j v : Z) :
  0 <= j -> i <> j -> digit_of (poke l i v) j = digit_of l j.
Proof.
  intros Hj Hne. apply digit_of_peek; [exact Hj|]. apply peek_poke_ne, Hne.
Qed.

Lemma digit_of_poke_eq (l : list Z) (i v : Z) :
  in_range l i = true -> digit_of (poke l i v) i = v.
Proof. intros Hin. apply digit_of_peek_some, peek_poke_eq, Hin. Qed.

Lemma wr_status_s0 (i v : Z) (st st' : cpu) :
  wr_status i v st = Ok st' ->
  s0 st' = (if i =? 0 then v else s0 st).
Proof.
  unfold wr_status, s0. destruct (in_range (s st) i) eqn:Hin; [|discriminate].
  intros Hrun. injection Hrun as <-. cbn [s set_s].
  destruct (i =? 0) eqn:Hi.
  - apply Z.eqb_eq in Hi. subst i. apply digit_of_poke_eq, Hin.
  - apply Z.eqb_neq in Hi. apply digit_of_poke_ne; [lia|exact Hi].
Qed.

Lemma wr_status_keeps (r : reg) (i v : Z) (st st' : cpu) :
  wr r i v st = Ok st' -> s st' = s st.
Proof.
  unfold wr. destruct (in_range (rget r st) i); [|discriminate].
  intros Hrun. injection Hrun as <-. destruct r; reflexivity.
Qed.

Lemma select_slice_s0 (code : Z) (st : cpu) :
  0 <= code < 8 ->
  digit_of (s (select_slice code st)) 0 = 1 -> digit_of (s st) 0 = 1.
Proof.
  intros Hcode.
  assert (Hcases : In code (map Z.of_nat (seq 0 8))).
  { replace code with (Z.of_nat (Z.to_nat code)) by lia.
    apply in_map, in_seq. lia. }
  cbn [seq map In] in Hcases.
  repeat (destruct Hcases as [<-|Hcases]); [.. | destruct Hcases];
    intros Hone; exact Hone.
Qed.

(** No family but the key latch raises status bit 0 on a pair that is not
    [sets_s0], and the key jump lowers it. *)
Lemma effect_s0 (k : family) (h l : Z) (st st' : cpu) :
  0 <= h < 256 -> 0 <= l < 256 -> wf_cpu st ->
  guard k h l = true -> sets_s0 h l = false ->
  effect k h l st = Ok st' -> s0 st' = 1 ->
  k <> KeyJump /\ s0 st = 1.
Proof.
  intros Hh Hl Hwf Hg Hset Hrun Hone.
  destruct k; cbn [effect] in Hrun;
    try (injection Hrun as <-; split; [discriminate|exact Hone]).
  - (* KeyJump *)
    apply wr_status_s0 in Hrun. cbn [Z.eqb] in Hrun. lia.
  - (* TestStatus *)
    destruct (rd_status _ _) as [v|]; [|discriminate].
    injection Hrun as <-. split; [discriminate|exact Hone].
  - (* SetStatus *)
    apply wr_status_s0 in Hrun. unfold sets_s0 in Hset. rewrite Hg in Hset.
    cbn [andb] in Hset. rewrite Hset in Hrun.
    split; [discriminate|congruence].
  - (* ClearStatus *)
    apply wr_status_s0 in Hrun.
    destruct (bitsel h l =? 0); [lia|]. split; [discriminate|congruence].
  - (* ClearAllStatus *)
    injection Hrun as <-. cbv in Hone. discriminate.
  - (* LoadConst *)
    destruct (wr RC _ _ _) as [st1|] eqn:Hwr; [|discriminate].
    cbn [bind] in Hrun. injection Hrun as <-.
    apply wr_status_keeps in Hwr. split; [discriminate|].
    unfold s0 in *. cbn [s set_p] in Hone. rewrite Hwr in Hone. exact Hone.
  - (* Branch *)
    injection Hrun as <-. split; [discriminate|].
    destruct (negb (prevCarry st =? 1)); exact Hone.
  - (* Arith *)
    split; [discriminate|].
    pose proof (slice_code_bound l Hl) as Hcode.
    destruct (select_slice_regs (slice_code l) st Hcode) as [_ Hwfeq].
    destruct (alu_op_frame (op_code_of h l)
                (set_carry 0 (select_slice (slice_code l) st)))
      as (st2 & Hrun2 & _ & Hctl & _).
    + change (wf_cpu (select_slice (slice_code l) st)). rewrite Hwfeq.
      exact Hwf.
    + apply (select_slice_ok (slice_code l) st Hcode). apply Hwf.
    + apply op_code_bound; assumption.
    + rewrite Hrun in Hrun2. injection Hrun2 as <-.
      unfold control in Hctl. injection Hctl as Hs _.
      unfold s0 in *. rewrite Hs in Hone.
      cbn [s set_carry] in Hone. revert Hone. apply select_slice_s0. exact Hcode.
Qed.

Lemma s0_latched (st : cpu) :
  s0 (latched st) = 1 -> (key_code st <? _END) = true \/ s0 st = 1.
Proof. unfold latched. destruct (key_code st <? _END); auto. Qed.

Lemma execute_cases (h l : Z) (st : cpu) :
  0 <= h < 256 -> 0 <= l < 256 -> wf_cpu st ->
  execute h l st =
  match matching h l with
  | [] => Ok (latched (set_pc ((pc st + 1) mod 256) st))
  | k :: _ => effect k h l (latched (set_pc ((pc st + 1) mod 256) st))
  end.
Proof.
  intros Hh Hl Hwf. unfold execute. rewrite latch_key_ok by exact Hwf.
  cbn [bind]. apply cascade_dispatch; assumption.
Qed.

Lemma execute_s0 (h l : Z) (st st' : cpu) :
  0 <= h < 256 -> 0 <= l < 256 -> wf_cpu st -> sets_s0 h l = false ->
  execute h l st = Ok st' -> s0 st' = 1 ->
  (l =? 0xD0) = false /\ ((key_code st <? _END) = true \/ s0 st = 1).
Proof.
  intros Hh Hl Hwf Hset Hrun Hone.
  rewrite execute_cases in Hrun by assumption.
  pose proof (wf_latched _ (wf_set_pc ((pc st + 1) mod 256) st Hwf)) as Hwf1.
  pose proof (s0_latched (set_pc ((pc st + 1) mod 256) st)) as Hlatch.
  change (key_code (set_pc ((pc st + 1) mod 256) st)) with (key_code st)
    in Hlatch.
  change (s0 (set_pc ((pc st + 1) mod 256) st)) with (s0 st) in Hlatch.
  revert Hrun Hwf1 Hlatch.
  generalize (latched (set_pc ((pc st + 1) mod 256) st)) as st1.
  intros st1 Hrun Hwf1 Hlatch.
  destruct (matching h l) as [|k rest] eqn:Hm.
  - injection Hrun as <-. split; [|apply Hlatch, Hone].
    destruct (l =? 0xD0) eqn:Hkey; [|reflexivity].
    pose proof (guarded_matching KeyJump h l Hkey) as Hin.
    rewrite Hm in Hin. destruct Hin.
  - assert (Hg : guard k h l = true).
    { apply matching_guarded. rewrite Hm. left. reflexivity. }
    destruct (effect_s0 k h l st1 st' Hh Hl Hwf1 Hg Hset Hrun Hone)
      as [Hnk Hone1].
    split; [|apply Hlatch, Hone1].
    destruct (l =? 0xD0) eqn:Hkey; [|reflexivity].
    pose proof (matching_guard KeyJump h l Hh Hl Hkey) as Hm'.
    congruence.
Qed.

Lemma cpu_of_check_error (mc : machine) : cpu_of (check_error mc) = cpu_of mc.
Proof. unfold check_error. destruct (_ && _); reflexivity. Qed.

Lemma refresh_keeps (st : cpu) (sh : shell) :
  s (cpu_of (refresh (mkMachine st sh))) = s st /\
  (wf_cpu st -> wf_cpu (cpu_of (refresh (mkMachine st sh)))).
Proof.
  unfold refresh. cbn [cpu_of shell_of].
  destruct (display_enable st); [split; [reflexivity|exact (fun H => H)]|].
  destruct (display_update st); split; try reflexivity; exact (fun H => H).
Qed.

(** One microcycle: well-formedness is kept, and status bit 0 is up afterwards
    only if the monitor is. *)
Lemma process_rom_s0 (mc mc' : machine) (pend : bool) :
  wf_cpu (cpu_of mc) -> process_rom mc = Ok mc' ->
  wf_cpu (cpu_of mc') /\
  ((s0 (cpu_of mc) = 1 -> pend = true) ->
   s0 (cpu_of mc') = 1 -> pending_next pend mc = true).
Proof.
  intros Hwf Hrun. unfold process_rom, microcycle in Hrun.
  rewrite cpu_of_check_error in Hrun.
  set (st := set_carry 0 (set_prevCarry (carry (cpu_of mc)) (cpu_of mc)))
    in Hrun.
  assert (Hfetch : fetch st = fetch (cpu_of mc)) by reflexivity.
  destruct (fetch st) as [[h l]|ft] eqn:Hf; [|discriminate].
  cbn [bind fst snd] in Hrun.
  destruct (fetch_plain st h l Hf) as (Hh & Hl & Hset).
  destruct (execute h l st) as [st1|ft] eqn:Hexec; [|discriminate].
  cbn [bind] in Hrun. injection Hrun as <-.
  destruct (refresh_keeps st1 (shell_of (check_error mc))) as [Hs Hwfk].
  assert (Hwf1 : wf_cpu st1).
  { destruct (execute_safe h l st Hh Hl Hwf) as [(st2 & Hrun2 & Hwf2)|[Hft _]];
      congruence. }
  split; [apply Hwfk, Hwf1|].
  intros Hinv Hone. unfold s0 in Hone. rewrite Hs in Hone.
  destruct (execute_s0 h l st st1 Hh Hl Hwf Hset Hexec Hone) as [Hkey Hsrc].
  unfold pending_next. rewrite <- Hfetch. rewrite Hkey.
  change (key_code st) with (key_code (cpu_of mc)) in Hsrc.
  change (s0 st) with (s0 (cpu_of mc)) in Hsrc.
  destruct Hsrc as [-> | Hup]; [reflexivity|].
  destruct (key_code (cpu_of mc) <? _END); [reflexivity|]. apply Hinv, Hup.
Qed.

Lemma dispatch_key_cpu (mc mc1 : machine) :
  dispatch_key mc = Ok mc1 ->
  s (cpu_of mc1) = s (cpu_of mc) /\
  (wf_cpu (cpu_of mc) -> wf_cpu (cpu_of mc1)).
Proof.
  unfold dispatch_key. intros Hrun.
  destruct (negb (key (shell_of mc) =? 0) && (key (shell_of mc) <? _END)).
  2:{ injection Hrun as <-. split; [reflexivity|exact (fun H => H)]. }
  cbn [key set_isrun set_darkscreen set_msgnr fg] in Hrun.
  destruct (key (shell_of mc) =? _KF).
  { injection Hrun as <-. split; [reflexivity|exact (fun H => H)]. }
  destruct (peek k2c _) as [kc|]; [|discriminate].
  destruct (kc =? _HYP);
    [injection Hrun as <-; split; [reflexivity|exact (fun H => H)]|].
  destruct (kc =? _LIT);
    [injection Hrun as <-; split; [reflexivity|exact (fun H => H)]|].
  destruct (_LIT <? kc);
    [|injection Hrun as <-; split; [reflexivity|exact (fun H => H)]].
  destruct (peek c2m _); [|discriminate].
  injection Hrun as <-. split; [reflexivity|exact (fun H => H)].
Qed.

Lemma sequencer_cpu (mc mc' : machine) :
  sequencer mc = Ok mc' ->
  s (cpu_of mc') = s (cpu_of mc) /\
  (wf_cpu (cpu_of mc) -> wf_cpu (cpu_of mc')).
Proof.
  unfold sequencer. intros Hrun.
  destruct (isrun (shell_of mc) && negb (islock (shell_of mc))).
  2:{ injection Hrun as <-. split; [reflexivity|exact (fun H => H)]. }
  destruct (5 <? count (shell_of mc)).
  2:{ injection Hrun as <-. split; [reflexivity|exact (fun H => H)]. }
  destruct (peek mem _) as [cmd|]; [|discriminate].
  destruct (cmd =? _END); injection Hrun as <-;
    (split; [reflexivity|exact (fun H => H)]).
Qed.

(** One pass of [loop] under the monitor. *)
Lemma loop_s0 (hw : Z) (mc mc1 mc' : machine) (pend : bool) :
  wf_cpu (cpu_of mc) -> (s0 (cpu_of mc) = 1 -> pend = true) ->
  dispatch_key mc = Ok mc1 -> loop hw mc = Ok mc' ->
  wf_cpu (cpu_of mc') /\
  (s0 (cpu_of mc') = 1 -> pending_next pend mc1 = true).
Proof.
  intros Hwf Hinv Hdisp Hrun. unfold loop in Hrun. rewrite Hdisp in Hrun.
  cbn [bind] in Hrun.
  destruct (process_rom mc1) as [mc2|ft] eqn:Hrom; [|discriminate].
  cbn [bind] in Hrun.
  destruct (sequencer mc2) as [mc3|ft] eqn:Hseq; [|discriminate].
  cbn [bind] in Hrun. injection Hrun as <-.
  destruct (dispatch_key_cpu mc mc1 Hdisp) as [Hs1 Hwf1].
  destruct (process_rom_s0 mc1 mc2 pend (Hwf1 Hwf) Hrom) as [Hwf2 Hstep].
  destruct (sequencer_cpu mc2 mc3 Hseq) as [Hs3 Hwf3].
  unfold scan_key. cbn [cpu_of]. split; [apply Hwf3, Hwf2|].
  unfold s0 in *. rewrite Hs3. apply Hstep. rewrite Hs1. exact Hinv.
Qed.

Lemma run_monitor_s0 (hws : list Z) :
  forall (mc mc' : machine) (pend pend' : bool),
  wf_cpu (cpu_of mc) -> (s0 (cpu_of mc) = 1 -> pend = true) ->
  run_monitor hws mc pend = Ok (mc', pend') ->
  wf_cpu (cpu_of mc') /\ (s0 (cpu_of mc') = 1 -> pend' = true).
Proof.
  induction hws as [|hw rest IH]; intros mc mc' pend pend' Hwf Hinv Hrun.
  - cbn in Hrun. injection Hrun as <- <-. auto.
  - cbn [run_monitor] in Hrun.
    destruct (dispatch_key mc) as [mc1|ft] eqn:Hdisp; [|discriminate].
    cbn [bind] in Hrun.
    destruct (loop hw mc) as [mc2|ft] eqn:Hloop; [|discriminate].
    cbn [bind] in Hrun.
    destruct (loop_s0 hw mc mc1 mc2 pend Hwf Hinv Hdisp Hloop) as [Hwf2 Hinv2].
    apply (IH mc2 mc' (pending_next pend mc1) pend'); assumption.
Qed.

(** C6, as the code has it.  Along every run of [loop] on the microcode
    image, started with status bit 0 down, S[0] = 1 only if a key code has
    been latched and no microcycle with low byte [0xD0] has come since (no
    word of the image sets S[0]).  The converse fails: the clear and
    clear-all status microinstructions lower S[0] while the key is pending. *)
Theorem S0_implies_key_pending (hws : list Z) (mc mc' : machine)
    (pend pend' : bool) :
  wf_cpu (cpu_of mc) -> (s0 (cpu_of mc) = 1 -> pend = true) ->
  run_monitor hws mc pend = Ok (mc', pend') ->
  s0 (cpu_of mc') = 1 -> pend' = true.
Proof.
  intros Hwf Hinv Hrun.
  apply (run_monitor_s0 hws mc mc' pend pend' Hwf Hinv Hrun).
Qed.

(** C6 as stated fails: the key 1 goes down after power-on and is latched in
    the second pass; three passes later the microcode has cleared the status
    bits (address 93 of bank 0) and no microcycle with low byte [0xD0] has
    run. *)
Lemma status_cleared_while_pending :
  exists mc,
    run_monitor [2; 0; 0; 0; 0] reset false = Ok (mc, true) /\
    s0 (cpu_of mc) = 0.
Proof. eexists. split; vm_compute; reflexivity. Qed.

Lemma S0_implies_key_pending_witness :
  run_monitor [2; 0] reset false = Ok (latched_machine, true) /\
  s0 (cpu_of latched_machine) = 1 /\
  true = true.
Proof.
  assert (Hrun : run_monitor [2; 0] reset false = Ok (latched_machine, true))
    by (vm_compute; reflexivity).
  assert (Hup : s0 (cpu_of latched_machine) = 1) by (vm_compute; reflexivity).
  split; [exact Hrun|]. split; [exact Hup|].
  apply (S0_implies_key_pending [2; 0] reset latched_machine false true).
  - exact wf_reset.
  - vm_compute. discriminate.
  - exact Hrun.
  - exact Hup.
Defined.

(** * The embedding on the microcode

    The first end-to-end scenario of the specification: the keys 1, 2, ENTER,
    3, 4, + leave [46.] on the display (cell 0 blank, then 4, then 6 with its
    decimal point). *)
Example scenario_12_enter_34_add :
  exists mc,
    run keys_12_enter_34_add reset = Ok mc /\
    dbuf (shell_of mc) =
      [Some 0; Some _74; Some (Z.lor _76 _7DOT); Some 0; Some 0; Some 0;
       Some 0; Some 0].
Proof. eexists. split; vm_compute; reflexivity. Qed.

(** * The arithmetic family, operation by operation *)

Lemma do_add_law : digit_law do_add 1.
Proof.
  intros x y cy Hx Hy Hc. rewrite do_add_spec by assumption.
  destruct (spec_add_range x y cy Hx Hy Hc) as (Hd & Hc1 & Hsum).
  repeat split; try apply Hd; try apply Hc1. lia.
Qed.

Lemma do_sub_law : digit_law do_sub (-1).
Proof.
  unfold digit_law, is_digit, do_sub. intros x y cy Hx Hy Hc. cbv zeta.
  destruct (x - y - cy <? 0) eqn:Hneg; cbn [fst snd].
  - apply Z.ltb_lt in Hneg. rewrite Z.mod_small by lia. lia.
  - apply Z.ltb_ge in Hneg. rewrite Z.mod_small by lia. lia.
Qed.

Lemma do_sub_spec (x y cy : Z) :
  is_digit x -> is_digit y -> 0 <= cy <= 1 ->
  do_sub x y cy = spec_sub x y cy.
Proof.
  unfold is_digit, do_sub, spec_sub. intros Hx Hy Hc. cbv zeta.
  destruct (x - y - cy <? 0) eqn:Hneg.
  - apply Z.ltb_lt in Hneg. rewrite Z.mod_small by lia. reflexivity.
  - apply Z.ltb_ge in Hneg. rewrite Z.mod_small by lia. reflexivity.
Qed.

Lemma oslice_reg (r : reg) (st : cpu) (n : nat) :
  forall lo, oslice (Reg r) st lo n = slice (rget r st) lo n.
Proof.
  induction n as [|n IH]; intros lo; cbn [oslice slice odigit];
    [reflexivity|]. rewrite IH. reflexivity.
Qed.

Lemma oslice_imm (z : Z) (st : cpu) (n : nat) :
  forall lo, oslice (Imm z) st lo n = repeat z n.
Proof.
  induction n as [|n IH]; intros lo; cbn [oslice repeat odigit];
    [reflexivity|]. rewrite IH. reflexivity.
Qed.

Lemma decimal_zeros (n : nat) : decimal (repeat 0 n) = 0.
Proof. induction n as [|n IH]; cbn [repeat decimal]; lia. Qed.

Lemma odigit_frame (o : operand) (st st' : cpu) (i : Z) :
  0 <= i -> (forall r, peek (rget r st') i = peek (rget r st) i) ->
  odigit o st' i = odigit o st i.
Proof.
  intros Hi Hpk. destruct o as [r|z]; cbn [odigit]; [|reflexivity].
  apply digit_of_peek; [exact Hi|apply Hpk].
Qed.

Lemma oslice_frame (o : operand) (st st' : cpu) (n : nat) :
  forall lo, 0 <= lo ->
  (forall r i, lo <= i < lo + Z.of_nat n ->
               peek (rget r st') i = peek (rget r st) i) ->
  oslice o st' lo n = oslice o st lo n.
Proof.
  induction n as [|n IH]; intros lo Hlo Hpk; cbn [oslice]; [reflexivity|].
  rewrite (odigit_frame o st st' lo Hlo) by (intros r; apply Hpk; lia).
  rewrite IH; [reflexivity|lia|]. intros r i Hi. apply Hpk. lia.
Qed.

Lemma operand_at_odigit (o : operand) (i : Z) (st : cpu) :
  wf_cpu st -> 0 <= i < 16 -> operand_at o i st = Ok (odigit o st i).
Proof.
  intros Hwf Hi. destruct o as [r|z]; cbn [operand_at odigit]; [|reflexivity].
  destruct (rd_ok r i st Hwf Hi) as (v & -> & Hv).
  apply digit_of_peek_some in Hv. rewrite Hv. reflexivity.
Qed.

Lemma only_reg_refl (dst : reg) (st : cpu) : only_reg dst st st.
Proof. intros r _. reflexivity. Qed.

Lemma only_reg_trans (dst : reg) (st1 st2 st3 : cpu) :
  only_reg dst st1 st2 -> only_reg dst st2 st3 -> only_reg dst st1 st3.
Proof.
  intros H12 H23 r Hr. rewrite H23, H12 by exact Hr. reflexivity.
Qed.

Lemma wr_only_reg (r : reg) (i v : Z) (st st' : cpu) :
  wr r i v st = Ok st' -> only_reg r st st'.
Proof.
  unfold wr. destruct (in_range (rget r st) i); [|discriminate].
  intros Hrun r' Hne. injection Hrun as <-. apply rget_rset_ne. congruence.
Qed.

Section AluLaw.

Variable prim : Z -> Z -> Z -> Z * Z.
Variable sg : Z.
Hypothesis prim_law : digit_law prim sg.

(** One round of an [alu] loop on digits. *)
Lemma alu_step_law (dst : reg) (x y : operand) (i : Z) (st : cpu) :
  wf_cpu st -> 0 <= i < 16 ->
  is_digit (odigit x st i) -> is_digit (odigit y st i) ->
  0 <= carry st <= 1 ->
  exists st1,
    alu_step prim dst x y i st = Ok st1 /\
    frame i i st st1 /\ only_reg dst st st1 /\
    digit_of (rget dst st1) i =
      fst (prim (odigit x st i) (odigit y st i) (carry st)) /\
    carry st1 = snd (prim (odigit x st i) (odigit y st i) (carry st)).
Proof.
  intros Hwf Hi Hx Hy Hc. unfold alu_step.
  rewrite !operand_at_odigit by assumption. cbn [bind].
  destruct (prim (odigit x st i) (odigit y st i) (carry st)) as [res cy].
  cbn [fst snd].
  pose proof (wf_set_carry cy st Hwf) as Hwf1.
  destruct (wr_frame i i dst i res (set_carry cy st) Hwf1
              ltac:(lia) ltac:(lia) ltac:(lia)) as (st1 & Hwr & Hfr & Hcy).
  exists st1. split; [exact Hwr|]. split; [exact Hfr|].
  split; [exact (wr_only_reg _ _ _ _ _ Hwr)|].
  rewrite wr_ok in Hwr by assumption. injection Hwr as <-.
  split; [|apply carry_rset].
  rewrite rget_rset_eq. apply digit_of_peek_some, peek_poke_eq.
  apply wf_in_range; assumption.
Qed.

(** An [alu] loop from digit [lo] over [n] digits. *)
Lemma iter_up_law (dst : reg) (x y : operand) (n : nat) :
  forall lo st,
  wf_cpu st -> 0 <= lo -> lo + Z.of_nat n <= 16 ->
  (forall i, lo <= i < lo + Z.of_nat n ->
     is_digit (odigit x st i) /\ is_digit (odigit y st i)) ->
  0 <= carry st <= 1 ->
  exists st',
    iter_up n lo (alu_step prim dst x y) st = Ok st' /\
    frame lo (lo + Z.of_nat n - 1) st st' /\ only_reg dst st st' /\
    Forall is_digit (slice (rget dst st') lo n) /\
    0 <= carry st' <= 1 /\
    decimal (slice (rget dst st') lo n) =
      decimal (oslice x st lo n) +
      sg * (decimal (oslice y st lo n) + carry st
            - 10 ^ Z.of_nat n * carry st').
Proof.
  induction n as [|n IH]; intros lo st Hwf Hlo Hhi Hdig Hc.
  - cbn [iter_up slice oslice decimal]. eexists. split; [reflexivity|].
    split; [apply frame_refl, Hwf|]. split; [apply only_reg_refl|].
    split; [constructor|]. split; [exact Hc|].
    change (Z.of_nat 0) with 0. rewrite Z.pow_0_r. lia.
  - cbn [iter_up]. rewrite Nat2Z.inj_succ in Hhi, Hdig.
    destruct (Hdig lo ltac:(lia)) as [Hx Hy].
    destruct (alu_step_law dst x y lo st Hwf ltac:(lia) Hx Hy Hc)
      as (st1 & -> & Hfr1 & Honly1 & Hd1 & Hc1). cbn [bind].
    destruct (prim_law _ _ _ Hx Hy Hc) as (Hrd & Hc1r & Hlaw).
    rewrite <- Hc1 in Hc1r, Hlaw. rewrite <- Hd1 in Hrd, Hlaw.
    pose proof Hfr1 as (Hwf1 & _ & Hpk1).
    assert (Hsl : forall o, oslice o st1 (lo + 1) n = oslice o st (lo + 1) n).
    { intros o. apply oslice_frame; [lia|]. intros r i Hi. apply Hpk1. lia. }
    destruct (IH (lo + 1) st1 Hwf1 ltac:(lia) ltac:(lia)) as
      (st' & Hrun & Hfr & Honly & Hds & Hco & Hval); [|exact Hc1r|].
    { intros i Hi.
      rewrite !(odigit_frame _ st st1 i) by
        (try lia; intros r; apply Hpk1; lia).
      apply Hdig. lia. }
    exists st'. split; [exact Hrun|]. split.
    { eapply frame_trans.
      - eapply frame_widen; [| |exact Hfr1]; lia.
      - eapply frame_widen; [| |exact Hfr]; lia. }
    split; [eapply only_reg_trans; eassumption|].
    destruct Hfr as (_ & _ & Hpk).
    assert (Hkeep : digit_of (rget dst st') lo = digit_of (rget dst st1) lo).
    { apply digit_of_peek; [lia|]. apply Hpk. lia. }
    cbn [slice oslice decimal]. rewrite Hkeep.
    split; [constructor; assumption|]. split; [exact Hco|].
    rewrite Hval, !Hsl, Hlaw, Nat2Z.inj_succ, Z.pow_succ_r by lia. ring.
Qed.

(** The [alu] loop over the selected slice. *)
Lemma alu_law (dst : reg) (x y : operand) (st : cpu) :
  wf_cpu st -> slice_ok st -> 0 <= carry st <= 1 ->
  (forall i, first st <= i <= last st ->
     is_digit (odigit x st i) /\ is_digit (odigit y st i)) ->
  let n := Z.to_nat (last st + 1 - first st) in
  exists st',
    alu prim dst x y st = Ok st' /\
    frame (first st) (last st) st st' /\ only_reg dst st st' /\
    Forall is_digit (slice (rget dst st') (first st) n) /\
    0 <= carry st' <= 1 /\
    decimal (slice (rget dst st') (first st) n) =
      decimal (oslice x st (first st) n) +
      sg * (decimal (oslice y st (first st) n) + carry st
            - 10 ^ (last st - first st + 1) * carry st').
Proof.
  intros Hwf (Hlo & Hle & Hhi) Hcy Hdig n. unfold alu, for_up. fold n.
  assert (Hn : Z.of_nat n = last st - first st + 1) by (unfold n; lia).
  destruct (iter_up_law dst x y n (first st) st Hwf Hlo ltac:(lia))
    as (st' & Hrun & Hfr & Honly & Hds & Hco & Hval); [|exact Hcy|].
  { intros i Hi. apply Hdig. lia. }
  exists st'. split; [exact Hrun|]. split.
  { eapply frame_widen; [| |exact Hfr]; lia. }
  split; [exact Honly|]. split; [exact Hds|]. split; [exact Hco|].
  rewrite Hval, Hn. reflexivity.
Qed.

End AluLaw.

(** The state on which the arithmetic switch starts, related to the state
    before the microcycle. *)
Lemma arith_entry (h l : Z) (st : cpu) :
  0 <= h < 256 -> 0 <= l < 256 -> Z.land l 0x03 = 0x02 -> wf_cpu st ->
  exists st2,
    execute h l st = alu_op (op_code_of h l) st2 /\
    wf_cpu st2 /\ slice_ok st2 /\ carry st2 = 0 /\
    first st2 = slice_lo l st /\ last st2 = slice_hi l st /\
    (forall r, rget r st2 = rget r st) /\ p st2 = p st.
Proof.
  intros Hh Hl Hfam Hwf. rewrite execute_arith by assumption.
  set (st1 := latched (set_pc ((pc st + 1) mod 256) st)).
  assert (Hwf1 : wf_cpu st1) by (apply wf_latched; exact Hwf).
  pose proof (slice_code_bound l Hl) as Hcode.
  destruct (select_slice_regs (slice_code l) st1 Hcode) as [Hregs Hwfeq].
  assert (Hp1 : p st1 = p st) by (unfold st1; rewrite p_latched; reflexivity).
  destruct (select_slice_bounds (slice_code l) st1 st Hcode Hp1)
    as [Hfst Hlst].
  exists (set_carry 0 (select_slice (slice_code l) st1)).
  split; [reflexivity|]. split.
  { change (wf_cpu (select_slice (slice_code l) st1)). rewrite Hwfeq.
    exact Hwf1. }
  split; [apply (select_slice_ok (slice_code l) st1 Hcode); apply Hwf1|].
  split; [reflexivity|]. split; [exact Hfst|]. split; [exact Hlst|]. split.
  - intros r.
    change (rget r (select_slice (slice_code l) st1) = rget r st).
    rewrite Hregs. unfold st1. rewrite rget_latched. destruct r; reflexivity.
  - change (p (select_slice (slice_code l) st1) = p st). rewrite <- Hp1.
    clear -Hcode.
    assert (Hcases : In (slice_code l) (map Z.of_nat (seq 0 8))).
    { replace (slice_code l) with (Z.of_nat (Z.to_nat (slice_code l))) by lia.
      apply in_map, in_seq. lia. }
    cbn [seq map In] in Hcases. revert Hcases.
    generalize (slice_code l) as code. intros code Hcases.
    repeat (destruct Hcases as [<-|Hcases]); [.. | destruct Hcases];
      reflexivity.
Qed.

Lemma set_carry_same (st : cpu) : carry st = 0 -> set_carry 0 st = st.
Proof. destruct st. cbn. intros ->. reflexivity. Qed.

Lemma oslice_same_regs (o : operand) (st st' : cpu) (n : nat) :
  (forall r, rget r st' = rget r st) ->
  forall lo, oslice o st' lo n = oslice o st lo n.
Proof.
  intros Hregs. induction n as [|n IH]; intros lo; cbn [oslice];
    [reflexivity|].
  rewrite IH. destruct o as [r|z]; cbn [odigit]; [rewrite Hregs|];
    reflexivity.
Qed.

(** An [alu] operation of the switch, seen from the whole microcycle. *)
Lemma execute_alu (prim : Z -> Z -> Z -> Z * Z) (sg : Z) (h l : Z)
    (st : cpu) (dst : reg) (x y : operand) (seed : Z) :
  digit_law prim sg ->
  0 <= h < 256 -> 0 <= l < 256 -> Z.land l 0x03 = 0x02 -> wf_cpu st ->
  0 <= seed <= 1 ->
  (forall s, alu_op (op_code_of h l) (set_carry 0 s) =
             alu prim dst x y (set_carry seed s)) ->
  (forall i, slice_lo l st <= i <= slice_hi l st ->
     is_digit (odigit x st i) /\ is_digit (odigit y st i)) ->
  exists st',
    execute h l st = Ok st' /\
    only_reg dst st st' /\
    Forall is_digit (slice (rget dst st') (slice_lo l st) (slice_len l st)) /\
    0 <= carry st' <= 1 /\
    (1 <= slice_len l st)%nat /\
    decimal (slice (rget dst st') (slice_lo l st) (slice_len l st)) =
      decimal (oslice x st (slice_lo l st) (slice_len l st)) +
      sg * (decimal (oslice y st (slice_lo l st) (slice_len l st)) + seed
            - 10 ^ Z.of_nat (slice_len l st) * carry st').
Proof.
  intros Hlaw Hh Hl Hfam Hwf Hseed Hop Hdig.
  destruct (arith_entry h l st Hh Hl Hfam Hwf)
    as (st2 & -> & Hwf2 & Hsl & Hcy & Hf & Hla & Hregs & _).
  rewrite <- (set_carry_same st2 Hcy), Hop.
  pose proof Hsl as (Hlo & Hle & Hhi).
  destruct (alu_law prim sg Hlaw dst x y (set_carry seed st2))
    as (st' & Hrun & _ & Honly & Hds & Hco & Hval);
    [exact Hwf2|exact Hsl|exact Hseed| |].
  { intros i Hi. cbn [first last set_carry] in Hi. rewrite Hf, Hla in Hi.
    destruct (Hdig i Hi) as [Hx Hy].
    split; [destruct x|destruct y]; cbn [odigit] in *;
      try assumption;
      change (rget r (set_carry seed st2)) with (rget r st2);
      rewrite Hregs; assumption. }
  cbn [first last carry set_carry] in Hds, Hval.
  assert (Hos : forall o lo n, oslice o (set_carry seed st2) lo n
                               = oslice o st lo n).
  { intros o lo n. apply oslice_same_regs. intros r.
    change (rget r (set_carry seed st2)) with (rget r st2). apply Hregs. }
  rewrite !Hos in Hval. rewrite Hf, Hla in Hds, Hval, Hle.
  assert (Hn : Z.of_nat (slice_len l st) = slice_hi l st - slice_lo l st + 1)
    by (unfold slice_len; lia).
  exists st'. split; [exact Hrun|]. split.
  { intros r Hr. rewrite (Honly r Hr).
    change (rget r (set_carry seed st2)) with (rget r st2). apply Hregs. }
  split; [exact Hds|]. split; [exact Hco|].
  split; [unfold slice_len; lia|].
  fold (slice_len l st) in Hval. rewrite Hval, Hn. reflexivity.
Qed.

Ltac op_cases Hop :=
  match type of Hop with
  | 0 <= ?op < 32 =>
      let Hcases := fresh "Hcases" in
      assert (Hcases : In op (map Z.of_nat (seq 0 32)));
      [ replace op with (Z.of_nat (Z.to_nat op)) by lia;
        apply in_map, in_seq; lia
      | cbn [seq map In] in Hcases;
        repeat (destruct Hcases as [<-|Hcases]); [.. | destruct Hcases] ]
  end.

Lemma sub_class_cases (op_code : Z) (dst x y : reg) :
  0 <= op_code < 32 -> sub_class op_code = Some (dst, x, y) ->
  forall s, alu_op op_code (set_carry 0 s) =
            alu do_sub dst (Reg x) (Reg y) (set_carry 0 s).
Proof.
  intros Hop Hclass. op_cases Hop; cbn in Hclass; try discriminate;
    injection Hclass as <- <- <-; reflexivity.
Qed.

Lemma inc_class_cases (op_code : Z) (r : reg) :
  0 <= op_code < 32 -> inc_class op_code = Some r ->
  forall s, alu_op op_code (set_carry 0 s) =
            alu do_add r (Reg r) (Imm 0) (set_carry 1 s).
Proof.
  intros Hop Hclass. op_cases Hop; cbn in Hclass; try discriminate;
    injection Hclass as <-; reflexivity.
Qed.

Lemma dec_class_cases (op_code : Z) (r : reg) :
  0 <= op_code < 32 -> dec_class op_code = Some r ->
  forall s, alu_op op_code (set_carry 0 s) =
            alu do_sub r (Reg r) (Imm 0) (set_carry 1 s).
Proof.
  intros Hop Hclass. op_cases Hop; cbn in Hclass; try discriminate;
    injection Hclass as <-; reflexivity.
Qed.

Lemma zero_digit : is_digit 0.
Proof. unfold is_digit. lia. Qed.

Lemma slice_decimal_bound (reg_bytes : list Z) (lo : Z) (n : nat) :
  Forall is_digit (slice reg_bytes lo n) ->
  0 <= decimal (slice reg_bytes lo n) <= 10 ^ Z.of_nat n - 1.
Proof.
  intros Hd. pose proof (decimal_bound _ Hd) as Hb.
  rewrite slice_length in Hb. exact Hb.
Qed.

(** X1.  The subtracting operations ([A-C], [A-C->C], [A-B], [A-B->A],
    [A-C->A]) on a slice of decimal digits: the target slice receives the
    decimal difference of the two operands modulo [10^n], no other register
    changes (the two compares write only T), and [carry] is the borrow: it is
    1 exactly when the minuend is smaller than the subtrahend. *)
Theorem subtract_borrow (h l : Z) (st : cpu) (dst x y : reg) :
  0 <= h < 256 -> 0 <= l < 256 -> Z.land l 0x03 = 0x02 ->
  sub_class (op_code_of h l) = Some (dst, x, y) ->
  wf_cpu st ->
  (forall i, slice_lo l st <= i <= slice_hi l st ->
     is_digit (digit_of (rget x st) i) /\ is_digit (digit_of (rget y st) i)) ->
  let lo := slice_lo l st in
  let n := slice_len l st in
  exists st',
    execute h l st = Ok st' /\
    only_reg dst st st' /\
    Forall is_digit (slice (rget dst st') lo n) /\
    decimal (slice (rget dst st') lo n) =
      decimal (slice (rget x st) lo n) - decimal (slice (rget y st) lo n)
      + 10 ^ Z.of_nat n * carry st' /\
    (carry st' = 1 <->
     decimal (slice (rget x st) lo n) < decimal (slice (rget y st) lo n)).
Proof.
  intros Hh Hl Hfam Hclass Hwf Hdig lo n.
  destruct (execute_alu do_sub (-1) h l st dst (Reg x) (Reg y) 0 do_sub_law
              Hh Hl Hfam Hwf ltac:(lia)
              (sub_class_cases _ dst x y (op_code_bound h l Hh Hl) Hclass)
              Hdig)
    as (st' & Hrun & Honly & Hds & Hco & _ & Hval).
  rewrite !oslice_reg in Hval. fold lo n in Hds, Hval.
  exists st'. split; [exact Hrun|]. split; [exact Honly|].
  split; [exact Hds|].
  pose proof (slice_decimal_bound _ _ _ Hds) as Hb.
  revert Hval Hb Hco. generalize (10 ^ Z.of_nat n) as pw.
  generalize (decimal (slice (rget dst st') lo n)) as dr.
  generalize (carry st') as cout. intros cout dr pw Hval Hb Hco.
  assert (Hbit : cout = 0 \/ cout = 1) by lia.
  destruct Hbit as [-> | ->]; lia.
Qed.

Lemma subtract_borrow_witness :
  let st := set_c (poke (c reset_cpu) 3 7) (set_a (poke (a reset_cpu) 3 5)
              reset_cpu) in
  let lo := slice_lo 0x4e st in
  let n := slice_len 0x4e st in
  exists st',
    execute 0 0x4e st = Ok st' /\
    only_reg RT st st' /\
    Forall is_digit (slice (rget RT st') lo n) /\
    decimal (slice (rget RT st') lo n) =
      decimal (slice (rget RA st) lo n) - decimal (slice (rget RC st) lo n)
      + 10 ^ Z.of_nat n * carry st' /\
    (carry st' = 1 <->
     decimal (slice (rget RA st) lo n) < decimal (slice (rget RC st) lo n)).
Proof.
  intros st.
  apply (subtract_borrow 0 0x4e st RT RA RC); try lia; try reflexivity.
  - split; [intros []; reflexivity|]. split; [reflexivity|cbn; lia].
  - intros i Hi. cbn in Hi.
    assert (Hcases : In i (map Z.of_nat (seq 0 16))).
    { replace i with (Z.of_nat (Z.to_nat i)) by lia.
      apply in_map, in_seq. lia. }
    cbn [seq map In] in Hcases.
    repeat (destruct Hcases as [<-|Hcases]); [.. | destruct Hcases];
      split; vm_compute; split; discriminate.
Defined.

(** X2.  The incrementing operations ([C+1->C], [A+1->A]) on a slice of
    decimal digits add one modulo [10^n]; [carry] is 1 exactly when the slice
    held all nines. *)
Theorem increment_carry (h l : Z) (st : cpu) (r : reg) :
  0 <= h < 256 -> 0 <= l < 256 -> Z.land l 0x03 = 0x02 ->
  inc_class (op_code_of h l) = Some r ->
  wf_cpu st ->
  (forall i, slice_lo l st <= i <= slice_hi l st ->
     is_digit (digit_of (rget r st) i)) ->
  let lo := slice_lo l st in
  let n := slice_len l st in
  exists st',
    execute h l st = Ok st' /\
    only_reg r st st' /\
    Forall is_digit (slice (rget r st') lo n) /\
    decimal (slice (rget r st') lo n) + 10 ^ Z.of_nat n * carry st' =
      decimal (slice (rget r st) lo n) + 1 /\
    (carry st' = 1 <-> decimal (slice (rget r st) lo n) = 10 ^ Z.of_nat n - 1).
Proof.
  intros Hh Hl Hfam Hclass Hwf Hdig lo n.
  destruct (execute_alu do_add 1 h l st r (Reg r) (Imm 0) 1 do_add_law
              Hh Hl Hfam Hwf ltac:(lia)
              (inc_class_cases _ r (op_code_bound h l Hh Hl) Hclass))
    as (st' & Hrun & Honly & Hds & Hco & _ & Hval).
  { intros i Hi. split; [apply Hdig, Hi|apply zero_digit]. }
  rewrite oslice_reg, oslice_imm, decimal_zeros in Hval.
  fold lo n in Hds, Hval.
  exists st'. split; [exact Hrun|]. split; [exact Honly|].
  split; [exact Hds|].
  pose proof (slice_decimal_bound _ _ _ Hds) as Hb.
  assert (Hsrc : Forall is_digit (slice (rget r st) lo n)).
  { apply slice_digits. intros i Hi. apply Hdig. unfold lo, n, slice_len in *.
    lia. }
  pose proof (slice_decimal_bound _ _ _ Hsrc) as Hbs.
  revert Hval Hb Hbs Hco. generalize (10 ^ Z.of_nat n) as pw.
  generalize (decimal (slice (rget r st') lo n)) as dr.
  generalize (decimal (slice (rget r st) lo n)) as ds.
  generalize (carry st') as cout. intros cout ds dr pw Hval Hb Hbs Hco.
  assert (Hbit : cout = 0 \/ cout = 1) by lia.
  destruct Hbit as [-> | ->]; lia.
Qed.

(** X3.  The decrementing operations ([C-1->C], [A-1->A]) on a slice of
    decimal digits subtract one modulo [10^n]; [carry] is 1 exactly when the
    slice held zero. *)
Theorem decrement_borrow (h l : Z) (st : cpu) (r : reg) :
  0 <= h < 256 -> 0 <= l < 256 -> Z.land l 0x03 = 0x02 ->
  dec_class (op_code_of h l) = Some r ->
  wf_cpu st ->
  (forall i, slice_lo l st <= i <= slice_hi l st ->
     is_digit (digit_of (rget r st) i)) ->
  let lo := slice_lo l st in
  let n := slice_len l st in
  exists st',
    execute h l st = Ok st' /\
    only_reg r st st' /\
    Forall is_digit (slice (rget r st') lo n) /\
    decimal (slice (rget r st') lo n) =
      decimal (slice (rget r st) lo n) - 1 + 10 ^ Z.of_nat n * carry st' /\
    (carry st' = 1 <-> decimal (slice (rget r st) lo n) = 0).
Proof.
  intros Hh Hl Hfam Hclass Hwf Hdig lo n.
  destruct (execute_alu do_sub (-1) h l st r (Reg r) (Imm 0) 1 do_sub_law
              Hh Hl Hfam Hwf ltac:(lia)
              (dec_class_cases _ r (op_code_bound h l Hh Hl) Hclass))
    as (st' & Hrun & Honly & Hds & Hco & _ & Hval).
  { intros i Hi. split; [apply Hdig, Hi|apply zero_digit]. }
  rewrite oslice_reg, oslice_imm, decimal_zeros in Hval.
  fold lo n in Hds, Hval.
  exists st'. split; [exact Hrun|]. split; [exact Honly|].
  split; [exact Hds|].
  pose proof (slice_decimal_bound _ _ _ Hds) as Hb.
  assert (Hsrc : Forall is_digit (slice (rget r st) lo n)).
  { apply slice_digits. intros i Hi. apply Hdig. unfold lo, n, slice_len in *.
    lia. }
  pose proof (slice_decimal_bound _ _ _ Hsrc) as Hbs.
  revert Hval Hb Hbs Hco. generalize (10 ^ Z.of_nat n) as pw.
  generalize (decimal (slice (rget r st') lo n)) as dr.
  generalize (decimal (slice (rget r st) lo n)) as ds.
  generalize (carry st') as cout. intros cout ds dr pw Hval Hb Hbs Hco.
  assert (Hbit : cout = 0 \/ cout = 1) by lia.
  destruct Hbit as [-> | ->]; lia.
Qed.

(** X4.  [0-C->C] on a slice of decimal digits replaces the slice by its
    ten's complement, [10^n - C] modulo [10^n], with [carry] 1 exactly when
    the slice was not zero; [0-C-1->C] replaces it by its nine's complement,
    [10^n - 1 - C], and always leaves [carry] at 1. *)
Theorem negate_complement (h l : Z) (st : cpu) :
  0 <= h < 256 -> 0 <= l < 256 -> Z.land l 0x03 = 0x02 ->
  op_code_of h l = 0x05 \/ op_code_of h l = 0x07 ->
  wf_cpu st ->
  (forall i, slice_lo l st <= i <= slice_hi l st ->
     is_digit (digit_of (rget RC st) i)) ->
  let lo := slice_lo l st in
  let n := slice_len l st in
  let pw := 10 ^ Z.of_nat n in
  exists st',
    execute h l st = Ok st' /\
    only_reg RC st st' /\
    Forall is_digit (slice (rget RC st') lo n) /\
    (op_code_of h l = 0x05 ->
     decimal (slice (rget RC st') lo n) =
       pw * carry st' - decimal (slice (rget RC st) lo n) /\
     (carry st' = 1 <-> decimal (slice (rget RC st) lo n) <> 0)) /\
    (op_code_of h l = 0x07 ->
     decimal (slice (rget RC st') lo n) =
       pw - 1 - decimal (slice (rget RC st) lo n) /\
     carry st' = 1).
Proof.
  intros Hh Hl Hfam Hop Hwf Hdig lo n pw.
  assert (Hsrc : Forall is_digit (slice (rget RC st) lo n)).
  { apply slice_digits. intros i Hi. apply Hdig. unfold lo, n, slice_len in *.
    lia. }
  pose proof (slice_decimal_bound _ _ _ Hsrc) as Hbs.
  destruct Hop as [Hop|Hop].
  - destruct (execute_alu do_sub (-1) h l st RC (Imm 0) (Reg RC) 0 do_sub_law
                Hh Hl Hfam Hwf ltac:(lia))
      as (st' & Hrun & Honly & Hds & Hco & _ & Hval).
    { intros s1. rewrite Hop. reflexivity. }
    { intros i Hi. split; [apply zero_digit|apply Hdig, Hi]. }
    rewrite oslice_reg, oslice_imm, decimal_zeros in Hval.
    fold lo n pw in Hds, Hval.
    exists st'. split; [exact Hrun|]. split; [exact Honly|].
    split; [exact Hds|].
    pose proof (slice_decimal_bound _ _ _ Hds) as Hb. fold pw in Hb, Hbs.
    split; [intros _|rewrite Hop; discriminate].
    revert Hval Hb Hbs Hco. generalize pw as q.
    generalize (decimal (slice (rget RC st') lo n)) as dr.
    generalize (decimal (slice (rget RC st) lo n)) as ds.
    generalize (carry st') as cout. intros cout ds dr q Hval Hb Hbs Hco.
    assert (Hbit : cout = 0 \/ cout = 1) by lia.
    destruct Hbit as [-> | ->]; lia.
  - destruct (execute_alu do_sub (-1) h l st RC (Imm 0) (Reg RC) 1 do_sub_law
                Hh Hl Hfam Hwf ltac:(lia))
      as (st' & Hrun & Honly & Hds & Hco & _ & Hval).
    { intros s1. rewrite Hop. reflexivity. }
    { intros i Hi. split; [apply zero_digit|apply Hdig, Hi]. }
    rewrite oslice_reg, oslice_imm, decimal_zeros in Hval.
    fold lo n pw in Hds, Hval.
    exists st'. split; [exact Hrun|]. split; [exact Honly|].
    split; [exact Hds|].
    pose proof (slice_decimal_bound _ _ _ Hds) as Hb. fold pw in Hb, Hbs.
    split; [rewrite Hop; discriminate|intros _].
    revert Hval Hb Hbs Hco. generalize pw as q.
    generalize (decimal (slice (rget RC st') lo n)) as dr.
    generalize (decimal (slice (rget RC st) lo n)) as ds.
    generalize (carry st') as cout. intros cout ds dr q Hval Hb Hbs Hco.
    assert (Hbit : cout = 0 \/ cout = 1) by lia.
    destruct Hbit as [-> | ->]; lia.
Qed.

Lemma reset_digits (r : reg) (i : Z) : is_digit (digit_of (rget r reset_cpu) i).
Proof.
  assert (Hz : rget r reset_cpu = repeat 0 16) by (destruct r; reflexivity).
  rewrite Hz. unfold digit_of. rewrite nth_repeat. apply zero_digit.
Qed.

Lemma increment_carry_witness :
  let lo := slice_lo 0xee reset_cpu in
  let n := slice_len 0xee reset_cpu in
  exists st',
    execute 1 0xee reset_cpu = Ok st' /\
    only_reg RC reset_cpu st' /\
    Forall is_digit (slice (rget RC st') lo n) /\
    decimal (slice (rget RC st') lo n) + 10 ^ Z.of_nat n * carry st' =
      decimal (slice (rget RC reset_cpu) lo n) + 1 /\
    (carry st' = 1 <->
     decimal (slice (rget RC reset_cpu) lo n) = 10 ^ Z.of_nat n - 1).
Proof.
  apply (increment_carry 1 0xee reset_cpu RC); try lia; try reflexivity.
  - exact wf_reset.
  - intros i _. apply reset_digits.
Defined.

Lemma decrement_borrow_witness :
  let lo := slice_lo 0x6e reset_cpu in
  let n := slice_len 0x6e reset_cpu in
  exists st',
    execute 1 0x6e reset_cpu = Ok st' /\
    only_reg RC reset_cpu st' /\
    Forall is_digit (slice (rget RC st') lo n) /\
    decimal (slice (rget RC st') lo n) =
      decimal (slice (rget RC reset_cpu) lo n) - 1
      + 10 ^ Z.of_nat n * carry st' /\
    (carry st' = 1 <-> decimal (slice (rget RC reset_cpu) lo n) = 0).
Proof.
  apply (decrement_borrow 1 0x6e reset_cpu RC); try lia; try reflexivity.
  - exact wf_reset.
  - intros i _. apply reset_digits.
Defined.

Lemma negate_complement_witness :
  let lo := slice_lo 0xae reset_cpu in
  let n := slice_len 0xae reset_cpu in
  let pw := 10 ^ Z.of_nat n in
  exists st',
    execute 0 0xae reset_cpu = Ok st' /\
    only_reg RC reset_cpu st' /\
    Forall is_digit (slice (rget RC st') lo n) /\
    (op_code_of 0 0xae = 0x05 ->
     decimal (slice (rget RC st') lo n) =
       pw * carry st' - decimal (slice (rget RC reset_cpu) lo n) /\
     (carry st' = 1 <-> decimal (slice (rget RC reset_cpu) lo n) <> 0)) /\
    (op_code_of 0 0xae = 0x07 ->
     decimal (slice (rget RC st') lo n) =
       pw - 1 - decimal (slice (rget RC reset_cpu) lo n) /\
     carry st' = 1).
Proof.
  apply (negate_complement 0 0xae reset_cpu); try lia; try reflexivity.
  - left. reflexivity.
  - exact wf_reset.
  - intros i _. apply reset_digits.
Defined.

(** X5.  [A+C->A] on a slice of decimal digits puts the decimal sum of A
    and C modulo [10^n] into A, leaves every other register as it was, and
    sets [carry] exactly when the sum does not fit the slice. *)
Theorem add_A_C_to_A (h l : Z) (st : cpu) :
  0 <= h < 256 -> 0 <= l < 256 -> Z.land l 0x03 = 0x02 ->
  op_code_of h l = 0x1e ->
  wf_cpu st ->
  (forall i, slice_lo l st <= i <= slice_hi l st ->
     is_digit (digit_of (rget RA st) i) /\ is_digit (digit_of (rget RC st) i)) ->
  let lo := slice_lo l st in
  let n := slice_len l st in
  exists st',
    execute h l st = Ok st' /\
    only_reg RA st st' /\
    Forall is_digit (slice (rget RA st') lo n) /\
    decimal (slice (rget RA st') lo n) + 10 ^ Z.of_nat n * carry st' =
      decimal (slice (rget RA st) lo n) + decimal (slice (rget RC st) lo n) /\
    (carry st' = 1 <->
     10 ^ Z.of_nat n <=
     decimal (slice (rget RA st) lo n) + decimal (slice (rget RC st) lo n)).
Proof.
  intros Hh Hl Hfam Hop Hwf Hdig lo n.
  destruct (execute_alu do_add 1 h l st RA (Reg RA) (Reg RC) 0 do_add_law
              Hh Hl Hfam Hwf ltac:(lia))
    as (st' & Hrun & Honly & Hds & Hco & _ & Hval).
  { intros s1. rewrite Hop. reflexivity. }
  { exact Hdig. }
  rewrite !oslice_reg in Hval. fold lo n in Hds, Hval.
  exists st'. split; [exact Hrun|]. split; [exact Honly|].
  split; [exact Hds|].
  pose proof (slice_decimal_bound _ _ _ Hds) as Hb.
  revert Hval Hb Hco. generalize (10 ^ Z.of_nat n) as pw.
  generalize (decimal (slice (rget RA st') lo n)) as dr.
  generalize (carry st') as cout. intros cout dr pw Hval Hb Hco.
  assert (Hbit : cout = 0 \/ cout = 1) by lia.
  destruct Hbit as [-> | ->]; lia.
Qed.

Lemma add_A_C_to_A_witness :
  let lo := slice_lo 0xce reset_cpu in
  let n := slice_len 0xce reset_cpu in
  exists st',
    execute 3 0xce reset_cpu = Ok st' /\
    only_reg RA reset_cpu st' /\
    Forall is_digit (slice (rget RA st') lo n) /\
    decimal (slice (rget RA st') lo n) + 10 ^ Z.of_nat n * carry st' =
      decimal (slice (rget RA reset_cpu) lo n)
      + decimal (slice (rget RC reset_cpu) lo n) /\
    (carry st' = 1 <->
     10 ^ Z.of_nat n <=
     decimal (slice (rget RA reset_cpu) lo n)
     + decimal (slice (rget RC reset_cpu) lo n)).
Proof.
  apply (add_A_C_to_A 3 0xce reset_cpu); try lia; try reflexivity.
  - exact wf_reset.
  - intros i _. split; apply reset_digits.
Defined.

(** ** Tests *)

Lemma iter_up_test (r : reg) (v : Z) (n : nat) :
  forall lo st,
  wf_cpu st -> 0 <= lo -> lo + Z.of_nat n <= 16 ->
  iter_up n lo
    (fun i st => x <- rd r i st ;; Ok (if x =? 0 then st else set_carry v st))
    st =
  Ok (if all_zero (slice (rget r st) lo n) then st else set_carry v st).
Proof.
  induction n as [|n IH]; intros lo st Hwf Hlo Hhi; [reflexivity|].
  cbn [iter_up slice all_zero forallb]. rewrite Nat2Z.inj_succ in Hhi.
  destruct (rd_ok r lo st Hwf ltac:(lia)) as (x & -> & Hx). cbn [bind].
  apply digit_of_peek_some in Hx. rewrite Hx.
  destruct (x =? 0); cbn [andb].
  - rewrite IH by (auto; lia). reflexivity.
  - rewrite IH by (auto; lia).
    change (rget r (set_carry v st)) with (rget r st).
    destruct (all_zero _); reflexivity.
Qed.

Lemma test_class_cases (op_code : Z) (r : reg) (v : Z) :
  0 <= op_code < 32 -> test_class op_code = Some (r, v) ->
  (v = 0 \/ v = 1) /\
  forall s, alu_op op_code (set_carry 0 s) = test r v (set_carry (1 - v) s).
Proof.
  intros Hop Hclass. op_cases Hop; cbn in Hclass; try discriminate;
    injection Hclass as <- <-; (split; [lia|reflexivity]).
Qed.

(** X6.  The test operations leave every register as it is and report in
    [carry] whether the slice is zero: [0+B] and [0-C] set it to 1 exactly
    when some nibble of the slice is not zero, [C-1] and [A-1] exactly when
    all nibbles are zero. *)
Theorem test_reports_zero (h l : Z) (st : cpu) (r : reg) (v : Z) :
  0 <= h < 256 -> 0 <= l < 256 -> Z.land l 0x03 = 0x02 ->
  test_class (op_code_of h l) = Some (r, v) ->
  wf_cpu st ->
  exists st',
    execute h l st = Ok st' /\
    (forall r', rget r' st' = rget r' st) /\
    carry st' =
      (if all_zero (slice (rget r st) (slice_lo l st) (slice_len l st))
       then 1 - v else v).
Proof.
  intros Hh Hl Hfam Hclass Hwf.
  destruct (arith_entry h l st Hh Hl Hfam Hwf)
    as (st2 & -> & Hwf2 & (Hlo & Hle & Hhi) & Hcy & Hf & Hla & Hregs & _).
  destruct (test_class_cases _ r v (op_code_bound h l Hh Hl) Hclass)
    as [Hv Hop].
  rewrite <- (set_carry_same st2 Hcy), Hop. unfold test, for_up.
  cbn [first last set_carry].
  rewrite iter_up_test by (try exact Hwf2; lia).
  change (rget r (set_carry (1 - v) st2)) with (rget r st2).
  rewrite Hregs, Hf, Hla. fold (slice_len l st).
  eexists. split; [reflexivity|].
  destruct (all_zero _); (split; [intros r'|reflexivity]);
    first [exact (Hregs r')].
Qed.

Lemma test_reports_zero_witness :
  exists st',
    execute 0 0x0e reset_cpu = Ok st' /\
    (forall r', rget r' st' = rget r' reset_cpu) /\
    carry st' =
      (if all_zero (slice (rget RB reset_cpu) (slice_lo 0x0e reset_cpu)
                      (slice_len 0x0e reset_cpu))
       then 1 - 1 else 1).
Proof.
  apply (test_reports_zero 0 0x0e reset_cpu RB 1); try lia; try reflexivity.
  exact wf_reset.
Defined.

(** ** Copies, exchanges and shifts *)

Lemma wr_spec (r : reg) (i v : Z) (st : cpu) :
  wf_cpu st -> 0 <= i < 16 ->
  exists st', wr r i v st = Ok st' /\ frame i i st st' /\
              carry st' = carry st /\ only_reg r st st' /\
              peek (rget r st') i = Some v.
Proof.
  intros Hwf Hi.
  destruct (wr_frame i i r i v st Hwf ltac:(lia) ltac:(lia) ltac:(lia))
    as (st' & Hrun & Hfr & Hcy).
  exists st'. split; [exact Hrun|]. split; [exact Hfr|]. split; [exact Hcy|].
  split; [exact (wr_only_reg _ _ _ _ _ Hrun)|].
  rewrite wr_ok in Hrun by assumption. injection Hrun as <-.
  rewrite rget_rset_eq. apply peek_poke_eq, wf_in_range; assumption.
Qed.

Lemma frame_wf (lo hi : Z) (st st' : cpu) : frame lo hi st st' -> wf_cpu st'.
Proof. intros (Hwf & _). exact Hwf. Qed.

Lemma frame_peek (lo hi : Z) (st st' : cpu) (r : reg) (i : Z) :
  frame lo hi st st' -> ~ (lo <= i <= hi) ->
  peek (rget r st') i = peek (rget r st) i.
Proof. intros (_ & _ & Hr). apply Hr. Qed.

Lemma slice_shift (l l' : list Z) (k : Z) (n : nat) :
  forall lo, 0 <= lo -> 0 <= lo + k ->
  (forall i, lo <= i < lo + Z.of_nat n -> peek l' i = peek l (i + k)) ->
  slice l' lo n = slice l (lo + k) n.
Proof.
  induction n as [|n IH]; intros lo Hlo Hk Hpeek; cbn [slice]; [reflexivity|].
  f_equal.
  - unfold digit_of. pose proof (Hpeek lo ltac:(lia)) as Hp.
    unfold peek in Hp.
    destruct (lo <? 0) eqn:H1; [apply Z.ltb_lt in H1; lia|].
    destruct (lo + k <? 0) eqn:H2; [apply Z.ltb_lt in H2; lia|].
    rewrite <- !nth_default_eq. unfold nth_default. rewrite Hp. reflexivity.
  - replace (lo + k + 1) with (lo + 1 + k) by lia.
    apply IH; [lia|lia|]. intros i Hi. apply Hpeek. lia.
Qed.

Lemma slice_snoc (l : list Z) (n : nat) :
  forall lo, slice l lo (S n) = slice l lo n ++ [digit_of l (lo + Z.of_nat n)].
Proof.
  induction n as [|n IH]; intros lo.
  - cbn [slice app]. rewrite Z.add_0_r. reflexivity.
  - change (slice l lo (S (S n)))
      with (digit_of l lo :: slice l (lo + 1) (S n)).
    rewrite IH. cbn [slice app]. rewrite Nat2Z.inj_succ.
    replace (lo + 1 + Z.of_nat n) with (lo + Z.succ (Z.of_nat n)) by lia.
    reflexivity.
Qed.

Lemma decimal_snoc (ds : list Z) (t : Z) :
  decimal (ds ++ [t]) = decimal ds + 10 ^ Z.of_nat (length ds) * t.
Proof.
  induction ds as [|d ds IH].
  - cbn [app decimal length]. change (Z.of_nat 0) with 0.
    rewrite Z.pow_0_r. lia.
  - cbn [app decimal length]. rewrite IH, Nat2Z.inj_succ, Z.pow_succ_r by lia.
    lia.
Qed.

Lemma slice_repeat (l : list Z) (n : nat) :
  forall lo,
  (forall i, lo <= i < lo + Z.of_nat n -> digit_of l i = 0) ->
  slice l lo n = repeat 0 n.
Proof.
  induction n as [|n IH]; intros lo Hz; cbn [slice repeat]; [reflexivity|].
  rewrite Hz by lia. rewrite IH; [reflexivity|]. intros i Hi. apply Hz. lia.
Qed.

Lemma iter_up_copy (dst src : reg) (n : nat) :
  forall lo st,
  wf_cpu st -> 0 <= lo -> lo + Z.of_nat n <= 16 ->
  exists st',
    iter_up n lo (fun i st => x <- rd src i st ;; wr dst i x st) st = Ok st' /\
    frame lo (lo + Z.of_nat n - 1) st st' /\
    carry st' = carry st /\ only_reg dst st st' /\
    forall j, lo <= j < lo + Z.of_nat n ->
              peek (rget dst st') j = peek (rget src st) j.
Proof.
  induction n as [|n IH]; intros lo st Hwf Hlo Hhi.
  - exists st. split; [reflexivity|]. split; [apply frame_refl, Hwf|].
    split; [reflexivity|]. split; [apply only_reg_refl|]. intros j Hj. lia.
  - rewrite Nat2Z.inj_succ in *. cbn [iter_up].
    destruct (rd_ok src lo st Hwf ltac:(lia)) as (x & -> & Hx). cbn [bind].
    destruct (wr_spec dst lo x st Hwf ltac:(lia))
      as (st1 & -> & Hfr1 & Hcy1 & Honly1 & Hnew). cbn [bind].
    destruct (IH (lo + 1) st1 (frame_wf _ _ _ _ Hfr1) ltac:(lia) ltac:(lia))
      as (st' & -> & Hfr & Hcy & Honly & Hpt).
    exists st'. split; [reflexivity|]. split.
    { apply (frame_trans _ _ st st1 st').
      - apply (frame_widen lo lo); [lia|lia|exact Hfr1].
      - apply (frame_widen (lo + 1) (lo + 1 + Z.of_nat n - 1));
          [lia|lia|exact Hfr]. }
    split; [congruence|]. split; [eapply only_reg_trans; eassumption|].
    intros j Hj. destruct (Z.eq_dec j lo) as [->|Hne].
    + rewrite (frame_peek _ _ _ _ dst lo Hfr) by lia. congruence.
    + rewrite Hpt by lia. apply (frame_peek _ _ _ _ src j Hfr1). lia.
Qed.

Lemma iter_up_clear (dst : reg) (n : nat) :
  forall lo st,
  wf_cpu st -> 0 <= lo -> lo + Z.of_nat n <= 16 ->
  exists st',
    iter_up n lo (fun i st => wr dst i 0 st) st = Ok st' /\
    frame lo (lo + Z.of_nat n - 1) st st' /\
    carry st' = carry st /\ only_reg dst st st' /\
    forall j, lo <= j < lo + Z.of_nat n -> peek (rget dst st') j = Some 0.
Proof.
  induction n as [|n IH]; intros lo st Hwf Hlo Hhi.
  - exists st. split; [reflexivity|]. split; [apply frame_refl, Hwf|].
    split; [reflexivity|]. split; [apply only_reg_refl|]. intros j Hj. lia.
  - rewrite Nat2Z.inj_succ in *. cbn [iter_up].
    destruct (wr_spec dst lo 0 st Hwf ltac:(lia))
      as (st1 & -> & Hfr1 & Hcy1 & Honly1 & Hnew). cbn [bind].
    destruct (IH (lo + 1) st1 (frame_wf _ _ _ _ Hfr1) ltac:(lia) ltac:(lia))
      as (st' & -> & Hfr & Hcy & Honly & Hpt).
    exists st'. split; [reflexivity|]. split.
    { apply (frame_trans _ _ st st1 st').
      - apply (frame_widen lo lo); [lia|lia|exact Hfr1].
      - apply (frame_widen (lo + 1) (lo + 1 + Z.of_nat n - 1));
          [lia|lia|exact Hfr]. }
    split; [congruence|]. split; [eapply only_reg_trans; eassumption|].
    intros j Hj. destruct (Z.eq_dec j lo) as [->|Hne].
    + rewrite (frame_peek _ _ _ _ dst lo Hfr) by lia. exact Hnew.
    + apply Hpt. lia.
Qed.

Lemma iter_up_exchange (x y : reg) (n : nat) :
  x <> y ->
  forall lo st,
  wf_cpu st -> 0 <= lo -> lo + Z.of_nat n <= 16 ->
  exists st',
    iter_up n lo
      (fun i st =>
         tmp <- rd x i st ;;
         yv <- rd y i st ;;
         st1 <- wr x i yv st ;;
         wr y i tmp st1) st = Ok st' /\
    frame lo (lo + Z.of_nat n - 1) st st' /\
    carry st' = carry st /\
    (forall r, r <> x -> r <> y -> rget r st' = rget r st) /\
    forall j, lo <= j < lo + Z.of_nat n ->
              peek (rget x st') j = peek (rget y st) j /\
              peek (rget y st') j = peek (rget x st) j.
Proof.
  intros Hxy. induction n as [|n IH]; intros lo st Hwf Hlo Hhi.
  - exists st. split; [reflexivity|]. split; [apply frame_refl, Hwf|].
    split; [reflexivity|]. split; [reflexivity|]. intros j Hj. lia.
  - rewrite Nat2Z.inj_succ in *. cbn [iter_up].
    destruct (rd_ok x lo st Hwf ltac:(lia)) as (tmp & -> & Htmp). cbn [bind].
    destruct (rd_ok y lo st Hwf ltac:(lia)) as (yv & -> & Hyv). cbn [bind].
    destruct (wr_spec x lo yv st Hwf ltac:(lia))
      as (sta & -> & Hfra & Hcya & Honlya & Hnewa). cbn [bind].
    destruct (wr_spec y lo tmp sta (frame_wf _ _ _ _ Hfra) ltac:(lia))
      as (st1 & -> & Hfr1 & Hcy1 & Honly1 & Hnew1). cbn [bind].
    destruct (IH (lo + 1) st1 (frame_wf _ _ _ _ Hfr1) ltac:(lia) ltac:(lia))
      as (st' & -> & Hfr & Hcy & Hrest & Hpt).
    assert (Hfr01 : frame lo lo st st1)
      by (eapply frame_trans; eassumption).
    exists st'. split; [reflexivity|]. split.
    { apply (frame_trans _ _ st st1 st').
      - apply (frame_widen lo lo); [lia|lia|exact Hfr01].
      - apply (frame_widen (lo + 1) (lo + 1 + Z.of_nat n - 1));
          [lia|lia|exact Hfr]. }
    split; [congruence|]. split.
    { intros r Hrx Hry. rewrite Hrest by assumption.
      rewrite Honly1 by congruence. apply Honlya. congruence. }
    intros j Hj. destruct (Z.eq_dec j lo) as [->|Hne].
    + rewrite !(frame_peek _ _ _ _ _ lo Hfr) by lia.
      rewrite (Honly1 x) by congruence. split; congruence.
    + destruct (Hpt j ltac:(lia)) as [-> ->].
      rewrite !(frame_peek _ _ _ _ _ j Hfr01) by lia. split; reflexivity.
Qed.

Lemma iter_up_shift (r : reg) (n : nat) :
  forall lo st,
  wf_cpu st -> 0 <= lo -> lo + Z.of_nat n < 16 ->
  exists st',
    iter_up n lo (fun i st => x <- rd r (i + 1) st ;; wr r i x st) st
      = Ok st' /\
    frame lo (lo + Z.of_nat n - 1) st st' /\
    carry st' = carry st /\ only_reg r st st' /\
    forall j, lo <= j < lo + Z.of_nat n ->
              peek (rget r st') j = peek (rget r st) (j + 1).
Proof.
  induction n as [|n IH]; intros lo st Hwf Hlo Hhi.
  - exists st. split; [reflexivity|]. split; [apply frame_refl, Hwf|].
    split; [reflexivity|]. split; [apply only_reg_refl|]. intros j Hj. lia.
  - rewrite Nat2Z.inj_succ in *. cbn [iter_up].
    destruct (rd_ok r (lo + 1) st Hwf ltac:(lia)) as (x & -> & Hx).
    cbn [bind].
    destruct (wr_spec r lo x st Hwf ltac:(lia))
      as (st1 & -> & Hfr1 & Hcy1 & Honly1 & Hnew). cbn [bind].
    destruct (IH (lo + 1) st1 (frame_wf _ _ _ _ Hfr1) ltac:(lia) ltac:(lia))
      as (st' & -> & Hfr & Hcy & Honly & Hpt).
    exists st'. split; [reflexivity|]. split.
    { apply (frame_trans _ _ st st1 st').
      - apply (frame_widen lo lo); [lia|lia|exact Hfr1].
      - apply (frame_widen (lo + 1) (lo + 1 + Z.of_nat n - 1));
          [lia|lia|exact Hfr]. }
    split; [congruence|]. split; [eapply only_reg_trans; eassumption|].
    intros j Hj. destruct (Z.eq_dec j lo) as [->|Hne].
    + rewrite (frame_peek _ _ _ _ r lo Hfr) by lia. congruence.
    + rewrite Hpt by lia. apply (frame_peek _ _ _ _ r (j + 1) Hfr1). lia.
Qed.

Lemma iter_down_shift (r : reg) (n : nat) :
  forall hi st,
  wf_cpu st -> 0 <= hi - Z.of_nat n -> hi < 16 ->
  exists st',
    iter_down n hi (fun i st => x <- rd r (i - 1) st ;; wr r i x st) st
      = Ok st' /\
    frame (hi - Z.of_nat n + 1) hi st st' /\
    carry st' = carry st /\ only_reg r st st' /\
    forall j, hi - Z.of_nat n < j <= hi ->
              peek (rget r st') j = peek (rget r st) (j - 1).
Proof.
  induction n as [|n IH]; intros hi st Hwf Hlo Hhi.
  - exists st. split; [reflexivity|]. split; [apply frame_refl, Hwf|].
    split; [reflexivity|]. split; [apply only_reg_refl|]. intros j Hj. lia.
  - rewrite Nat2Z.inj_succ in *. cbn [iter_down].
    destruct (rd_ok r (hi - 1) st Hwf ltac:(lia)) as (x & -> & Hx).
    cbn [bind].
    destruct (wr_spec r hi x st Hwf ltac:(lia))
      as (st1 & -> & Hfr1 & Hcy1 & Honly1 & Hnew). cbn [bind].
    destruct (IH (hi - 1) st1 (frame_wf _ _ _ _ Hfr1) ltac:(lia) ltac:(lia))
      as (st' & -> & Hfr & Hcy & Honly & Hpt).
    exists st'. split; [reflexivity|]. split.
    { apply (frame_trans _ _ st st1 st').
      - apply (frame_widen hi hi); [lia|lia|exact Hfr1].
      - apply (frame_widen (hi - 1 - Z.of_nat n + 1) (hi - 1));
          [lia|lia|exact Hfr]. }
    split; [congruence|]. split; [eapply only_reg_trans; eassumption|].
    intros j Hj. destruct (Z.eq_dec j hi) as [->|Hne].
    + rewrite (frame_peek _ _ _ _ r hi Hfr) by lia. congruence.
    + rewrite Hpt by lia. apply (frame_peek _ _ _ _ r (j - 1) Hfr1). lia.
Qed.

Lemma copy_class_cases (op_code : Z) (dst src : reg) :
  0 <= op_code < 32 -> copy_class op_code = Some (dst, src) ->
  forall s, alu_op op_code s = copy dst src s.
Proof.
  intros Hop Hclass. op_cases Hop; cbn in Hclass; try discriminate;
    injection Hclass as <- <-; reflexivity.
Qed.

Lemma clear_class_cases (op_code : Z) (dst : reg) :
  0 <= op_code < 32 -> clear_class op_code = Some dst ->
  forall s, alu_op op_code s = clear dst s.
Proof.
  intros Hop Hclass. op_cases Hop; cbn in Hclass; try discriminate;
    injection Hclass as <-; reflexivity.
Qed.

Lemma exchange_class_cases (op_code : Z) (x y : reg) :
  0 <= op_code < 32 -> exchange_class op_code = Some (x, y) ->
  x <> y /\ forall s, alu_op op_code s = exchange x y s.
Proof.
  intros Hop Hclass. op_cases Hop; cbn in Hclass; try discriminate;
    injection Hclass as <- <-; (split; [discriminate|reflexivity]).
Qed.

Lemma shift_right_class_cases (op_code : Z) (r : reg) :
  0 <= op_code < 32 -> shift_right_class op_code = Some r ->
  forall s, alu_op op_code s = shift_right r s.
Proof.
  intros Hop Hclass. op_cases Hop; cbn in Hclass; try discriminate;
    injection Hclass as <-; reflexivity.
Qed.

Lemma peek_ext (l l' : list Z) :
  (forall i, 0 <= i -> peek l i = peek l' i) -> l = l'.
Proof.
  intros Hpeek. apply nth_error_ext. intros n.
  specialize (Hpeek (Z.of_nat n) ltac:(lia)). unfold peek in Hpeek.
  destruct (Z.of_nat n <? 0) eqn:Hneg; [apply Z.ltb_lt in Hneg; lia|].
  rewrite Nat2Z.id in Hpeek. exact Hpeek.
Qed.

Lemma slice_bounds_p (l : Z) (st st' : cpu) :
  0 <= l < 256 -> p st' = p st ->
  slice_lo l st' = slice_lo l st /\ slice_hi l st' = slice_hi l st.
Proof.
  intros Hl Hp. apply select_slice_bounds; [apply slice_code_bound|]; exact Hl || exact Hp.
Qed.

Lemma frame_p (lo hi : Z) (st st' : cpu) : frame lo hi st st' -> p st' = p st.
Proof.
  intros (_ & Hc & _). unfold control in Hc. congruence.
Qed.

(** An exchange of the switch, seen from the whole microcycle. *)
Lemma execute_exchange (h l : Z) (st : cpu) (x y : reg) :
  0 <= h < 256 -> 0 <= l < 256 -> Z.land l 0x03 = 0x02 ->
  exchange_class (op_code_of h l) = Some (x, y) ->
  wf_cpu st ->
  exists st',
    execute h l st = Ok st' /\ wf_cpu st' /\ p st' = p st /\ carry st' = 0 /\
    (forall r, r <> x -> r <> y -> rget r st' = rget r st) /\
    (forall r j, ~ (slice_lo l st <= j <= slice_hi l st) ->
                 peek (rget r st') j = peek (rget r st) j) /\
    0 <= slice_lo l st /\
    forall j, slice_lo l st <= j <= slice_hi l st ->
              peek (rget x st') j = peek (rget y st) j /\
              peek (rget y st') j = peek (rget x st) j.
Proof.
  intros Hh Hl Hfam Hclass Hwf.
  destruct (arith_entry h l st Hh Hl Hfam Hwf)
    as (st2 & -> & Hwf2 & (Hlo & Hle & Hhi) & Hcy & Hf & Hla & Hregs & Hp).
  destruct (exchange_class_cases _ x y (op_code_bound h l Hh Hl) Hclass)
    as [Hxy ->].
  unfold exchange, for_up.
  destruct (iter_up_exchange x y (Z.to_nat (last st2 + 1 - first st2)) Hxy
              (first st2) st2 Hwf2 Hlo ltac:(lia))
    as (st' & -> & Hfr & Hcy' & Hrest & Hpt).
  rewrite Z2Nat.id in Hfr, Hpt by lia.
  replace (first st2 + (last st2 + 1 - first st2) - 1) with (last st2)
    in Hfr by lia.
  rewrite Hf, Hla in *.
  exists st'. split; [reflexivity|]. split; [exact (frame_wf _ _ _ _ Hfr)|].
  split; [rewrite (frame_p _ _ _ _ Hfr); exact Hp|]. split; [congruence|].
  split; [intros r Hrx Hry; rewrite Hrest, Hregs by assumption; reflexivity|].
  split.
  { intros r j Hj. rewrite (frame_peek _ _ _ _ r j Hfr Hj), Hregs.
    reflexivity. }
  split; [exact Hlo|].
  intros j Hj. destruct (Hpt j ltac:(lia)) as [-> ->]. rewrite !Hregs.
  split; reflexivity.
Qed.

(** X7.  The copying operations ([B->C], [A->B], [C->A]) make the slice of
    the target equal to the slice of the source, change no other register
    and leave [carry] at 0. *)
Theorem copy_transfers_slice (h l : Z) (st : cpu) (dst src : reg) :
  0 <= h < 256 -> 0 <= l < 256 -> Z.land l 0x03 = 0x02 ->
  copy_class (op_code_of h l) = Some (dst, src) ->
  wf_cpu st ->
  exists st',
    execute h l st = Ok st' /\
    only_reg dst st st' /\
    slice (rget dst st') (slice_lo l st) (slice_len l st) =
    slice (rget src st) (slice_lo l st) (slice_len l st) /\
    carry st' = 0.
Proof.
  intros Hh Hl Hfam Hclass Hwf.
  destruct (arith_entry h l st Hh Hl Hfam Hwf)
    as (st2 & -> & Hwf2 & (Hlo & Hle & Hhi) & Hcy & Hf & Hla & Hregs & _).
  rewrite (copy_class_cases _ dst src (op_code_bound h l Hh Hl) Hclass).
  unfold copy, for_up.
  destruct (iter_up_copy dst src (Z.to_nat (last st2 + 1 - first st2))
              (first st2) st2 Hwf2 Hlo ltac:(lia))
    as (st' & -> & Hfr & Hcy' & Honly & Hpt).
  rewrite Hf, Hla in *. fold (slice_len l st) in Hpt.
  exists st'. split; [reflexivity|]. split.
  { intros r Hr. rewrite Honly, Hregs by exact Hr. reflexivity. }
  split; [|congruence].
  rewrite <- (Hregs src). apply slice_frame; [exact Hlo|exact Hpt].
Qed.

Lemma copy_transfers_slice_witness :
  exists st',
    execute 0 0x8e ac_sample = Ok st' /\
    only_reg RC ac_sample st' /\
    slice (rget RC st') (slice_lo 0x8e ac_sample)
          (slice_len 0x8e ac_sample) =
    slice (rget RB ac_sample) (slice_lo 0x8e ac_sample)
          (slice_len 0x8e ac_sample) /\
    carry st' = 0.
Proof.
  apply (copy_transfers_slice 0 0x8e ac_sample RC RB);
    try lia; try reflexivity.
  split; [intros []; reflexivity|]. split; [reflexivity|cbn; lia].
Defined.

(** X8.  The clearing operations ([0->B], [0->C], [0->A]) fill the slice of
    their register with zeros, change no other register and leave [carry]
    at 0. *)
Theorem clear_zeroes_slice (h l : Z) (st : cpu) (dst : reg) :
  0 <= h < 256 -> 0 <= l < 256 -> Z.land l 0x03 = 0x02 ->
  clear_class (op_code_of h l) = Some dst ->
  wf_cpu st ->
  exists st',
    execute h l st = Ok st' /\
    only_reg dst st st' /\
    slice (rget dst st') (slice_lo l st) (slice_len l st) =
    repeat 0 (slice_len l st) /\
    carry st' = 0.
Proof.
  intros Hh Hl Hfam Hclass Hwf.
  destruct (arith_entry h l st Hh Hl Hfam Hwf)
    as (st2 & -> & Hwf2 & (Hlo & Hle & Hhi) & Hcy & Hf & Hla & Hregs & _).
  rewrite (clear_class_cases _ dst (op_code_bound h l Hh Hl) Hclass).
  unfold clear, for_up.
  destruct (iter_up_clear dst (Z.to_nat (last st2 + 1 - first st2))
              (first st2) st2 Hwf2 Hlo ltac:(lia))
    as (st' & -> & Hfr & Hcy' & Honly & Hpt).
  rewrite Hf, Hla in *. fold (slice_len l st) in Hpt.
  exists st'. split; [reflexivity|]. split.
  { intros r Hr. rewrite Honly, Hregs by exact Hr. reflexivity. }
  split; [|congruence].
  apply slice_repeat. intros i Hi. apply digit_of_peek_some, Hpt, Hi.
Qed.

Lemma clear_zeroes_slice_witness :
  exists st',
    execute 0 0xce ac_sample = Ok st' /\
    only_reg RC ac_sample st' /\
    slice (rget RC st') (slice_lo 0xce ac_sample)
          (slice_len 0xce ac_sample) =
    repeat 0 (slice_len 0xce ac_sample) /\
    carry st' = 0.
Proof.
  apply (clear_zeroes_slice 0 0xce ac_sample RC);
    try lia; try reflexivity.
  split; [intros []; reflexivity|]. split; [reflexivity|cbn; lia].
Defined.

(** X9.  The exchanging operations ([B<->C], [A<->B], [C<->A]) swap the
    slices of their two registers, change no other register and leave
    [carry] at 0. *)
Theorem exchange_swaps_slices (h l : Z) (st : cpu) (x y : reg) :
  0 <= h < 256 -> 0 <= l < 256 -> Z.land l 0x03 = 0x02 ->
  exchange_class (op_code_of h l) = Some (x, y) ->
  wf_cpu st ->
  exists st',
    execute h l st = Ok st' /\
    (forall r, r <> x -> r <> y -> rget r st' = rget r st) /\
    slice (rget x st') (slice_lo l st) (slice_len l st) =
    slice (rget y st) (slice_lo l st) (slice_len l st) /\
    slice (rget y st') (slice_lo l st) (slice_len l st) =
    slice (rget x st) (slice_lo l st) (slice_len l st) /\
    carry st' = 0.
Proof.
  intros Hh Hl Hfam Hclass Hwf.
  destruct (execute_exchange h l st x y Hh Hl Hfam Hclass Hwf)
    as (st' & Hrun & _ & _ & Hcy & Hrest & _ & Hlo & Hpt).
  exists st'. split; [exact Hrun|]. split; [exact Hrest|].
  assert (Hin : forall i,
            slice_lo l st <= i < slice_lo l st + Z.of_nat (slice_len l st) ->
            slice_lo l st <= i <= slice_hi l st)
    by (unfold slice_len; intros i Hi; lia).
  split; [|split; [|exact Hcy]].
  - apply slice_frame; [exact Hlo|]. intros i Hi. apply Hpt, Hin, Hi.
  - apply slice_frame; [exact Hlo|]. intros i Hi. apply Hpt, Hin, Hi.
Qed.

Lemma exchange_swaps_slices_witness :
  exists st',
    execute 3 0xae ac_sample = Ok st' /\
    (forall r, r <> RA -> r <> RC -> rget r st' = rget r ac_sample) /\
    slice (rget RA st') (slice_lo 0xae ac_sample)
          (slice_len 0xae ac_sample) =
    slice (rget RC ac_sample) (slice_lo 0xae ac_sample)
          (slice_len 0xae ac_sample) /\
    slice (rget RC st') (slice_lo 0xae ac_sample)
          (slice_len 0xae ac_sample) =
    slice (rget RA ac_sample) (slice_lo 0xae ac_sample)
          (slice_len 0xae ac_sample) /\
    carry st' = 0.
Proof.
  apply (exchange_swaps_slices 3 0xae ac_sample RA RC);
    try lia; try reflexivity.
  split; [intros []; reflexivity|]. split; [reflexivity|cbn; lia].
Defined.

(** X10.  Executing an exchanging operation twice gives every register its
    first contents back. *)
Theorem exchange_twice_restores (h l : Z) (st : cpu) (x y : reg) :
  0 <= h < 256 -> 0 <= l < 256 -> Z.land l 0x03 = 0x02 ->
  exchange_class (op_code_of h l) = Some (x, y) ->
  wf_cpu st ->
  exists st' st'',
    execute h l st = Ok st' /\ execute h l st' = Ok st'' /\
    forall r, rget r st'' = rget r st.
Proof.
  intros Hh Hl Hfam Hclass Hwf.
  destruct (execute_exchange h l st x y Hh Hl Hfam Hclass Hwf)
    as (st' & Hrun & Hwf' & Hp & _ & Hrest & Hout & Hlo & Hpt).
  destruct (execute_exchange h l st' x y Hh Hl Hfam Hclass Hwf')
    as (st'' & Hrun' & _ & _ & _ & Hrest' & Hout' & _ & Hpt').
  destruct (slice_bounds_p l st st' Hl Hp) as [Elo Ehi].
  rewrite Elo, Ehi in *.
  exists st', st''. split; [exact Hrun|]. split; [exact Hrun'|].
  intros r. apply peek_ext. intros i Hi.
  destruct (Z_le_dec (slice_lo l st) i) as [H1|H1];
    [destruct (Z_le_dec i (slice_hi l st)) as [H2|H2]|].
  - destruct (Hpt i ltac:(lia)) as [Hx Hy].
    destruct (Hpt' i ltac:(lia)) as [Hx' Hy'].
    destruct (reg_eq_dec r x) as [->|Hrx]; [congruence|].
    destruct (reg_eq_dec r y) as [->|Hry]; [congruence|].
    rewrite Hrest', Hrest by assumption. reflexivity.
  - rewrite Hout', Hout by lia. reflexivity.
  - rewrite Hout', Hout by lia. reflexivity.
Qed.

Lemma exchange_twice_restores_witness :
  exists st' st'',
    execute 3 0xae ac_sample = Ok st' /\ execute 3 0xae st' = Ok st'' /\
    forall r, rget r st'' = rget r ac_sample.
Proof.
  apply (exchange_twice_restores 3 0xae ac_sample RA RC);
    try lia; try reflexivity.
  split; [intros []; reflexivity|]. split; [reflexivity|cbn; lia].
Defined.

(** ** Shifts *)

Lemma wf_ac_sample : wf_cpu ac_sample.
Proof. split; [intros []; reflexivity|]. split; [reflexivity|cbn; lia]. Qed.

(** X11.  [Sh A Left] moves the digits of the slice of [A] one place up: the
    lowest digit becomes 0 and the highest one is dropped, so the slice,
    read as a number, is ten times what it was without its highest digit.
    No other register changes and [carry] is left at 0. *)
Theorem shift_left_times_ten (h l : Z) (st : cpu) :
  0 <= h < 256 -> 0 <= l < 256 -> Z.land l 0x03 = 0x02 ->
  op_code_of h l = 0x08 ->
  wf_cpu st ->
  exists st',
    execute h l st = Ok st' /\
    only_reg RA st st' /\
    slice (rget RA st') (slice_lo l st) (slice_len l st) =
    0 :: slice (rget RA st) (slice_lo l st) (slice_len l st - 1) /\
    decimal (slice (rget RA st') (slice_lo l st) (slice_len l st)) =
    10 * (decimal (slice (rget RA st) (slice_lo l st) (slice_len l st))
          - 10 ^ Z.of_nat (slice_len l st - 1)
            * digit_of (rget RA st) (slice_hi l st)) /\
    carry st' = 0.
Proof.
  intros Hh Hl Hfam Hop Hwf.
  destruct (arith_entry h l st Hh Hl Hfam Hwf)
    as (st2 & -> & Hwf2 & (Hlo & Hle & Hhi) & Hcy & Hf & Hla & Hregs & _).
  rewrite Hop. change (alu_op 8 st2) with (shift_left RA st2).
  unfold shift_left, for_down.
  destruct (iter_down_shift RA (Z.to_nat (last st2 - first st2)) (last st2)
              st2 Hwf2 ltac:(lia) Hhi)
    as (st1 & -> & Hfr1 & Hcy1 & Honly1 & Hpt). cbn [bind].
  destruct (frame_first_last _ _ _ _ Hfr1) as [-> _].
  destruct (wr_spec RA (first st2) 0 st1 (frame_wf _ _ _ _ Hfr1) ltac:(lia))
    as (st' & -> & Hfr & Hcy' & Honly & Hnew).
  rewrite Z2Nat.id in Hpt by lia.
  assert (Hlen : slice_len l st = S (Z.to_nat (last st2 - first st2))).
  { unfold slice_len. rewrite <- Hf, <- Hla. lia. }
  rewrite Hlen. replace (S (Z.to_nat (last st2 - first st2)) - 1)%nat
    with (Z.to_nat (last st2 - first st2)) by lia.
  rewrite <- Hf, <- Hla.
  set (m := Z.to_nat (last st2 - first st2)) in *.
  assert (Hsl : slice (rget RA st') (first st2) (S m) =
                0 :: slice (rget RA st) (first st2) m).
  { cbn [slice]. rewrite (digit_of_peek_some _ _ _ Hnew). f_equal.
    rewrite <- (Hregs RA).
    replace (first st2) with (first st2 + 1 + -1) at 2 by lia.
    apply slice_shift; [lia|lia|]. intros i Hi.
    rewrite (frame_peek _ _ _ _ RA i Hfr) by lia.
    rewrite Hpt by (unfold m in Hi; lia). reflexivity. }
  exists st'. split; [reflexivity|].
  split; [intros r Hr; rewrite Honly, Honly1, Hregs by exact Hr; reflexivity|].
  split; [exact Hsl|]. split; [|congruence].
  rewrite Hsl, slice_snoc, decimal_snoc, slice_length. cbn [decimal].
  replace (first st2 + Z.of_nat m) with (last st2) by (unfold m; lia).
  lia.
Qed.

Lemma shift_left_times_ten_witness :
  exists st',
    execute 1 0x0e ac_sample = Ok st' /\
    only_reg RA ac_sample st' /\
    slice (rget RA st') (slice_lo 0x0e ac_sample) (slice_len 0x0e ac_sample) =
    0 :: slice (rget RA ac_sample) (slice_lo 0x0e ac_sample)
           (slice_len 0x0e ac_sample - 1) /\
    decimal (slice (rget RA st') (slice_lo 0x0e ac_sample)
               (slice_len 0x0e ac_sample)) =
    10 * (decimal (slice (rget RA ac_sample) (slice_lo 0x0e ac_sample)
                     (slice_len 0x0e ac_sample))
          - 10 ^ Z.of_nat (slice_len 0x0e ac_sample - 1)
            * digit_of (rget RA ac_sample) (slice_hi 0x0e ac_sample)) /\
    carry st' = 0.
Proof.
  apply (shift_left_times_ten 1 0x0e ac_sample); try lia; try reflexivity.
  exact wf_ac_sample.
Defined.

(** X12.  The right shifts ([Sh C Right], [Sh B Right], [Sh A Right]) move
    the digits of the slice one place down: the lowest digit is dropped and
    the highest becomes 0, so the slice, read as a number, is divided by
    ten, the dropped digit being the remainder.  No other register changes
    and [carry] is left at 0. *)
Theorem shift_right_divides_by_ten (h l : Z) (st : cpu) (r : reg) :
  0 <= h < 256 -> 0 <= l < 256 -> Z.land l 0x03 = 0x02 ->
  shift_right_class (op_code_of h l) = Some r ->
  wf_cpu st ->
  exists st',
    execute h l st = Ok st' /\
    only_reg r st st' /\
    slice (rget r st') (slice_lo l st) (slice_len l st) =
    slice (rget r st) (slice_lo l st + 1) (slice_len l st - 1) ++ [0] /\
    decimal (slice (rget r st) (slice_lo l st) (slice_len l st)) =
    digit_of (rget r st) (slice_lo l st)
    + 10 * decimal (slice (rget r st') (slice_lo l st) (slice_len l st)) /\
    carry st' = 0.
Proof.
  intros Hh Hl Hfam Hclass Hwf.
  destruct (arith_entry h l st Hh Hl Hfam Hwf)
    as (st2 & -> & Hwf2 & (Hlo & Hle & Hhi) & Hcy & Hf & Hla & Hregs & _).
  rewrite (shift_right_class_cases _ r (op_code_bound h l Hh Hl) Hclass).
  unfold shift_right, for_up.
  replace (last st2 - 1 + 1 - first st2) with (last st2 - first st2) by lia.
  destruct (iter_up_shift r (Z.to_nat (last st2 - first st2)) (first st2)
              st2 Hwf2 Hlo ltac:(lia))
    as (st1 & -> & Hfr1 & Hcy1 & Honly1 & Hpt). cbn [bind].
  destruct (frame_first_last _ _ _ _ Hfr1) as [_ ->].
  destruct (wr_spec r (last st2) 0 st1 (frame_wf _ _ _ _ Hfr1) ltac:(lia))
    as (st' & -> & Hfr & Hcy' & Honly & Hnew).
  assert (Hlen : slice_len l st = S (Z.to_nat (last st2 - first st2))).
  { unfold slice_len. rewrite <- Hf, <- Hla. lia. }
  rewrite Hlen. replace (S (Z.to_nat (last st2 - first st2)) - 1)%nat
    with (Z.to_nat (last st2 - first st2)) by lia.
  rewrite <- Hf.
  set (m := Z.to_nat (last st2 - first st2)) in *.
  assert (Hsl : slice (rget r st') (first st2) (S m) =
                slice (rget r st) (first st2 + 1) m ++ [0]).
  { rewrite slice_snoc.
    replace (first st2 + Z.of_nat m) with (last st2) by (unfold m; lia).
    rewrite (digit_of_peek_some _ _ _ Hnew). f_equal.
    rewrite <- (Hregs r).
    apply slice_shift; [lia|lia|]. intros i Hi.
    rewrite (frame_peek _ _ _ _ r i Hfr) by (unfold m in Hi; lia).
    apply Hpt, Hi. }
  exists st'. split; [reflexivity|].
  split; [intros r' Hr; rewrite Honly, Honly1, Hregs by exact Hr;
          reflexivity|].
  split; [exact Hsl|]. split; [|congruence].
  rewrite Hsl, decimal_snoc. cbn [slice decimal]. lia.
Qed.

Lemma shift_right_divides_by_ten_witness :
  exists st',
    execute 2 0xce ac_sample = Ok st' /\
    only_reg RA ac_sample st' /\
    slice (rget RA st') (slice_lo 0xce ac_sample) (slice_len 0xce ac_sample) =
    slice (rget RA ac_sample) (slice_lo 0xce ac_sample + 1)
          (slice_len 0xce ac_sample - 1) ++ [0] /\
    decimal (slice (rget RA ac_sample) (slice_lo 0xce ac_sample)
               (slice_len 0xce ac_sample)) =
    digit_of (rget RA ac_sample) (slice_lo 0xce ac_sample)
    + 10 * decimal (slice (rget RA st') (slice_lo 0xce ac_sample)
                      (slice_len 0xce ac_sample)) /\
    carry st' = 0.
Proof.
  apply (shift_right_divides_by_ten 2 0xce ac_sample RA);
    try lia; try reflexivity.
  exact wf_ac_sample.
Defined.

(** ** Control transfers, pointer and status instructions *)

Lemma pc_latched (st : cpu) : pc (latched st) = pc st.
Proof. unfold latched. destruct (key_code st <? _END); reflexivity. Qed.

Lemma ret_latched (st : cpu) : ret (latched st) = ret st.
Proof. unfold latched. destruct (key_code st <? _END); reflexivity. Qed.

Lemma carry_latched (st : cpu) : carry (latched st) = carry st.
Proof. unfold latched. destruct (key_code st <? _END); reflexivity. Qed.

Lemma prevCarry_latched (st : cpu) : prevCarry (latched st) = prevCarry st.
Proof. unfold latched. destruct (key_code st <? _END); reflexivity. Qed.

Lemma key_code_latched (st : cpu) : (key_code (latched st) <? _END) = false.
Proof.
  unfold latched. destruct (key_code st <? _END) eqn:Hk; [reflexivity|exact Hk].
Qed.

Lemma latched_idle (st : cpu) : (key_code st <? _END) = false -> latched st = st.
Proof. unfold latched. intros ->. reflexivity. Qed.

Lemma rget_set_pc (r : reg) (v : Z) (st : cpu) :
  rget r (set_pc v st) = rget r st.
Proof. destruct r; reflexivity. Qed.

Lemma rget_set_ret (r : reg) (v : Z) (st : cpu) :
  rget r (set_ret v st) = rget r st.
Proof. destruct r; reflexivity. Qed.

Lemma wf_entry (st : cpu) : wf_cpu st -> wf_cpu (entry st).
Proof. intros Hwf. apply wf_latched. exact Hwf. Qed.

Lemma entry_idle (st : cpu) :
  (key_code st <? _END) = false -> entry st = set_pc ((pc st + 1) mod 256) st.
Proof. intros Hk. apply latched_idle. exact Hk. Qed.

(** X13.  A subroutine jump stores the address of the next instruction and
    goes to the address in its word; a return executed next continues at the
    instruction after the jump, with every register as before the jump. *)
Theorem call_return_resumes (h l h' l' : Z) (st : cpu) :
  0 <= h < 256 -> 0 <= l < 256 -> 0 <= h' < 256 -> 0 <= l' < 256 ->
  guard Call h l = true -> guard Return h' l' = true ->
  wf_cpu st ->
  exists st1 st2,
    execute h l st = Ok st1 /\
    pc st1 = Z.lor (Z.land (Z.shiftr l 2) 0x3f) (Z.land (Z.shiftl h 6) 0x0c0) /\
    execute h' l' st1 = Ok st2 /\
    pc st2 = (pc st + 1) mod 256 /\
    forall r, rget r st2 = rget r st.
Proof.
  intros Hh Hl Hh' Hl' Hcall Hret Hwf.
  rewrite (execute_guarded Call) by assumption. cbn [effect].
  fold (entry st). eexists. eexists. split; [reflexivity|].
  split; [reflexivity|].
  rewrite (execute_guarded Return)
    by (try assumption; exact (wf_entry st Hwf)).
  cbn [effect]. split; [reflexivity|]. split.
  - cbn [pc set_pc]. rewrite ret_latched. cbn [ret set_pc set_ret].
    unfold entry. rewrite pc_latched. reflexivity.
  - intros r. rewrite rget_set_pc, rget_entry, rget_set_pc, rget_set_ret.
    apply rget_entry.
Qed.

Lemma call_return_resumes_witness :
  exists st1 st2,
    execute 0 221 reset_cpu = Ok st1 /\
    pc st1 = Z.lor (Z.land (Z.shiftr 221 2) 0x3f)
                   (Z.land (Z.shiftl 0 6) 0x0c0) /\
    execute 0 48 st1 = Ok st2 /\
    pc st2 = (pc reset_cpu + 1) mod 256 /\
    forall r, rget r st2 = rget r reset_cpu.
Proof.
  apply (call_return_resumes 0 221 0 48 reset_cpu);
    try lia; try reflexivity.
  exact wf_reset.
Defined.

Lemma memcpy_firstn (dst src : list Z) :
  memcpy dst (firstn (Z.to_nat WSIZE) src) = memcpy dst src.
Proof.
  unfold memcpy. rewrite firstn_firstn, Nat.min_id. reflexivity.
Qed.

Lemma memcpy_parts (dst src : list Z) :
  (14 <= length src)%nat ->
  firstn (Z.to_nat WSIZE) (memcpy dst src) = firstn (Z.to_nat WSIZE) src /\
  skipn (Z.to_nat WSIZE) (memcpy dst src) = skipn (Z.to_nat WSIZE) dst.
Proof. intros Hsrc. split; [apply firstn_memcpy|apply skipn_memcpy]; exact Hsrc. Qed.

Lemma parts_eq (x y : list Z) :
  firstn (Z.to_nat WSIZE) x = firstn (Z.to_nat WSIZE) y ->
  skipn (Z.to_nat WSIZE) x = skipn (Z.to_nat WSIZE) y -> x = y.
Proof.
  intros Hf Hs. rewrite <- (firstn_skipn (Z.to_nat WSIZE) x), Hf, Hs.
  apply firstn_skipn.
Qed.

Lemma swap_regs (h l : Z) (st : cpu) :
  exists st',
    effect SwapCM h l st = Ok st' /\
    rget RC st' = memcpy (rget RC st) (rget RM st) /\
    rget RM st' = memcpy (rget RM st) (rget RC st) /\
    (forall r, r <> RC -> r <> RM -> rget r st' = rget r st) /\
    key_code st' = key_code st.
Proof.
  eexists. split; [reflexivity|]. cbn [rget set_m set_c c m].
  rewrite memcpy_firstn. repeat split.
  intros r Hc Hm. destruct r; try reflexivity; congruence.
Qed.

Lemma rotate_regs (h l : Z) (st : cpu) :
  exists st',
    effect RotateDown h l st = Ok st' /\
    rget RC st' = memcpy (rget RC st) (rget RD st) /\
    rget RD st' = memcpy (rget RD st) (rget RE st) /\
    rget RE st' = memcpy (rget RE st) (rget RF st) /\
    rget RF st' = memcpy (rget RF st) (rget RC st) /\
    rget RA st' = rget RA st /\ rget RB st' = rget RB st /\
    rget RM st' = rget RM st /\ rget RT st' = rget RT st.
Proof.
  eexists. split; [reflexivity|].
  cbn [rget set_c set_d set_e set_f c d e f a b m t].
  rewrite memcpy_firstn. repeat split.
Qed.

(** A microcycle of one family: it succeeds, keeps the state well formed and
    is the effect of the family on the entry state. *)
Lemma execute_family (k : family) (h l : Z) (st : cpu) :
  0 <= h < 256 -> 0 <= l < 256 -> wf_cpu st -> guard k h l = true ->
  status_family k = false ->
  exists st', execute h l st = Ok st' /\ effect k h l (entry st) = Ok st' /\
              wf_cpu st'.
Proof.
  intros Hh Hl Hwf Hg Hk. rewrite (execute_guarded k) by assumption.
  fold (entry st).
  destruct (effect_safe k h l (entry st) Hh Hl (wf_entry st Hwf))
    as [(st' & Hrun & Hwf')|(_ & Hst & _)]; [|congruence].
  exists st'. auto.
Qed.

(** X14.  [c<->m] exchanges the words of C and M: executed twice it gives
    every register its first contents back. *)
Theorem swap_CM_twice_restores (h l : Z) (st : cpu) :
  0 <= h < 256 -> 0 <= l < 256 -> guard SwapCM h l = true ->
  wf_cpu st ->
  exists st1 st2,
    execute h l st = Ok st1 /\
    firstn 14 (rget RC st1) = firstn 14 (rget RM st) /\
    firstn 14 (rget RM st1) = firstn 14 (rget RC st) /\
    execute h l st1 = Ok st2 /\
    forall r, rget r st2 = rget r st.
Proof.
  intros Hh Hl Hg Hwf.
  destruct (execute_family SwapCM h l st Hh Hl Hwf Hg eq_refl)
    as (st1 & Hrun1 & Heff1 & Hwf1).
  destruct (execute_family SwapCM h l st1 Hh Hl Hwf1 Hg eq_refl)
    as (st2 & Hrun2 & Heff2 & _).
  destruct (swap_regs h l (entry st)) as (x1 & Hx1 & Hc1 & Hm1 & Ho1 & _).
  destruct (swap_regs h l (entry st1)) as (x2 & Hx2 & Hc2 & Hm2 & Ho2 & _).
  assert (x1 = st1) by congruence. assert (x2 = st2) by congruence.
  subst x1 x2. unfold entry in Hc1, Hm1, Ho1, Hc2, Hm2, Ho2.
  strip_entry.
  assert (Hlen : forall r, (14 <= length (rget r st))%nat)
    by (intros r; destruct Hwf as [Hregs _]; rewrite Hregs; lia).
  exists st1, st2. split; [exact Hrun1|].
  split; [rewrite Hc1; apply (firstn_memcpy _ _ (Hlen RM))|].
  split; [rewrite Hm1; apply (firstn_memcpy _ _ (Hlen RC))|].
  split; [exact Hrun2|].
  intros r. destruct (reg_eq_dec r RC) as [->|Hc].
  { rewrite Hc2, Hc1, Hm1. apply memcpy_back; apply Hlen. }
  destruct (reg_eq_dec r RM) as [->|Hm].
  { rewrite Hm2, Hc1, Hm1. apply memcpy_back; apply Hlen. }
  rewrite (Ho2 r Hc Hm), rget_entry, (Ho1 r Hc Hm). apply rget_entry.
Qed.

Lemma swap_CM_twice_restores_witness :
  exists st1 st2,
    execute 0 0xa8 ac_sample = Ok st1 /\
    firstn 14 (rget RC st1) = firstn 14 (rget RM ac_sample) /\
    firstn 14 (rget RM st1) = firstn 14 (rget RC ac_sample) /\
    execute 0 0xa8 st1 = Ok st2 /\
    forall r, rget r st2 = rget r ac_sample.
Proof.
  apply (swap_CM_twice_restores 0 0xa8 ac_sample); try lia; try reflexivity.
  exact wf_ac_sample.
Defined.

Lemma rotate_step (h l : Z) (st : cpu) :
  0 <= h < 256 -> 0 <= l < 256 -> guard RotateDown h l = true ->
  wf_cpu st ->
  exists st',
    execute h l st = Ok st' /\ wf_cpu st' /\
    rget RC st' = memcpy (rget RC st) (rget RD st) /\
    rget RD st' = memcpy (rget RD st) (rget RE st) /\
    rget RE st' = memcpy (rget RE st) (rget RF st) /\
    rget RF st' = memcpy (rget RF st) (rget RC st) /\
    rget RA st' = rget RA st /\ rget RB st' = rget RB st /\
    rget RM st' = rget RM st /\ rget RT st' = rget RT st.
Proof.
  intros Hh Hl Hg Hwf.
  destruct (execute_family RotateDown h l st Hh Hl Hwf Hg eq_refl)
    as (st1 & Hrun1 & Heff1 & Hwf1).
  destruct (rotate_regs h l (entry st))
    as (x1 & Hx1 & Hc & Hd & He & Hf & Ha & Hb & Hm & Ht).
  assert (x1 = st1) by congruence. subst x1.
  unfold entry in Hc, Hd, He, Hf, Ha, Hb, Hm, Ht.
  strip_entry.
  exists st1. repeat (split; [assumption|]). assumption.
Qed.

(** X15.  [Rotate down] rolls the words of C, D, E and F: C takes the word
    of D, D that of E, E that of F and F that of C; executed four times it
    gives every register its first contents back. *)
Theorem rotate_down_four_times (h l : Z) (st : cpu) :
  0 <= h < 256 -> 0 <= l < 256 -> guard RotateDown h l = true ->
  wf_cpu st ->
  exists st1 st2 st3 st4,
    execute h l st = Ok st1 /\
    firstn 14 (rget RC st1) = firstn 14 (rget RD st) /\
    firstn 14 (rget RD st1) = firstn 14 (rget RE st) /\
    firstn 14 (rget RE st1) = firstn 14 (rget RF st) /\
    firstn 14 (rget RF st1) = firstn 14 (rget RC st) /\
    execute h l st1 = Ok st2 /\ execute h l st2 = Ok st3 /\
    execute h l st3 = Ok st4 /\
    forall r, rget r st4 = rget r st.
Proof.
  intros Hh Hl Hg Hwf.
  destruct (rotate_step h l st Hh Hl Hg Hwf)
    as (st1 & Hrun1 & Hwf1 & Hc1 & Hd1 & He1 & Hf1 & Ha1 & Hb1 & Hm1 & Ht1).
  destruct (rotate_step h l st1 Hh Hl Hg Hwf1)
    as (st2 & Hrun2 & Hwf2 & Hc2 & Hd2 & He2 & Hf2 & Ha2 & Hb2 & Hm2 & Ht2).
  destruct (rotate_step h l st2 Hh Hl Hg Hwf2)
    as (st3 & Hrun3 & Hwf3 & Hc3 & Hd3 & He3 & Hf3 & Ha3 & Hb3 & Hm3 & Ht3).
  destruct (rotate_step h l st3 Hh Hl Hg Hwf3)
    as (st4 & Hrun4 & Hwf4 & Hc4 & Hd4 & He4 & Hf4 & Ha4 & Hb4 & Hm4 & Ht4).
  assert (Hlen : forall s0 r, wf_cpu s0 -> (14 <= length (rget r s0))%nat).
  { intros s0 r [Hregs _]. rewrite Hregs. lia. }
  pose proof (Hlen st) as L0. pose proof (Hlen st1) as L1.
  pose proof (Hlen st2) as L2. pose proof (Hlen st3) as L3.
  exists st1, st2, st3, st4. split; [exact Hrun1|].
  split; [rewrite Hc1; apply firstn_memcpy; auto|].
  split; [rewrite Hd1; apply firstn_memcpy; auto|].
  split; [rewrite He1; apply firstn_memcpy; auto|].
  split; [rewrite Hf1; apply firstn_memcpy; auto|].
  split; [exact Hrun2|]. split; [exact Hrun3|]. split; [exact Hrun4|].
  assert (Hword : forall x y : list Z, (14 <= length y)%nat ->
            firstn (Z.to_nat WSIZE) (memcpy x y) = firstn (Z.to_nat WSIZE) y)
    by (intros; apply firstn_memcpy; assumption).
  assert (Htail : forall x y : list Z, (14 <= length y)%nat ->
            skipn (Z.to_nat WSIZE) (memcpy x y) = skipn (Z.to_nat WSIZE) x)
    by (intros; apply skipn_memcpy; assumption).
  intros r. destruct r.
  - congruence.
  - congruence.
  - apply parts_eq.
    + rewrite Hc4, Hword, Hd3, Hword, He2, Hword, Hf1, Hword by auto.
      reflexivity.
    + rewrite Hc4, Htail, Hc3, Htail, Hc2, Htail, Hc1, Htail by auto.
      reflexivity.
  - apply parts_eq.
    + rewrite Hd4, Hword, He3, Hword, Hf2, Hword, Hc1, Hword by auto.
      reflexivity.
    + rewrite Hd4, Htail, Hd3, Htail, Hd2, Htail, Hd1, Htail by auto.
      reflexivity.
  - apply parts_eq.
    + rewrite He4, Hword, Hf3, Hword, Hc2, Hword, Hd1, Hword by auto.
      reflexivity.
    + rewrite He4, Htail, He3, Htail, He2, Htail, He1, Htail by auto.
      reflexivity.
  - apply parts_eq.
    + rewrite Hf4, Hword, Hc3, Hword, Hd2, Hword, He1, Hword by auto.
      reflexivity.
    + rewrite Hf4, Htail, Hf3, Htail, Hf2, Htail, Hf1, Htail by auto.
      reflexivity.
  - congruence.
  - congruence.
Qed.

Lemma rotate_down_four_times_witness :
  exists st1 st2 st3 st4,
    execute 3 0x28 ac_sample = Ok st1 /\
    firstn 14 (rget RC st1) = firstn 14 (rget RD ac_sample) /\
    firstn 14 (rget RD st1) = firstn 14 (rget RE ac_sample) /\
    firstn 14 (rget RE st1) = firstn 14 (rget RF ac_sample) /\
    firstn 14 (rget RF st1) = firstn 14 (rget RC ac_sample) /\
    execute 3 0x28 st1 = Ok st2 /\ execute 3 0x28 st2 = Ok st3 /\
    execute 3 0x28 st3 = Ok st4 /\
    forall r, rget r st4 = rget r ac_sample.
Proof.
  apply (rotate_down_four_times 3 0x28 ac_sample); try lia; try reflexivity.
  exact wf_ac_sample.
Defined.

Lemma p_entry (st : cpu) : p (entry st) = p st.
Proof. unfold entry. rewrite p_latched. reflexivity. Qed.

Lemma land_15 (x : Z) : Z.land x 0x0f = x mod 16.
Proof. change 0x0f with (Z.ones 4). apply Z.land_ones. lia. Qed.

(** X16.  A status bit written by [Set s] or [Clear s] is what [Set carry
    due to status] of the same bit reads when it is executed directly after:
    [carry] becomes 1 after a set and 0 after a clear. *)
Theorem status_write_then_test (h l h' l' v : Z) (st : cpu) :
  0 <= h < 256 -> 0 <= l < 256 -> 0 <= h' < 256 -> 0 <= l' < 256 ->
  (guard SetStatus h l = true /\ v = 1) \/
  (guard ClearStatus h l = true /\ v = 0) ->
  guard TestStatus h' l' = true ->
  bitsel h' l' = bitsel h l -> bitsel h l < 12 ->
  wf_cpu st ->
  exists st1 st2,
    execute h l st = Ok st1 /\ execute h' l' st1 = Ok st2 /\ carry st2 = v.
Proof.
  intros Hh Hl Hh' Hl' Hwrite Htest Hsame Hsel Hwf.
  pose proof (bitsel_bound h l Hh Hl) as Hb.
  pose proof (wf_entry st Hwf) as Hwfe.
  assert (Hrun1 : execute h l st =
                  wr_status (bitsel h l) v (entry st)).
  { destruct Hwrite as [[Hg ->]|[Hg ->]];
      [rewrite (execute_guarded SetStatus) by assumption
      |rewrite (execute_guarded ClearStatus) by assumption]; reflexivity. }
  rewrite wr_status_ok in Hrun1 by (auto; lia).
  set (st1 := set_s (poke (s (entry st)) (bitsel h l) v) (entry st)) in *.
  assert (Hin : in_range (s (entry st)) (bitsel h l) = true).
  { apply in_range_bounds. destruct Hwfe as (_ & -> & _). lia. }
  assert (Hwf1 : wf_cpu st1).
  { apply wf_set_s; [exact Hwfe|]. rewrite poke_length. apply Hwfe. }
  assert (Hidle : (key_code st1 <? _END) = false)
    by exact (key_code_latched _).
  exists st1. eexists. split; [exact Hrun1|].
  rewrite (execute_guarded TestStatus) by assumption.
  fold (entry st1). rewrite (entry_idle st1 Hidle). cbn [effect].
  unfold rd_status. cbn [s set_pc]. rewrite Hsame.
  change (s st1) with (poke (s (entry st)) (bitsel h l) v).
  rewrite (peek_poke_eq _ _ _ Hin). cbn [bind].
  split; reflexivity.
Qed.

Lemma status_write_then_test_witness :
  exists st1 st2,
    execute 1 0x44 reset_cpu = Ok st1 /\ execute 1 0x54 st1 = Ok st2 /\
    carry st2 = 1.
Proof.
  apply (status_write_then_test 1 0x44 1 0x54 1 reset_cpu);
    try lia; try reflexivity.
  - left. split; reflexivity.
  - exact wf_reset.
Defined.

(** X17.  [p+1] and [p-1] step the pointer modulo 16 and undo each other:
    after an increment the pointer is [(p + 1) mod 16], and a decrement
    executed next gives the first pointer back. *)
Theorem pointer_inc_dec (h l h' l' : Z) (st : cpu) :
  0 <= h < 256 -> 0 <= l < 256 -> 0 <= h' < 256 -> 0 <= l' < 256 ->
  guard IncP h l = true -> guard DecP h' l' = true ->
  wf_cpu st ->
  exists st1 st2,
    execute h l st = Ok st1 /\ p st1 = (p st + 1) mod 16 /\
    execute h' l' st1 = Ok st2 /\ p st2 = p st /\
    forall r, rget r st2 = rget r st.
Proof.
  intros Hh Hl Hh' Hl' Hinc Hdec Hwf.
  destruct (execute_family IncP h l st Hh Hl Hwf Hinc eq_refl)
    as (st1 & Hrun1 & Heff1 & Hwf1).
  destruct (execute_family DecP h' l' st1 Hh' Hl' Hwf1 Hdec eq_refl)
    as (st2 & Hrun2 & Heff2 & _).
  cbn [effect] in Heff1, Heff2. injection Heff1 as <-. injection Heff2 as <-.
  eexists. eexists. split; [exact Hrun1|].
  split; [cbn [p set_p]; rewrite p_entry; apply land_15|].
  split; [exact Hrun2|]. split.
  - cbn [p set_p]. rewrite p_entry. cbn [p set_p]. rewrite p_entry.
    rewrite !land_15, Zminus_mod_idemp_l.
    replace (p st + 1 - 1) with (p st) by lia.
    apply Z.mod_small. apply Hwf.
  - intros r.
    change (rget r (entry (set_p (Z.land (p (entry st) + 1) 15) (entry st))) =
            rget r st).
    unfold entry at 1. rewrite rget_entry.
    change (rget r (entry st) = rget r st). apply rget_entry.
Qed.

Lemma pointer_inc_dec_witness :
  exists st1 st2,
    execute 0 0x3c reset_cpu = Ok st1 /\ p st1 = (p reset_cpu + 1) mod 16 /\
    execute 0 0x1c st1 = Ok st2 /\ p st2 = p reset_cpu /\
    forall r, rget r st2 = rget r reset_cpu.
Proof.
  apply (pointer_inc_dec 0 0x3c 0 0x1c reset_cpu); try lia; try reflexivity.
  exact wf_reset.
Defined.

Lemma refresh_pc_carry (st : cpu) (sh : shell) :
  pc (cpu_of (refresh (mkMachine st sh))) = pc st /\
  carry (cpu_of (refresh (mkMachine st sh))) = carry st.
Proof.
  unfold refresh. cbn [cpu_of shell_of].
  destruct (display_enable st); [split; reflexivity|].
  destruct (display_update st); split; reflexivity.
Qed.

(** X18.  A conditional branch is taken exactly when the microcycle before
    it left [carry] different from 1: the next address is then the one in
    the word, otherwise the following one.  Either way [carry] is 0 after
    the branch. *)
Theorem branch_on_previous_carry (h l : Z) (mc : machine) :
  fetch (cpu_of mc) = Ok (h, l) -> guard Branch h l = true ->
  wf_cpu (cpu_of mc) ->
  exists mc',
    microcycle mc = Ok mc' /\
    pc (cpu_of mc') =
      (if carry (cpu_of mc) =? 1 then (pc (cpu_of mc) + 1) mod 256
       else Z.lor (Z.shiftr (Z.land l 0xfc) 2) (Z.shiftl (Z.land h 0x03) 6)) /\
    carry (cpu_of mc') = 0.
Proof.
  intros Hfetch Hg Hwf. destruct (fetch_plain _ _ _ Hfetch) as (Hh & Hl & _).
  unfold microcycle.
  set (st := set_carry 0 (set_prevCarry (carry (cpu_of mc)) (cpu_of mc))).
  change (fetch st) with (fetch (cpu_of mc)). rewrite Hfetch.
  cbn [bind fst snd].
  assert (Hwfs : wf_cpu st) by exact Hwf.
  rewrite (execute_guarded Branch) by assumption. fold (entry st).
  cbn [effect bind]. eexists. split; [reflexivity|].
  destruct (refresh_pc_carry
              (if negb (prevCarry (entry st) =? 1)
               then set_pc (Z.lor (Z.shiftr (Z.land l 252) 2)
                                  (Z.shiftl (Z.land h 3) 6)) (entry st)
               else entry st) (shell_of mc)) as [-> ->].
  unfold entry. rewrite prevCarry_latched.
  change (prevCarry (set_pc ((pc st + 1) mod 256) st))
    with (carry (cpu_of mc)).
  destruct (carry (cpu_of mc) =? 1); cbn [negb pc carry set_pc];
    rewrite ?pc_latched, carry_latched; split; reflexivity.
Qed.

Lemma branch_on_previous_carry_witness :
  exists mc',
    microcycle (mkMachine (set_pc 1 reset_cpu) reset_shell) = Ok mc' /\
    pc (cpu_of mc') =
      (if carry (cpu_of (mkMachine (set_pc 1 reset_cpu) reset_shell)) =? 1
       then (pc (cpu_of (mkMachine (set_pc 1 reset_cpu) reset_shell)) + 1)
            mod 256
       else Z.lor (Z.shiftr (Z.land 255 0xfc) 2)
                  (Z.shiftl (Z.land 2 0x03) 6)) /\
    carry (cpu_of mc') = 0.
Proof.
  apply (branch_on_previous_carry 2 255
           (mkMachine (set_pc 1 reset_cpu) reset_shell)); try reflexivity.
  exact wf_reset.
Defined.

(** ** The registers only ever hold decimal digits *)

Lemma Forall_firstn {X : Type} (P : X -> Prop) (n : nat) :
  forall l, Forall P l -> Forall P (firstn n l).
Proof.
  induction n as [|n IH]; intros l Hl; [constructor|].
  destruct Hl as [|x l Hx Hl]; cbn [firstn]; constructor; auto.
Qed.

Lemma Forall_skipn {X : Type} (P : X -> Prop) (n : nat) :
  forall l, Forall P l -> Forall P (skipn n l).
Proof.
  induction n as [|n IH]; intros l Hl; [exact Hl|].
  destruct Hl as [|x l Hx Hl]; cbn [skipn]; [constructor|auto].
Qed.

Lemma Forall_poke_nat {X : Type} (P : X -> Prop) (v : X) (l : list X) :
  Forall P l -> P v -> forall n, Forall P (poke_nat l n v).
Proof.
  intros Hl Hv. induction Hl as [|x l Hx Hl IH]; intros n; [constructor|].
  destruct n as [|n]; cbn [poke_nat]; constructor; auto.
Qed.

Lemma Forall_poke {X : Type} (P : X -> Prop) (l : list X) (i : Z) (v : X) :
  Forall P l -> P v -> Forall P (poke l i v).
Proof.
  intros Hl Hv. unfold poke. destruct (i <? 0); [exact Hl|].
  apply Forall_poke_nat; assumption.
Qed.

Lemma peek_Forall {X : Type} (P : X -> Prop) (l : list X) (i : Z) (v : X) :
  Forall P l -> peek l i = Some v -> P v.
Proof.
  intros Hl. unfold peek. destruct (i <? 0); [discriminate|].
  intros Hnth. apply nth_error_In in Hnth.
  rewrite Forall_forall in Hl. apply Hl, Hnth.
Qed.

Lemma Forall_memcpy (P : Z -> Prop) (dst src : list Z) :
  Forall P dst -> Forall P src -> Forall P (memcpy dst src).
Proof.
  intros Hd Hs. unfold memcpy. apply Forall_app. split.
  - apply Forall_firstn, Hs.
  - apply Forall_skipn, Hd.
Qed.

Lemma Forall_zero_word (dst : list Z) :
  Forall is_digit dst -> Forall is_digit (zero_word dst).
Proof.
  intros Hd. unfold zero_word. apply Forall_app. split.
  - apply Forall_forall. intros x Hx. apply repeat_spec in Hx. subst x.
    unfold is_digit. lia.
  - apply Forall_skipn, Hd.
Qed.

Lemma digits_rset (r : reg) (v : list Z) (st : cpu) :
  digits st -> Forall is_digit v -> digits (rset r v st).
Proof.
  intros Hd Hv r'. destruct (reg_eq_dec r r') as [<-|Hne].
  - rewrite rget_rset_eq. exact Hv.
  - rewrite rget_rset_ne by exact Hne. apply Hd.
Qed.

Lemma rd_digit (r : reg) (i : Z) (st : cpu) (v : Z) :
  digits st -> rd r i st = Ok v -> is_digit v.
Proof.
  intros Hd. unfold rd. destruct (peek (rget r st) i) as [x|] eqn:Hp;
    [|discriminate].
  intros Hrun. injection Hrun as <-. exact (peek_Forall _ _ _ _ (Hd r) Hp).
Qed.

Lemma good_set_carry (v : Z) (st : cpu) :
  good st -> 0 <= v <= 1 -> good (set_carry v st).
Proof. intros (Hwf & Hd & _) Hv. split; [exact Hwf|]. split; assumption. Qed.

Lemma wr_good (r : reg) (i v : Z) (st : cpu) :
  good st -> 0 <= i < 16 -> is_digit v ->
  exists st', wr r i v st = Ok st' /\ good st'.
Proof.
  intros (Hwf & Hd & Hc) Hi Hv.
  destruct (wr_frame i i r i v st Hwf ltac:(lia) ltac:(lia) ltac:(lia))
    as (st' & Hrun & Hfr & Hcy).
  exists st'. split; [exact Hrun|]. split; [exact (frame_wf _ _ _ _ Hfr)|].
  split; [|lia].
  rewrite wr_ok in Hrun by assumption. injection Hrun as <-.
  apply digits_rset; [exact Hd|]. apply Forall_poke; [apply Hd|exact Hv].
Qed.

Lemma rd_good (r : reg) (i : Z) (st : cpu) :
  good st -> 0 <= i < 16 -> exists v, rd r i st = Ok v /\ is_digit v.
Proof.
  intros (Hwf & Hd & _) Hi. destruct (rd_ok r i st Hwf Hi) as (v & Hrd & _).
  exists v. split; [exact Hrd|]. exact (rd_digit _ _ _ _ Hd Hrd).
Qed.

Lemma operand_good (o : operand) (i : Z) (st : cpu) :
  good st -> operand_ok o -> 0 <= i < 16 ->
  exists v, operand_at o i st = Ok v /\ is_digit v.
Proof.
  intros Hg Ho Hi. destruct o as [r|z]; cbn [operand_at].
  - apply rd_good; assumption.
  - exists z. split; [reflexivity|exact Ho].
Qed.

Lemma for_up_good (body : Z -> cpu -> result cpu) (lo hi : Z) (st : cpu) :
  (forall i st1, lo <= i <= hi -> good st1 ->
     exists st2, body i st1 = Ok st2 /\ good st2) ->
  good st -> exists st', for_up lo hi body st = Ok st' /\ good st'.
Proof.
  intros Hbody Hg. unfold for_up. apply (iter_up_inv good); [|exact Hg].
  intros i st1 Hi Hg1. apply Hbody; [lia|exact Hg1].
Qed.

Lemma for_down_good (body : Z -> cpu -> result cpu) (hi lo : Z) (st : cpu) :
  (forall i st1, lo < i <= hi -> good st1 ->
     exists st2, body i st1 = Ok st2 /\ good st2) ->
  good st -> exists st', for_down hi lo body st = Ok st' /\ good st'.
Proof.
  intros Hbody Hg. unfold for_down. apply (iter_down_inv good); [|exact Hg].
  intros i st1 Hi Hg1. apply Hbody; [lia|exact Hg1].
Qed.

Lemma alu_good (prim : Z -> Z -> Z -> Z * Z) (sg : Z) (dst : reg)
    (x y : operand) (st : cpu) :
  digit_law prim sg -> operand_ok x -> operand_ok y ->
  good st -> slice_ok st ->
  exists st', alu prim dst x y st = Ok st' /\ good st'.
Proof.
  intros Hlaw Hx Hy Hg (Hlo & Hle & Hhi). unfold alu.
  apply for_up_good; [|exact Hg]. intros i st1 Hi Hg1. unfold alu_step.
  destruct (operand_good x i st1 Hg1 Hx ltac:(lia)) as (xv & -> & Hxv).
  destruct (operand_good y i st1 Hg1 Hy ltac:(lia)) as (yv & -> & Hyv).
  cbn [bind].
  destruct (Hlaw xv yv (carry st1) Hxv Hyv ltac:(apply Hg1))
    as (Hres & Hcy & _).
  destruct (prim xv yv (carry st1)) as [res cy]. cbn [fst snd] in Hres, Hcy.
  apply wr_good; [apply good_set_carry; assumption|lia|exact Hres].
Qed.

Lemma test_good (r : reg) (v : Z) (st : cpu) :
  0 <= v <= 1 -> good st -> slice_ok st ->
  exists st', test r v st = Ok st' /\ good st'.
Proof.
  intros Hv Hg (Hlo & Hle & Hhi). unfold test.
  apply for_up_good; [|exact Hg]. intros i st1 Hi Hg1.
  destruct (rd_good r i st1 Hg1 ltac:(lia)) as (x & -> & _). cbn [bind].
  eexists. split; [reflexivity|].
  destruct (x =? 0); [exact Hg1|apply good_set_carry; assumption].
Qed.

Lemma clear_good (dst : reg) (st : cpu) :
  good st -> slice_ok st -> exists st', clear dst st = Ok st' /\ good st'.
Proof.
  intros Hg (Hlo & Hle & Hhi). unfold clear.
  apply for_up_good; [|exact Hg]. intros i st1 Hi Hg1.
  apply wr_good; [exact Hg1|lia|unfold is_digit; lia].
Qed.

Lemma copy_good (dst src : reg) (st : cpu) :
  good st -> slice_ok st -> exists st', copy dst src st = Ok st' /\ good st'.
Proof.
  intros Hg (Hlo & Hle & Hhi). unfold copy.
  apply for_up_good; [|exact Hg]. intros i st1 Hi Hg1.
  destruct (rd_good src i st1 Hg1 ltac:(lia)) as (x & -> & Hx). cbn [bind].
  apply wr_good; [exact Hg1|lia|exact Hx].
Qed.

Lemma exchange_good (x y : reg) (st : cpu) :
  good st -> slice_ok st -> exists st', exchange x y st = Ok st' /\ good st'.
Proof.
  intros Hg (Hlo & Hle & Hhi). unfold exchange.
  apply for_up_good; [|exact Hg]. intros i st1 Hi Hg1.
  destruct (rd_good x i st1 Hg1 ltac:(lia)) as (tmp & -> & Htmp). cbn [bind].
  destruct (rd_good y i st1 Hg1 ltac:(lia)) as (yv & -> & Hyv). cbn [bind].
  destruct (wr_good x i yv st1 Hg1 ltac:(lia) Hyv) as (st2 & -> & Hg2).
  cbn [bind]. apply wr_good; [exact Hg2|lia|exact Htmp].
Qed.

Lemma shift_left_good (r : reg) (st : cpu) :
  good st -> slice_ok st ->
  exists st', shift_left r st = Ok st' /\ good st'.
Proof.
  intros Hg (Hlo & Hle & Hhi). unfold shift_left.
  destruct (shift_left_frame r st ltac:(apply Hg) ltac:(repeat split; lia))
    as (stf & Hrunf & Hfrf).
  unfold shift_left in Hrunf.
  destruct (for_down_good
              (fun i st0 => x <- rd r (i - 1) st0 ;; wr r i x st0)
              (last st) (first st) st) as (st1 & Hrun1 & Hg1); [|exact Hg|].
  - intros i st1 Hi Hg1.
    destruct (rd_good r (i - 1) st1 Hg1 ltac:(lia)) as (x & -> & Hx).
    cbn [bind]. apply wr_good; [exact Hg1|lia|exact Hx].
  - rewrite Hrun1 in *. cbn [bind] in *.
    assert (Hin : 0 <= first st1 < 16).
    { destruct (wr r (first st1) 0 st1) as [s1|ft] eqn:Hw; [|discriminate].
      unfold wr in Hw.
      destruct (in_range (rget r st1) (first st1)) eqn:Hr; [|discriminate].
      apply in_range_bounds in Hr. destruct Hg1 as ((Hregs & _) & _).
      rewrite Hregs in Hr. lia. }
    apply wr_good; [exact Hg1|exact Hin|unfold is_digit; lia].
Qed.

Lemma shift_right_good (r : reg) (st : cpu) :
  good st -> slice_ok st ->
  exists st', shift_right r st = Ok st' /\ good st'.
Proof.
  intros Hg (Hlo & Hle & Hhi). unfold shift_right.
  destruct (shift_right_frame r st ltac:(apply Hg) ltac:(repeat split; lia))
    as (stf & Hrunf & Hfrf).
  unfold shift_right in Hrunf.
  destruct (for_up_good
              (fun i st0 => x <- rd r (i + 1) st0 ;; wr r i x st0)
              (first st) (last st - 1) st) as (st1 & Hrun1 & Hg1);
    [|exact Hg|].
  - intros i st1 Hi Hg1.
    destruct (rd_good r (i + 1) st1 Hg1 ltac:(lia)) as (x & -> & Hx).
    cbn [bind]. apply wr_good; [exact Hg1|lia|exact Hx].
  - rewrite Hrun1 in *. cbn [bind] in *.
    assert (Hin : 0 <= last st1 < 16).
    { destruct (wr r (last st1) 0 st1) as [s1|ft] eqn:Hw; [|discriminate].
      unfold wr in Hw.
      destruct (in_range (rget r st1) (last st1)) eqn:Hr; [|discriminate].
      apply in_range_bounds in Hr. destruct Hg1 as ((Hregs & _) & _).
      rewrite Hregs in Hr. lia. }
    apply wr_good; [exact Hg1|exact Hin|unfold is_digit; lia].
Qed.

Lemma alu_op_good (op_code : Z) (st : cpu) :
  good st -> slice_ok st -> 0 <= op_code < 32 ->
  exists st', alu_op op_code st = Ok st' /\ good st'.
Proof.
  intros Hg Hsl Hop.
  assert (Hg1 : good (set_carry 1 st)) by (apply good_set_carry; [exact Hg|lia]).
  assert (Hsl1 : slice_ok (set_carry 1 st)) by exact Hsl.
  assert (H0 : operand_ok (Imm 0)) by (cbn; unfold is_digit; lia).
  assert (Hr : forall r, operand_ok (Reg r)) by (intros r; exact I).
  op_cases Hop; cbn [alu_op Z.of_nat Pos.of_succ_nat Pos.succ];
    first
      [ apply test_good; [lia|assumption..]
      | apply clear_good; assumption
      | apply copy_good; assumption
      | apply exchange_good; assumption
      | apply shift_left_good; assumption
      | apply shift_right_good; assumption
      | apply (alu_good do_add 1); auto using do_add_law
      | apply (alu_good do_sub (-1)); auto using do_sub_law ].
Qed.

(** ** One microcycle keeps the processor invariant *)

Lemma rom_pairs_ok : forallb rom_pair_ok (pairs rom) = true.
Proof. vm_compute. reflexivity. Qed.

Lemma fetch_pairs (st : cpu) (h l : Z) :
  fetch st = Ok (h, l) -> In (h, l) (pairs rom).
Proof.
  unfold fetch, peek. intros Hrun.
  destruct (offset st * 256 * 2 + pc st * 2 <? 0) eqn:E1; [discriminate|].
  destruct (offset st * 256 * 2 + pc st * 2 + 1 <? 0) eqn:E2;
    [destruct (nth_error rom _); discriminate|].
  apply Z.ltb_ge in E1.
  destruct (nth_error rom (Z.to_nat (offset st * 256 * 2 + pc st * 2)))
    as [hb|] eqn:Hh; [|discriminate].
  destruct (nth_error rom (Z.to_nat (offset st * 256 * 2 + pc st * 2 + 1)))
    as [lb|] eqn:Hl; [|discriminate].
  injection Hrun as -> ->.
  apply (nth_error_In _ (Z.to_nat (offset st * 256 + pc st))).
  apply pairs_nth_error.
  - rewrite <- Hh. f_equal. lia.
  - rewrite <- Hl. f_equal. lia.
Qed.

Lemma fetch_ok (st : cpu) (h l : Z) :
  fetch st = Ok (h, l) -> rom_pair_ok (h, l) = true.
Proof.
  intros Hrun. pose proof rom_pairs_ok as Hall.
  rewrite forallb_forall in Hall. apply Hall, (fetch_pairs st), Hrun.
Qed.

Lemma fetch_in_image (st : cpu) :
  0 <= pc st < 256 -> 0 <= offset st <= 2 -> exists h l, fetch st = Ok (h, l).
Proof.
  intros Hpc Hoff. unfold fetch.
  destruct (peek_rom (offset st * 256 * 2 + pc st * 2) ltac:(lia)) as [h ->].
  destruct (peek_rom (offset st * 256 * 2 + pc st * 2 + 1) ltac:(lia))
    as [l ->].
  eauto.
Qed.

Lemma target_bounds (h l : Z) :
  0 <= h < 256 -> 0 <= l < 256 ->
  0 <= Z.lor (Z.land (Z.shiftr l 2) 0x3f) (Z.land (Z.shiftl h 6) 0x0c0) < 256 /\
  0 <= Z.lor (Z.shiftr (Z.land l 0xfc) 2) (Z.shiftl (Z.land h 0x03) 6) < 256.
Proof.
  intros Hh Hl.
  pose proof (for_all_pairs_spec
                (fun h l =>
                   let x := Z.lor (Z.land (Z.shiftr l 2) 0x3f)
                                  (Z.land (Z.shiftl h 6) 0x0c0) in
                   let y := Z.lor (Z.shiftr (Z.land l 0xfc) 2)
                                  (Z.shiftl (Z.land h 0x03) 6) in
                   (0 <=? x) && (x <? 256) && (0 <=? y) && (y <? 256))
                ltac:(vm_compute; reflexivity) h l Hh Hl) as Hb.
  cbv beta zeta in Hb.
  repeat (apply andb_prop in Hb; destruct Hb as [Hb ?]).
  repeat match goal with
         | H : (_ <=? _) = true |- _ => apply Z.leb_le in H
         | H : (_ <? _) = true |- _ => apply Z.ltb_lt in H
         end.
  lia.
Qed.

Lemma offset_latched (st : cpu) : offset (latched st) = offset st.
Proof. unfold latched. destruct (key_code st <? _END); reflexivity. Qed.

Lemma cpu_inv_entry (st : cpu) : cpu_inv st -> cpu_inv (entry st).
Proof.
  intros (Hwf & Hd & Hpc & Hret & Hoff & Hkr & Hkc).
  split; [apply wf_entry, Hwf|].
  split; [intros r; unfold entry; rewrite rget_entry; apply Hd|].
  unfold entry. rewrite pc_latched, ret_latched, offset_latched.
  cbn [pc ret offset set_pc].
  split; [apply Z.mod_pos_bound; lia|]. split; [exact Hret|].
  split; [exact Hoff|].
  unfold latched. cbn [key_code key_rom set_pc].
  destruct (key_code st <? _END); cbn; unfold _END; lia.
Qed.

Lemma select_slice_control (code : Z) (st : cpu) :
  0 <= code < 8 ->
  pc (select_slice code st) = pc st /\
  ret (select_slice code st) = ret st /\
  offset (select_slice code st) = offset st /\
  key_rom (select_slice code st) = key_rom st /\
  key_code (select_slice code st) = key_code st.
Proof.
  intros Hcode.
  assert (Hcases : In code (map Z.of_nat (seq 0 8))).
  { replace code with (Z.of_nat (Z.to_nat code)) by lia.
    apply in_map, in_seq. lia. }
  cbn [seq map In] in Hcases.
  repeat (destruct Hcases as [<-|Hcases]); [.. | destruct Hcases];
    repeat split.
Qed.

Lemma frame_control (lo hi : Z) (st st' : cpu) :
  frame lo hi st st' ->
  pc st' = pc st /\ ret st' = ret st /\ offset st' = offset st /\
  key_rom st' = key_rom st /\ key_code st' = key_code st.
Proof.
  intros (_ & Hc & _). unfold control in Hc.
  injection Hc as Hs Hp Hpc Hret Hoff Hfirst Hlast Hprev Hkc Hkr.
  repeat split; assumption.
Qed.

Lemma classic_arith (k : family) : k = Arith \/ k <> Arith.
Proof. destruct k; auto; right; discriminate. Qed.

Lemma arith_inv (h l : Z) (st : cpu) :
  0 <= h < 256 -> 0 <= l < 256 -> cpu_inv st ->
  exists st', effect Arith h l st = Ok st' /\ cpu_inv st'.
Proof.
  intros Hh Hl (Hwf & Hd & Hpc & Hret & Hoff & Hkr & Hkc). cbn [effect].
  pose proof (slice_code_bound l Hl) as Hcode.
  destruct (select_slice_regs (slice_code l) st Hcode) as [Hregs Hwfeq].
  set (st2 := set_carry 0 (select_slice (slice_code l) st)).
  assert (Hwf2 : wf_cpu st2).
  { change (wf_cpu (select_slice (slice_code l) st)). rewrite Hwfeq.
    exact Hwf. }
  assert (Hsl : slice_ok st2)
    by (apply (select_slice_ok (slice_code l) st Hcode); apply Hwf).
  assert (Hg2 : good st2).
  { split; [exact Hwf2|]. split; [|cbn; lia]. intros r.
    change (Forall is_digit (rget r (select_slice (slice_code l) st))).
    rewrite Hregs. apply Hd. }
  pose proof (op_code_bound h l Hh Hl) as Hop.
  destruct (alu_op_good _ st2 Hg2 Hsl Hop) as (st' & Hrun & Hwf' & Hd' & _).
  destruct (alu_op_frame _ st2 Hwf2 Hsl Hop) as (st'' & Hrun' & Hfr).
  assert (st'' = st') by congruence. subst st''.
  destruct (frame_control _ _ _ _ Hfr) as (E1 & E2 & E3 & E4 & E5).
  destruct (select_slice_control (slice_code l) st Hcode)
    as (F1 & F2 & F3 & F4 & F5).
  exists st'. split; [exact Hrun|]. split; [exact Hwf'|].
  split; [exact Hd'|].
  rewrite E1, E2, E3, E4, E5.
  change (pc st2) with (pc (select_slice (slice_code l) st)).
  change (ret st2) with (ret (select_slice (slice_code l) st)).
  change (offset st2) with (offset (select_slice (slice_code l) st)).
  change (key_rom st2) with (key_rom (select_slice (slice_code l) st)).
  change (key_code st2) with (key_code (select_slice (slice_code l) st)).
  rewrite F1, F2, F3, F4, F5. repeat split; lia.
Qed.

Ltac fields :=
  cbn [pc ret offset key_rom key_code
       set_a set_b set_c set_d set_e set_f set_m set_t set_s set_p set_pc
       set_ret set_offset set_first set_last set_carry set_prevCarry
       set_key_code set_key_rom set_display_enable set_display_update rset].

Lemma Ok_inj {X : Type} (x y : X) : Ok x = Ok y -> x = y.
Proof. intros Heq. injection Heq as ->. reflexivity. Qed.

Lemma effect_inv (k : family) (h l : Z) (st : cpu) :
  rom_pair_ok (h, l) = true -> guard k h l = true -> cpu_inv st ->
  exists st', effect k h l st = Ok st' /\ cpu_inv st'.
Proof.
  intros Hok Hg Hinv. unfold rom_pair_ok in Hok. cbn [fst snd] in Hok.
  repeat (apply andb_prop in Hok; destruct Hok as [Hok ?]).
  repeat match goal with
         | H : (_ <=? _) = true |- _ => apply Z.leb_le in H
         | H : (_ <? _) = true |- _ => apply Z.ltb_lt in H
         end.
  apply Z.leb_le in Hok.
  assert (Hh : 0 <= h < 256) by lia. assert (Hl : 0 <= l < 256) by lia.
  destruct (target_bounds h l Hh Hl) as [Hcall Hbranch].
  pose proof (bitsel_bound h l Hh Hl) as Hsel.
  destruct (classic_arith k) as [->|Hna]; [apply arith_inv; assumption|].
  destruct (effect_safe k h l st Hh Hl ltac:(apply Hinv))
    as [(st' & Hrun & Hwf')|(_ & Hst & Hbig)].
  2:{ exfalso.
      assert (Hs : guard TestStatus h l || guard SetStatus h l
                   || guard ClearStatus h l = true).
      { destruct k; try discriminate; rewrite Hg; cbn;
          rewrite ?orb_true_r; reflexivity. }
      rewrite Hs in *. cbn [negb orb] in *.
      match goal with Hb : (bitsel h l <? 12) = true |- _ =>
        apply Z.ltb_lt in Hb; lia end. }
  exists st'. split; [exact Hrun|].
  destruct Hinv as (Hwf & Hd & Hpc & Hret & Hoff & Hkr & Hkc).
  split; [exact Hwf'|].
  assert (HA := Hd RA). assert (HB := Hd RB). assert (HC := Hd RC).
  assert (HD := Hd RD). assert (HE := Hd RE). assert (HF := Hd RF).
  assert (HM := Hd RM). assert (HT := Hd RT). cbn [rget] in *.
  destruct k; try congruence; cbn [effect] in Hrun.
  all: try (apply Ok_inj in Hrun; subst st';
            split; [intros r; destruct r; cbn [rget];
                    cbn [a b c d e f m t set_a set_b set_c set_d set_e set_f
                         set_m set_pc set_ret set_offset set_carry set_p set_s
                         set_display_enable set_display_update];
                    auto 8 using Forall_memcpy, Forall_firstn,
                                 Forall_zero_word
                   |fields; lia]).
  - (* SelectRom *)
    apply Ok_inj in Hrun; subst st'. split; [exact Hd|]. fields.
    rewrite Hg in *. cbn [negb orb] in *.
    match goal with Hb : (_ && _) = true |- _ =>
      apply andb_prop in Hb; destruct Hb as [Hb1 Hb2];
      apply Z.leb_le in Hb1; apply Z.leb_le in Hb2 end.
    unfold bank_of in *. lia.
  - (* KeyJump *)
    unfold wr_status in Hrun.
    destruct (in_range _ _); [|discriminate]. apply Ok_inj in Hrun; subst st'.
    split; [exact Hd|]. fields. lia.
  - (* TestStatus *)
    destruct (rd_status _ _) as [v|]; [|discriminate]. cbn [bind] in Hrun.
    apply Ok_inj in Hrun; subst st'. split; [exact Hd|]. fields. lia.
  - (* SetStatus *)
    unfold wr_status in Hrun.
    destruct (in_range _ _); [|discriminate]. apply Ok_inj in Hrun; subst st'.
    split; [exact Hd|]. fields. lia.
  - (* ClearStatus *)
    unfold wr_status in Hrun.
    destruct (in_range _ _); [|discriminate]. apply Ok_inj in Hrun; subst st'.
    split; [exact Hd|]. fields. lia.
  - (* LoadConst *)
    unfold wr in Hrun. destruct (in_range _ _); [|discriminate].
    cbn [bind] in Hrun. apply Ok_inj in Hrun; subst st'.
    rewrite Hg in *. cbn [negb orb] in *.
    match goal with Hb : (const_of h l <=? 9) = true |- _ =>
      apply Z.leb_le in Hb; rename Hb into Hconst end.
    unfold const_of in Hconst.
    split; [|fields; lia].
    intros r. destruct r; cbn [rget rset set_p c a b d e f m t set_c];
      try assumption.
    apply Forall_poke; [assumption|]. unfold is_digit.
    pose proof (Z.mod_pos_bound (Z.lor (Z.shiftr l 6) (Z.shiftl h 2)) 256
                  ltac:(lia)).
    lia.
  - (* Branch *)
    destruct (negb (prevCarry st =? 1)); apply Ok_inj in Hrun; subst st';
      (split; [exact Hd|fields; lia]).
Qed.

Lemma execute_inv (h l : Z) (st : cpu) :
  rom_pair_ok (h, l) = true -> cpu_inv st ->
  exists st', execute h l st = Ok st' /\ cpu_inv st'.
Proof.
  intros Hok Hinv.
  assert (Hb : (0 <= h < 256) /\ (0 <= l < 256)).
  { unfold rom_pair_ok in Hok. cbn [fst snd] in Hok.
    repeat (apply andb_prop in Hok; destruct Hok as [Hok ?]).
    repeat match goal with
           | H : (_ <=? _) = true |- _ => apply Z.leb_le in H
           | H : (_ <? _) = true |- _ => apply Z.ltb_lt in H
           end.
    apply Z.leb_le in Hok. lia. }
  destruct Hb as [Hh Hl].
  rewrite execute_cases by (try assumption; apply Hinv). fold (entry st).
  pose proof (cpu_inv_entry st Hinv) as Hentry.
  pose proof (matching_guarded) as Hg. specialize (fun k => Hg k h l).
  destruct (matching h l) as [|k rest].
  - exists (entry st). split; [reflexivity|exact Hentry].
  - apply effect_inv; [exact Hok| |exact Hentry]. apply Hg. left. reflexivity.
Qed.

(** ** The display buffer only ever holds patterns of the tables *)

Lemma digit_of_digit (l : list Z) (i : Z) :
  Forall is_digit l -> is_digit (digit_of l i).
Proof.
  intros Hl. unfold digit_of.
  destruct (nth_in_or_default (Z.to_nat i) l 0) as [Hin| ->].
  - rewrite Forall_forall in Hl. apply Hl, Hin.
  - unfold is_digit. lia.
Qed.

Lemma peek_digit (x : Z) : is_digit x -> defined (peek digit x).
Proof.
  intros Hx. unfold defined.
  destruct (peek_in_range digit x) as [v ->]; [|discriminate].
  apply in_range_bounds. unfold is_digit in Hx. cbn. lia.
Qed.

Lemma defined_some (v : Z) : defined (Some v).
Proof. discriminate. Qed.

Lemma defined_nth (buf : list (option Z)) (n : nat) :
  Forall defined buf -> (n < length buf)%nat -> defined (nth n buf None).
Proof.
  intros Hbuf Hn. rewrite Forall_forall in Hbuf. apply Hbuf, nth_In, Hn.
Qed.

Lemma defined_option_map (fn : Z -> Z) (cell : option Z) :
  defined cell -> defined (option_map fn cell).
Proof. destruct cell; [discriminate|intros Hc; exact Hc]. Qed.

Lemma show_digit_inv (av bv : list Z) (i pos : Z) (buf : list (option Z)) :
  Forall is_digit av -> 0 <= pos < 8 ->
  length buf = 8%nat -> Forall defined buf ->
  snd (show_digit av bv i (buf, pos)) = pos + 1 /\
  length (fst (show_digit av bv i (buf, pos))) = 8%nat /\
  Forall defined (fst (show_digit av bv i (buf, pos))).
Proof.
  intros Hav Hpos Hlen Hdef. unfold show_digit.
  set (buf0 := poke buf pos (Some 0)).
  assert (Hlen0 : length buf0 = 8%nat)
    by (unfold buf0; rewrite poke_length; exact Hlen).
  assert (Hdef0 : Forall defined buf0)
    by (apply Forall_poke; [exact Hdef|apply defined_some]).
  set (buf1 := if 8 <=? digit_of bv i then poke buf0 pos (Some 0)
               else if i =? 13
                    then (if 8 <=? digit_of av i
                          then poke buf0 pos (Some _7MINUS) else buf0)
                    else poke buf0 pos (peek digit (digit_of av i))).
  assert (H1 : length buf1 = 8%nat /\ Forall defined buf1).
  { unfold buf1.
    destruct (8 <=? digit_of bv i);
      [|destruct (i =? 13); [destruct (8 <=? digit_of av i)|]];
      rewrite ?poke_length; (split; [exact Hlen0|]); try exact Hdef0;
      apply Forall_poke; try exact Hdef0; try apply defined_some.
    apply peek_digit, digit_of_digit, Hav. }
  destruct H1 as [Hlen1 Hdef1].
  replace (pos + 1 - 1) with pos by lia.
  destruct (digit_of bv i =? 2); cbn [fst snd];
    (split; [reflexivity|]); rewrite ?poke_length;
    (split; [exact Hlen1|]); [|exact Hdef1].
  apply Forall_poke; [exact Hdef1|].
  apply defined_option_map, defined_nth; [exact Hdef1|]. lia.
Qed.

Lemma show_digits_inv (av bv : list Z) (idx : list Z) :
  Forall is_digit av ->
  forall pos buf,
  0 <= pos -> pos + Z.of_nat (length idx) <= 8 ->
  length buf = 8%nat -> Forall defined buf ->
  length (fst (fold_left (fun acc i => show_digit av bv i acc) idx
                 (buf, pos))) = 8%nat /\
  Forall defined (fst (fold_left (fun acc i => show_digit av bv i acc) idx
                         (buf, pos))).
Proof.
  intros Hav. induction idx as [|i idx IH]; intros pos buf Hpos Hfit Hlen Hdef.
  - cbn [fold_left fst]. split; assumption.
  - cbn [fold_left]. cbn [length] in Hfit. rewrite Nat2Z.inj_succ in Hfit.
    destruct (show_digit_inv av bv i pos buf Hav ltac:(lia) Hlen Hdef)
      as (Hp & Hl & Hd).
    destruct (show_digit av bv i (buf, pos)) as [buf' pos'].
    cbn [fst snd] in Hp, Hl, Hd. subst pos'.
    apply IH; [lia|lia|exact Hl|exact Hd].
Qed.

Lemma show_stack_inv (av bv : list Z) (buf : list (option Z)) :
  Forall is_digit av -> length buf = 8%nat -> Forall defined buf ->
  length (show_stack av bv buf) = 8%nat /\
  Forall defined (show_stack av bv buf).
Proof.
  intros Hav Hlen Hdef. unfold show_stack.
  destruct (show_digits_inv av bv [13; 12; 11; 10; 9; 8; 7; 6] Hav 0 buf
              ltac:(lia) ltac:(cbn; lia) Hlen Hdef) as [Hl Hd].
  destruct (fold_left _ _ _) as [buf' pos']. cbn [fst] in Hl, Hd.
  destruct (_ <? 8); [|split; assumption].
  rewrite !poke_length. split; [exact Hl|].
  repeat apply Forall_poke; try exact Hd; try apply defined_some;
    apply peek_digit, digit_of_digit, Hav.
Qed.

Lemma message_inv (n : Z) :
  1 <= n <= 3 -> length (message n) = 8%nat /\ Forall defined (message n).
Proof.
  intros Hn. assert (Hcases : n = 1 \/ n = 2 \/ n = 3) by lia.
  destruct Hcases as [->|[->| ->]];
    (split; [reflexivity|]); vm_compute; repeat constructor; discriminate.
Qed.

Lemma printbuf_inv (sh : shell) : shell_inv sh -> shell_inv (printbuf sh).
Proof.
  intros (Hfg & Hmsg & Hlen & Hdef & Hmemp). unfold printbuf.
  destruct ((fg sh =? 1) || (fg sh =? 2));
    [|exact (conj Hfg (conj Hmsg (conj Hlen (conj Hdef Hmemp))))].
  refine (conj Hfg (conj Hmsg (conj _ (conj _ Hmemp))));
    cbn [dbuf set_dbuf].
  - rewrite poke_length. exact Hlen.
  - apply Forall_poke; [exact Hdef|apply defined_some].
Qed.

Lemma shell_inv_set_dbuf (buf : list (option Z)) (sh : shell) :
  shell_inv sh -> length buf = 8%nat -> Forall defined buf ->
  shell_inv (set_dbuf buf sh).
Proof.
  intros (Hfg & Hmsg & Hlen & Hdef & Hmemp) Hl Hd.
  exact (conj Hfg (conj Hmsg (conj Hl (conj Hd Hmemp)))).
Qed.

Lemma printscreen_inv (mc : machine) :
  machine_inv mc -> machine_inv (printscreen mc).
Proof.
  intros [Hc Hs]. unfold printscreen. split; [exact Hc|]. cbn [shell_of].
  apply printbuf_inv.
  destruct (negb (msgnr (shell_of mc) =? 0)) eqn:Hm.
  - apply negb_true_iff, Z.eqb_neq in Hm.
    destruct (message_inv (msgnr (shell_of mc))) as [Hl Hd];
      [destruct Hs as (_ & Hmsg & _); lia|].
    apply shell_inv_set_dbuf; assumption.
  - destruct (darkscreen (shell_of mc)).
    + apply shell_inv_set_dbuf; [exact Hs|reflexivity|].
      cbn [repeat]. repeat constructor; discriminate.
    + destruct (show_stack_inv (a (cpu_of mc)) (b (cpu_of mc))
                  (dbuf (shell_of mc))) as [Hl Hd].
      * destruct Hc as (_ & Hd & _). exact (Hd RA).
      * apply Hs.
      * apply Hs.
      * apply shell_inv_set_dbuf; assumption.
Qed.

Lemma refresh_inv (mc : machine) : machine_inv mc -> machine_inv (refresh mc).
Proof.
  intros Hinv. unfold refresh.
  destruct (display_enable (cpu_of mc)); [exact Hinv|].
  destruct (display_update (cpu_of mc)); [|exact Hinv].
  destruct (printscreen_inv mc Hinv) as [Hc Hs].
  split; [exact Hc|]. cbn [shell_of]. exact Hs.
Qed.

Lemma check_error_inv (mc : machine) :
  machine_inv mc -> machine_inv (check_error mc).
Proof.
  intros [Hc Hs]. unfold check_error.
  destruct (_ && _); [|split; assumption].
  split; [exact Hc|]. destruct Hs as (Hfg & Hmsg & Hlen & Hdef & Hmemp).
  refine (conj Hfg (conj _ (conj Hlen (conj Hdef Hmemp)))).
  cbn [shell_of msgnr set_msgnr]. unfold MSGERROR. lia.
Qed.

(** One microcycle on the image never fails and keeps the invariant. *)
Lemma process_rom_inv (mc : machine) :
  machine_inv mc -> exists mc', process_rom mc = Ok mc' /\ machine_inv mc'.
Proof.
  intros Hinv. unfold process_rom.
  destruct (check_error_inv mc Hinv) as [Hc Hs].
  generalize dependent (check_error mc). clear mc Hinv. intros mc Hc Hs.
  unfold microcycle.
  set (st := set_carry 0 (set_prevCarry (carry (cpu_of mc)) (cpu_of mc))).
  assert (Hst : cpu_inv st) by exact Hc.
  destruct (fetch_in_image st) as (h & l & Hfetch);
    [apply Hst|apply Hst|].
  rewrite Hfetch. cbn [bind fst snd].
  destruct (execute_inv h l st (fetch_ok st h l Hfetch) Hst)
    as (st1 & -> & Hst1).
  cbn [bind]. eexists. split; [reflexivity|].
  apply refresh_inv. split; assumption.
Qed.

(** ** The main loop *)

Lemma k2c_codes : forallb (fun kc => byte_ok kc && code_ok kc) k2c = true.
Proof. vm_compute. reflexivity. Qed.

Lemma k2c_length : length k2c = 64%nat.
Proof. reflexivity. Qed.

Lemma c2m_entries : forallb entry_ok c2m = true.
Proof. vm_compute. reflexivity. Qed.

Lemma c2m_length : length c2m = 12%nat.
Proof. reflexivity. Qed.

Lemma mem_tape : forallb tape_ok (map Z.of_nat (seq 0 204)) = true.
Proof. vm_compute. reflexivity. Qed.

Lemma peek_k2c (pos kc : Z) :
  peek k2c pos = Some kc ->
  0 <= kc < 256 /\ (0 <= kc <= _LIT + 12 \/ kc = _END).
Proof.
  intros Hk.
  assert (Hall : byte_ok kc && code_ok kc = true).
  { apply (peek_Forall (fun kc => byte_ok kc && code_ok kc = true)
             k2c pos kc); [|exact Hk].
    apply Forall_forall. intros x Hx. pose proof k2c_codes as Hc.
    rewrite forallb_forall in Hc. apply (Hc x Hx). }
  unfold byte_ok, code_ok in Hall.
  apply andb_prop in Hall. destruct Hall as [Hb Hc].
  apply andb_prop in Hb. destruct Hb as [Hb1 Hb2].
  apply Z.leb_le in Hb1. apply Z.ltb_lt in Hb2. split; [lia|].
  apply orb_prop in Hc. destruct Hc as [Hc|Hc].
  - apply andb_prop in Hc. destruct Hc as [Hc1 Hc2].
    apply Z.leb_le in Hc1. apply Z.leb_le in Hc2. left. lia.
  - apply Z.eqb_eq in Hc. right. exact Hc.
Qed.

Lemma peek_c2m (i mp : Z) : peek c2m i = Some mp -> 0 <= mp <= 203.
Proof.
  intros Hk.
  assert (Hb : entry_ok mp = true).
  { apply (peek_Forall (fun mp => entry_ok mp = true) c2m i mp); [|exact Hk].
    apply Forall_forall. intros x Hx.
    pose proof c2m_entries as Hc. rewrite forallb_forall in Hc.
    apply (Hc x Hx). }
  unfold entry_ok in Hb.
  apply andb_prop in Hb. destruct Hb as [Hb1 Hb2].
  apply Z.leb_le in Hb1. apply Z.leb_le in Hb2. lia.
Qed.

Lemma peek_mem (i : Z) :
  0 <= i <= 203 ->
  exists cmd, peek mem i = Some cmd /\ 0 <= cmd < 256 /\
              (cmd <> _END -> i < 203).
Proof.
  intros Hi. pose proof mem_tape as Hall. rewrite forallb_forall in Hall.
  specialize (Hall i).
  assert (Hin : In i (map Z.of_nat (seq 0 204))).
  { replace i with (Z.of_nat (Z.to_nat i)) by lia.
    apply in_map, in_seq. lia. }
  specialize (Hall Hin). unfold tape_ok in Hall.
  destruct (peek mem i) as [cmd|]; [|discriminate].
  exists cmd. split; [reflexivity|].
  apply andb_prop in Hall. destruct Hall as [Hb Hc].
  apply andb_prop in Hb. destruct Hb as [Hb1 Hb2].
  apply Z.leb_le in Hb1. apply Z.ltb_lt in Hb2. split; [lia|].
  intros Hne. apply orb_prop in Hc. destruct Hc as [Hc|Hc].
  - apply Z.eqb_eq in Hc. contradiction.
  - apply Z.ltb_lt in Hc. exact Hc.
Qed.

Lemma cpu_inv_key_code (kc : Z) (st : cpu) :
  cpu_inv st -> 0 <= kc < 256 -> cpu_inv (set_key_code kc st).
Proof.
  intros (Hwf & Hd & Hpc & Hret & Hoff & Hkr & Hkc) Hb.
  exact (conj Hwf (conj Hd (conj Hpc (conj Hret (conj Hoff (conj Hkr Hb)))))).
Qed.

Lemma cpu_inv_display_update (v : bool) (st : cpu) :
  cpu_inv st -> cpu_inv (set_display_update v st).
Proof. intros Hinv. exact Hinv. Qed.

Ltac shell_fields :=
  cbn [shell_of cpu_of fg msgnr dbuf isrun memp key
       set_msgnr set_dbuf set_fg set_darkscreen set_isrun set_islock
       set_count set_memp set_key set_oldkey set_brightness].

(** The key dispatch keeps the invariant, or reads a table outside its
    bounds. *)
Lemma dispatch_key_inv (mc : machine) :
  machine_inv mc ->
  (exists mc', dispatch_key mc = Ok mc' /\ machine_inv mc') \/
  dispatch_key mc = Fault TableRange.
Proof.
  intros [Hc (Hfg & Hmsg & Hlen & Hdef & Hmemp)]. unfold dispatch_key.
  destruct (negb (key (shell_of mc) =? 0) && (key (shell_of mc) <? _END)).
  2:{ left. exists mc. split; [reflexivity|]. split; [exact Hc|].
      exact (conj Hfg (conj Hmsg (conj Hlen (conj Hdef Hmemp)))). }
  shell_fields.
  pose proof (cpu_inv_display_update true _ Hc) as Hc1.
  destruct (key (shell_of mc) =? _KF).
  { left. eexists. split; [reflexivity|]. split; [exact Hc1|].
    shell_fields.
    destruct (2 <? (fg (shell_of mc) + 1) mod 256) eqn:Hbig;
      unfold shell_inv; shell_fields.
    - repeat split; try assumption; try lia; discriminate.
    - apply Z.ltb_ge in Hbig.
      pose proof (Z.mod_pos_bound (fg (shell_of mc) + 1) 256 ltac:(lia)).
      repeat split; try assumption; try lia; discriminate. }
  destruct (peek k2c _) as [kc|] eqn:Hk; [|right; reflexivity].
  destruct (peek_k2c _ _ Hk) as [Hbyte Hcode].
  pose proof (cpu_inv_key_code kc _ Hc1 Hbyte) as Hc2.
  destruct (kc =? _HYP).
  { left. eexists. split; [reflexivity|]. split; [exact Hc2|].
    unfold shell_inv. shell_fields. unfold MSGHYP.
    repeat split; try assumption; try lia; discriminate. }
  destruct (kc =? _LIT).
  { left. eexists. split; [reflexivity|]. split.
    - apply cpu_inv_key_code; [exact Hc2|unfold _END; lia].
    - unfold shell_inv. shell_fields.
      repeat split; try assumption; try lia; discriminate. }
  destruct (_LIT <? kc).
  - destruct (peek c2m _) as [mp|] eqn:Hm; [|right; reflexivity].
    pose proof (peek_c2m _ _ Hm) as Hmp.
    left. eexists. split; [reflexivity|]. split; [exact Hc2|].
    unfold shell_inv. shell_fields. unfold MSGRUN.
    repeat split; try assumption; lia.
  - left. eexists. split; [reflexivity|]. split; [exact Hc2|].
    unfold shell_inv. shell_fields.
    repeat split; try assumption; try lia; discriminate.
Qed.

(** The sequencer never reads past the tape while a script runs. *)
Lemma sequencer_inv (mc : machine) :
  machine_inv mc -> exists mc', sequencer mc = Ok mc' /\ machine_inv mc'.
Proof.
  intros [Hc (Hfg & Hmsg & Hlen & Hdef & Hmemp)]. unfold sequencer.
  destruct (isrun (shell_of mc)) eqn:Hrun; cbn [andb].
  2:{ exists mc. split; [reflexivity|]. split; [exact Hc|].
      refine (conj Hfg (conj Hmsg (conj Hlen (conj Hdef _)))).
      rewrite Hrun. discriminate. }
  specialize (Hmemp eq_refl).
  destruct (negb (islock (shell_of mc))).
  2:{ exists mc. split; [reflexivity|]. split; [exact Hc|].
      refine (conj Hfg (conj Hmsg (conj Hlen (conj Hdef _)))).
      intros _. exact Hmemp. }
  destruct (5 <? count (shell_of mc)).
  2:{ eexists. split; [reflexivity|]. split; [exact Hc|].
      unfold shell_inv. shell_fields.
      repeat split; try assumption; lia. }
  shell_fields.
  destruct (peek_mem (memp (shell_of mc)) Hmemp) as (cmd & -> & Hbyte & Hend).
  destruct (cmd =? _END) eqn:Hcmd.
  - eexists. split; [reflexivity|].
    split; [apply cpu_inv_display_update, Hc|].
    unfold shell_inv. shell_fields.
    repeat split; try assumption; try lia; discriminate.
  - apply Z.eqb_neq in Hcmd. specialize (Hend Hcmd).
    eexists. split; [reflexivity|].
    split; [apply cpu_inv_key_code; assumption|].
    unfold shell_inv. shell_fields. rewrite Hrun.
    repeat split; try assumption; lia.
Qed.

Lemma scan_key_inv (hw : Z) (mc : machine) :
  machine_inv mc -> machine_inv (scan_key hw mc).
Proof.
  intros [Hc Hs]. unfold scan_key. split; [exact Hc|]. cbn [shell_of].
  destruct (hw =? oldkey (shell_of mc)); exact Hs.
Qed.

Lemma loop_inv (hw : Z) (mc : machine) :
  machine_inv mc ->
  (exists mc', loop hw mc = Ok mc' /\ machine_inv mc') \/
  loop hw mc = Fault TableRange.
Proof.
  intros Hinv. unfold loop.
  destruct (dispatch_key_inv mc Hinv) as [(mc1 & -> & H1)| ->];
    [|right; reflexivity].
  cbn [bind]. destruct (process_rom_inv mc1 H1) as (mc2 & -> & H2).
  cbn [bind]. destruct (sequencer_inv mc2 H2) as (mc3 & -> & H3).
  cbn [bind]. left. eexists. split; [reflexivity|].
  apply scan_key_inv, H3.
Qed.

Lemma run_inv (hws : list Z) :
  forall mc, machine_inv mc ->
  (exists mc', run hws mc = Ok mc' /\ machine_inv mc') \/
  run hws mc = Fault TableRange.
Proof.
  induction hws as [|hw rest IH]; intros mc Hinv; cbn [run].
  - left. exists mc. split; [reflexivity|exact Hinv].
  - destruct (loop_inv hw mc Hinv) as [(mc1 & -> & H1)| ->];
      [|right; reflexivity].
    cbn [bind]. apply IH, H1.
Qed.

Lemma reset_inv : machine_inv reset.
Proof.
  split.
  - split; [exact wf_reset|]. split.
    + intros r. destruct r; cbn; repeat constructor; unfold is_digit; lia.
    + cbn. unfold _END. lia.
  - unfold shell_inv. cbn.
    repeat split; try lia; try discriminate.
    repeat constructor; discriminate.
Qed.

(** ** What holds of every run from power-on *)

(** X19.  Whatever keys are sampled, a run from power-on can only fail with
    the fault of the key tables and the script tape (a read of [k2c], [c2m]
    or [mem] outside its bounds): the microcode fetch, the register accesses
    and the status accesses all stay inside their arrays. *)
Theorem only_table_reads_can_fail (hws : list Z) (ft : fault) :
  run hws reset = Fault ft -> ft = TableRange.
Proof.
  intros Hrun.
  destruct (run_inv hws reset reset_inv) as [(mc & Hok & _)|Hft]; congruence.
Qed.

Lemma only_table_reads_can_fail_witness :
  run keys_f_f_9 reset = Fault TableRange /\ TableRange = TableRange.
Proof.
  split; [vm_compute; reflexivity|].
  apply (only_table_reads_can_fail keys_f_f_9 TableRange).
  vm_compute. reflexivity.
Defined.

(** X20.  Whatever keys are sampled, every entry of every register (A to F,
    M and T) is a decimal digit after a run from power-on: the arithmetic
    never produces, and the image never loads, a nibble above 9. *)
Theorem registers_hold_decimal_digits (hws : list Z) (mc : machine) :
  run hws reset = Ok mc ->
  forall r, Forall is_digit (rget r (cpu_of mc)).
Proof.
  intros Hrun.
  destruct (run_inv hws reset reset_inv) as [(mc' & Hok & Hinv)|Hft];
    [|congruence].
  assert (mc' = mc) by congruence. subst mc'.
  destruct Hinv as [(_ & Hd & _) _]. exact Hd.
Qed.

Lemma registers_hold_decimal_digits_witness :
  Forall is_digit (rget RA (cpu_of (outcome keys_12_enter_34_add))) /\
  Forall is_digit (rget RC (cpu_of (outcome keys_12_enter_34_add))).
Proof.
  split;
    apply (registers_hold_decimal_digits keys_12_enter_34_add
             (outcome keys_12_enter_34_add));
    vm_compute; reflexivity.
Defined.

(** X21.  Whatever keys are sampled, the display buffer has its eight cells
    after a run from power-on and each holds a pattern taken from the
    segment tables: no cell is read from behind [digit] or [msg]. *)
Theorem display_cells_defined (hws : list Z) (mc : machine) :
  run hws reset = Ok mc ->
  length (dbuf (shell_of mc)) = 8%nat /\ Forall defined (dbuf (shell_of mc)).
Proof.
  intros Hrun.
  destruct (run_inv hws reset reset_inv) as [(mc' & Hok & Hinv)|Hft];
    [|congruence].
  assert (mc' = mc) by congruence. subst mc'.
  destruct Hinv as [_ (_ & _ & Hlen & Hdef & _)]. split; assumption.
Qed.

Lemma display_cells_defined_witness :
  length (dbuf (shell_of (outcome keys_12_enter_34_add))) = 8%nat /\
  Forall defined (dbuf (shell_of (outcome keys_12_enter_34_add))).
Proof.
  apply (display_cells_defined keys_12_enter_34_add).
  vm_compute. reflexivity.
Defined.

(** X22.  Whatever keys are sampled, after a run from power-on the bank is
    0, 1 or 2 and the next fetch finds its two bytes inside the image. *)
Theorem fetch_stays_in_image (hws : list Z) (mc : machine) :
  run hws reset = Ok mc ->
  0 <= offset (cpu_of mc) <= 2 /\ 0 <= pc (cpu_of mc) < 256 /\
  exists h l, fetch (cpu_of mc) = Ok (h, l).
Proof.
  intros Hrun.
  destruct (run_inv hws reset reset_inv) as [(mc' & Hok & Hinv)|Hft];
    [|congruence].
  assert (mc' = mc) by congruence. subst mc'.
  destruct Hinv as [(_ & _ & Hpc & _ & Hoff & _) _].
  split; [exact Hoff|]. split; [exact Hpc|].
  apply fetch_in_image; assumption.
Qed.

Lemma fetch_stays_in_image_witness :
  0 <= offset (cpu_of (outcome keys_12_enter_34_add)) <= 2 /\
  0 <= pc (cpu_of (outcome keys_12_enter_34_add)) < 256 /\
  exists h l, fetch (cpu_of (outcome keys_12_enter_34_add)) = Ok (h, l).
Proof.
  apply (fetch_stays_in_image keys_12_enter_34_add).
  vm_compute. reflexivity.
Defined.

(** X24.  A key other than F whose entry of [k2c] is the end mark makes the
    dispatch read [c2m] outside its twelve entries; every other entry is
    dispatched without a fault. *)
Theorem dead_key_reads_past_table (mc : machine) :
  0 <= fg (shell_of mc) <= 3 -> 2 <= key (shell_of mc) <= 16 ->
  exists kc,
    peek k2c (key_slot (shell_of mc)) = Some kc /\
    (kc = _END -> dispatch_key mc = Fault TableRange) /\
    (kc <> _END -> exists mc', dispatch_key mc = Ok mc').
Proof.
  intros Hfg Hkey. unfold dispatch_key, key_slot.
  replace (negb (key (shell_of mc) =? 0) && (key (shell_of mc) <? _END))
    with true.
  2:{ symmetry. apply andb_true_intro. split.
      - apply negb_true_iff, Z.eqb_neq. lia.
      - apply Z.ltb_lt. unfold _END. lia. }
  shell_fields.
  replace (key (shell_of mc) =? _KF) with false
    by (symmetry; apply Z.eqb_neq; unfold _KF; lia).
  destruct (peek_in_range k2c
              ((fg (shell_of mc) * KEYS + key (shell_of mc) - 1) mod 256))
    as [kc Hk].
  { apply in_range_bounds. rewrite k2c_length. unfold KEYS.
    rewrite Z.mod_small by lia. lia. }
  rewrite Hk. destruct (peek_k2c _ _ Hk) as [Hbyte Hcode].
  exists kc. split; [reflexivity|]. split.
  - intros ->. reflexivity.
  - intros Hne. destruct Hcode as [Hcode|Hcode]; [|contradiction].
    destruct (kc =? _HYP); [eauto|]. destruct (kc =? _LIT); [eauto|].
    destruct (_LIT <? kc) eqn:Hbig; [|eauto].
    apply Z.ltb_lt in Hbig.
    destruct (peek_in_range c2m (kc - _LIT - 1)) as [mp ->]; [|eauto].
    apply in_range_bounds. rewrite c2m_length. lia.
Qed.

Lemma dead_key_reads_past_table_witness :
  exists kc,
    peek k2c (key_slot (shell_of
                (mkMachine reset_cpu (set_key 9 reset_shell)))) = Some kc /\
    (kc = _END ->
     dispatch_key (mkMachine reset_cpu (set_key 9 reset_shell)) =
     Fault TableRange) /\
    (kc <> _END ->
     exists mc',
       dispatch_key (mkMachine reset_cpu (set_key 9 reset_shell)) = Ok mc').
Proof.
  apply (dead_key_reads_past_table
           (mkMachine reset_cpu (set_key 9 reset_shell))); cbn; lia.
Defined.

(** ** Key sampling *)






(** ** Keyboard and display wiring *)

Lemma count_shifts_log2 (fuel : nat) :
  forall c ans,
  0 <= c < 2 ^ Z.of_nat fuel -> 0 <= ans -> ans + Z.log2 c < 256 ->
  count_shifts fuel c ans = ans + Z.log2 c.
Proof.
  induction fuel as [|fuel IH]; intros c ans Hc Hans Hfit.
  - change (2 ^ Z.of_nat 0) with 1 in Hc. assert (c = 0) by lia. subst c.
    cbn. lia.
  - cbn [count_shifts]. rewrite Nat2Z.inj_succ, Z.pow_succ_r in Hc by lia.
    rewrite Z.shiftr_div_pow2 by lia. change (2 ^ 1) with 2.
    destruct (c / 2 =? 0) eqn:Hhalf.
    + apply Z.eqb_eq in Hhalf.
      apply Z.div_small_iff in Hhalf; [|lia].
      assert (Hsmall : c = 0 \/ c = 1) by lia.
      destruct Hsmall as [-> | ->]; cbn; lia.
    + apply Z.eqb_neq in Hhalf.
      assert (Hbig : 2 <= c).
      { destruct (Z_lt_le_dec c 2) as [Hlt|Hle]; [|exact Hle].
        exfalso. apply Hhalf. apply Z.div_small. lia. }
      assert (Hdiv : c / 2 < 2 ^ Z.of_nat fuel)
        by (apply Z.div_lt_upper_bound; lia).
      assert (Hpos : 0 <= c / 2) by (apply Z.div_pos; lia).
      pose proof (Z.log2_le_mono 2 c Hbig) as Hmono.
      change (Z.log2 2) with 1 in Hmono.
      assert (Hlog : Z.log2 (c / 2) = Z.log2 c - 1).
      { replace (c / 2) with (Z.shiftr c 1)
          by (rewrite Z.shiftr_div_pow2 by lia; reflexivity).
        rewrite Z.log2_shiftr by lia. lia. }
      rewrite Z.mod_small by lia.
      rewrite IH; [lia|lia|lia|lia].
Qed.

Lemma land_1 (x : Z) : Z.land x 1 = if Z.odd x then 1 else 0.
Proof.
  change 1 with (Z.ones 1) at 1. rewrite Z.land_ones by lia.
  change (2 ^ 1) with 2. apply Zmod_odd.
Qed.

(** X26.  [getkey] turns the 16-bit button word into a key number: 16
    ([_KN]) when bit 0 is set, otherwise the index of the highest set bit,
    and 0 when no button is down; the result is always in 0..16, and a
    single button on bit [k] (1..15) gives the key [k]. *)
Theorem getkey_highest_button (buttons : Z) :
  0 <= buttons < 65536 ->
  getkey buttons = (if Z.testbit buttons 0 then _KN else Z.log2 buttons) /\
  0 <= getkey buttons <= 16 /\
  (forall k, 1 <= k <= 15 -> buttons = 2 ^ k -> getkey buttons = k).
Proof.
  intros Hb.
  assert (Hlog : 0 <= Z.log2 buttons < 16).
  { split; [apply Z.log2_nonneg|].
    destruct (Z.eq_dec buttons 0) as [->|Hne]; [cbn; lia|].
    apply Z.log2_lt_pow2; lia. }
  assert (Hkey : getkey buttons =
                 (if Z.testbit buttons 0 then _KN else Z.log2 buttons)).
  { unfold getkey. rewrite land_1, Z.bit0_odd.
    destruct (Z.odd buttons); [reflexivity|]. cbn [Z.eqb negb].
    rewrite count_shifts_log2; [lia| |lia|lia].
    change (2 ^ Z.of_nat 16) with 65536. exact Hb. }
  split; [exact Hkey|]. split.
  - rewrite Hkey. destruct (Z.testbit buttons 0); unfold _KN; lia.
  - intros k Hk ->. rewrite Hkey.
    rewrite Z.pow2_bits_eqb by lia.
    replace (k =? 0) with false by (symmetry; apply Z.eqb_neq; lia).
    apply Z.log2_pow2. lia.
Qed.

Lemma getkey_highest_button_witness :
  getkey 0x0104 = (if Z.testbit 0x0104 0 then _KN else Z.log2 0x0104) /\
  0 <= getkey 0x0104 <= 16 /\
  (forall k, 1 <= k <= 15 -> 0x0104 = 2 ^ k -> getkey 0x0104 = k).
Proof. apply (getkey_highest_button 0x0104). lia. Defined.

Lemma land_bit (x j : Z) :
  0 <= j -> (Z.land x (Z.shiftl 1 j) =? 0) = negb (Z.testbit x j).
Proof.
  intros Hj. rewrite Z.shiftl_1_l.
  destruct (Z.testbit x j) eqn:Hbit; cbn [negb].
  - apply Z.eqb_neq. intros Hz.
    assert (Hb : Z.testbit (Z.land x (2 ^ j)) j = true)
      by (rewrite Z.land_spec, Hbit, Z.pow2_bits_true by lia; reflexivity).
    rewrite Hz, Z.bits_0 in Hb. discriminate.
  - apply Z.eqb_eq. apply Z.bits_inj'. intros n Hn.
    rewrite Z.land_spec, Z.bits_0, Z.pow2_bits_eqb by lia.
    destruct (j =? n) eqn:Hjn; [|apply andb_false_r].
    apply Z.eqb_eq in Hjn. subst n. rewrite Hbit. reflexivity.
Qed.

Lemma gather_bit_range (j dtmp cell : Z) : 0 <= gather_bit j dtmp cell < 256.
Proof. unfold gather_bit. apply Z.mod_pos_bound. lia. Qed.

Lemma gather_bit_low (j dtmp cell : Z) :
  0 <= j -> Z.testbit (gather_bit j dtmp cell) 0 = Z.testbit cell j.
Proof.
  intros Hj. unfold gather_bit. change 256 with (2 ^ 8).
  rewrite Z.mod_pow2_bits_low by lia.
  rewrite Z.lor_spec, Z.shiftl_spec_low by lia. cbn [orb].
  rewrite land_bit by exact Hj. rewrite negb_involutive.
  destruct (Z.testbit cell j); reflexivity.
Qed.

Lemma gather_bit_high (j dtmp cell k : Z) :
  1 <= k < 8 ->
  Z.testbit (gather_bit j dtmp cell) k = Z.testbit dtmp (k - 1).
Proof.
  intros Hk. unfold gather_bit. change 256 with (2 ^ 8).
  rewrite Z.mod_pow2_bits_low by lia.
  rewrite Z.lor_spec, Z.shiftl_spec by lia.
  replace (Z.testbit (if negb (Z.land cell (Z.shiftl 1 j) =? 0) then 1 else 0) k)
    with false; [apply orb_false_r|].
  symmetry. destruct (negb _).
  - change 1 with (2 ^ 0). rewrite Z.pow2_bits_eqb by lia.
    apply Z.eqb_neq. lia.
  - apply Z.bits_0.
Qed.

Lemma segment_byte_bits (j : Z) (cells : list Z) (dtmp : Z) :
  0 <= j ->
  0 <= segment_byte j cells dtmp < 256 /\
  forall i, 0 <= i < 8 ->
            Z.testbit (segment_byte j cells dtmp) (7 - i) =
            Z.testbit (digit_of cells i) j.
Proof.
  intros Hj. unfold segment_byte. cbn [fold_left].
  split; [apply gather_bit_range|].
  intros i Hi.
  assert (Hcases : In i (map Z.of_nat (seq 0 8))).
  { replace i with (Z.of_nat (Z.to_nat i)) by lia.
    apply in_map, in_seq. lia. }
  cbn [seq map In] in Hcases.
  repeat (destruct Hcases as [<-|Hcases]); [.. | destruct Hcases];
    cbn [Z.of_nat Pos.of_succ_nat Pos.succ];
    repeat (rewrite gather_bit_high by lia);
    match goal with
    | |- Z.testbit _ ?k = _ => replace k with 0 by lia
    end;
    apply gather_bit_low; exact Hj.
Qed.

Lemma byte_ext (x y : Z) :
  0 <= x < 256 -> 0 <= y < 256 ->
  (forall k, 0 <= k < 8 -> Z.testbit x k = Z.testbit y k) -> x = y.
Proof.
  intros Hx Hy Hbits. apply Z.bits_inj'. intros n Hn.
  destruct (Z_lt_dec n 8) as [Hlow|Hhigh]; [apply Hbits; lia|].
  replace x with (x mod 2 ^ 8) by (apply Z.mod_small; exact Hx).
  replace y with (y mod 2 ^ 8) by (apply Z.mod_small; exact Hy).
  rewrite !Z.mod_pow2_bits_high by lia. reflexivity.
Qed.

(** The byte gathered for a segment does not depend on the byte gathered
    for the segment before. *)
Lemma segment_byte_fresh (j : Z) (cells : list Z) (dtmp : Z) :
  0 <= j -> segment_byte j cells dtmp = segment_byte j cells 0.
Proof.
  intros Hj.
  destruct (segment_byte_bits j cells dtmp Hj) as [Hr1 Hb1].
  destruct (segment_byte_bits j cells 0 Hj) as [Hr2 Hb2].
  apply byte_ext; [exact Hr1|exact Hr2|]. intros k Hk.
  replace k with (7 - (7 - k)) by lia.
  rewrite Hb1, Hb2 by lia. reflexivity.
Qed.

Lemma segment_frames_eq (js : list Z) (cells : list Z) :
  Forall (fun j => 0 <= j) js ->
  forall dtmp,
  segment_frames js cells dtmp =
  flat_map (fun j => repeat (Z.lor 0xc0 (2 * j), segment_byte j cells 0) 8)
           js.
Proof.
  induction 1 as [|j js Hj Hjs IH]; intros dtmp;
    cbn [segment_frames flat_map]; [reflexivity|].
  rewrite IH, Z.lor_0_l, (segment_byte_fresh j cells dtmp Hj). reflexivity.
Qed.

(** X27.  [printbuf] sends 64 frames: for the segments 0 to 7 in turn,
    eight frames each with the address [0xc0 | 2j] and the same data byte.
    Bit [7 - i] of the data byte of segment [j] is segment [j] of display
    cell [i]: the buffer is sent transposed, cell 0 in the top bit, and
    nothing of the byte gathered for the segment before is left in it. *)
Theorem printbuf_sends_transposed (cells : list Z) (j i : Z) :
  0 <= j < 8 -> 0 <= i < 8 ->
  printbuf_frames cells =
    flat_map (fun j => repeat (Z.lor 0xc0 (2 * j), segment_byte j cells 0) 8)
             [0; 1; 2; 3; 4; 5; 6; 7] /\
  length (printbuf_frames cells) = 64%nat /\
  0 <= segment_byte j cells 0 < 256 /\
  Z.testbit (segment_byte j cells 0) (7 - i) = Z.testbit (digit_of cells i) j.
Proof.
  intros Hj Hi.
  assert (Heq : printbuf_frames cells =
                flat_map (fun j => repeat (Z.lor 0xc0 (2 * j),
                                           segment_byte j cells 0) 8)
                         [0; 1; 2; 3; 4; 5; 6; 7]).
  { unfold printbuf_frames. apply segment_frames_eq.
    repeat constructor; lia. }
  split; [exact Heq|]. split.
  - rewrite Heq. cbn [flat_map]. rewrite !length_app, !repeat_length.
    reflexivity.
  - destruct (segment_byte_bits j cells 0 ltac:(lia)) as [Hrange Hbits].
    split; [exact Hrange|apply Hbits, Hi].
Qed.

Lemma printbuf_sends_transposed_witness :
  printbuf_frames [_7MINUS; 0; 0; 0; 0; 0; 0; 0] =
    flat_map (fun j => repeat (Z.lor 0xc0 (2 * j),
                               segment_byte j [_7MINUS; 0; 0; 0; 0; 0; 0; 0]
                                            0) 8)
             [0; 1; 2; 3; 4; 5; 6; 7] /\
  length (printbuf_frames [_7MINUS; 0; 0; 0; 0; 0; 0; 0]) = 64%nat /\
  0 <= segment_byte 6 [_7MINUS; 0; 0; 0; 0; 0; 0; 0] 0 < 256 /\
  Z.testbit (segment_byte 6 [_7MINUS; 0; 0; 0; 0; 0; 0; 0] 0) (7 - 0) =
  Z.testbit (digit_of [_7MINUS; 0; 0; 0; 0; 0; 0; 0] 0) 6.
Proof.
  apply (printbuf_sends_transposed [_7MINUS; 0; 0; 0; 0; 0; 0; 0] 6 0); lia.
Defined.

(** ** Carry and the key jump *)

Lemma effect_carry (k : family) (h l : Z) (st st' : cpu) :
  effect k h l st = Ok st' ->
  k <> TestStatus -> k <> TestP -> k <> Arith ->
  carry st' = carry st.
Proof.
  intros Hrun Hts Htp Har.
  destruct k; try congruence; cbn [effect] in Hrun;
    try (apply Ok_inj in Hrun; subst st'; reflexivity).
  - (* KeyJump *)
    unfold wr_status in Hrun. destruct (in_range _ _); [|discriminate].
    apply Ok_inj in Hrun. subst st'. reflexivity.
  - (* SetStatus *)
    unfold wr_status in Hrun. destruct (in_range _ _); [|discriminate].
    apply Ok_inj in Hrun. subst st'. reflexivity.
  - (* ClearStatus *)
    unfold wr_status in Hrun. destruct (in_range _ _); [|discriminate].
    apply Ok_inj in Hrun. subst st'. reflexivity.
  - (* LoadConst *)
    unfold wr in Hrun. destruct (in_range _ _); [|discriminate].
    cbn [bind] in Hrun. apply Ok_inj in Hrun. subst st'.
    cbn [carry set_p]. apply carry_rset.
  - (* Branch *)
    destruct (negb _); apply Ok_inj in Hrun; subst st'; reflexivity.
Qed.

Lemma guard_of_head (k : family) (rest : list family) (h l : Z) :
  matching h l = k :: rest -> guard k h l = true.
Proof.
  intros Hm. apply matching_guarded. rewrite Hm. left. reflexivity.
Qed.

(** X28.  Only the status test, the pointer test and the arithmetic
    operations can leave [carry] set: a microcycle on any other word of the
    image succeeds and ends with [carry] at 0. *)
Theorem carry_only_from_tests (h l : Z) (mc : machine) :
  fetch (cpu_of mc) = Ok (h, l) -> wf_cpu (cpu_of mc) ->
  guard TestStatus h l = false -> guard TestP h l = false ->
  guard Arith h l = false ->
  exists mc', microcycle mc = Ok mc' /\ carry (cpu_of mc') = 0.
Proof.
  intros Hfetch Hwf Hts Htp Har.
  destruct (fetch_plain _ _ _ Hfetch) as (Hh & Hl & _).
  pose proof (fetch_ok _ _ _ Hfetch) as Hok.
  unfold microcycle.
  set (st := set_carry 0 (set_prevCarry (carry (cpu_of mc)) (cpu_of mc))).
  change (fetch st) with (fetch (cpu_of mc)). rewrite Hfetch.
  cbn [bind fst snd].
  assert (Hwfs : wf_cpu st) by exact Hwf.
  assert (Hce : carry (entry st) = 0)
    by (unfold entry; rewrite carry_latched; reflexivity).
  rewrite execute_cases by assumption. fold (entry st).
  pose proof (guard_of_head) as Hhead. specialize (fun k rest => Hhead k rest h l).
  destruct (matching h l) as [|k rest].
  { cbn [bind]. eexists. split; [reflexivity|].
    destruct (refresh_pc_carry (entry st) (shell_of mc)) as [_ ->].
    exact Hce. }
  specialize (Hhead k rest eq_refl).
  assert (Hk : k <> TestStatus /\ k <> TestP /\ k <> Arith).
  { repeat split; intros ->; congruence. }
  destruct Hk as (K1 & K2 & K3).
  destruct (effect_safe k h l (entry st) Hh Hl (wf_entry st Hwfs))
    as [(st' & Hrun & _)|(_ & Hst & Hbig)].
  - rewrite Hrun. cbn [bind]. eexists. split; [reflexivity|].
    destruct (refresh_pc_carry st' (shell_of mc)) as [_ ->].
    rewrite (effect_carry _ _ _ _ _ Hrun K1 K2 K3). exact Hce.
  - exfalso. unfold rom_pair_ok in Hok. cbn [fst snd] in Hok.
    repeat (apply andb_prop in Hok; destruct Hok as [Hok ?]).
    assert (Hs : guard TestStatus h l || guard SetStatus h l
                 || guard ClearStatus h l = true).
    { destruct k; try discriminate; rewrite Hhead;
        rewrite ?orb_true_r; reflexivity. }
    rewrite Hs in *. cbn [negb orb] in *.
    match goal with Hb : (bitsel h l <? 12) = true |- _ =>
      apply Z.ltb_lt in Hb; lia end.
Qed.

Lemma carry_only_from_tests_witness :
  exists mc',
    microcycle (mkMachine (set_carry 1 reset_cpu) reset_shell) = Ok mc' /\
    carry (cpu_of mc') = 0.
Proof.
  apply (carry_only_from_tests 0 221
           (mkMachine (set_carry 1 reset_cpu) reset_shell));
    try reflexivity.
  exact wf_reset.
Defined.

(** X29.  The key jump ([fetch_l == 0xD0]) continues at the address given
    by the key: the code of a key that was waiting, which is latched in the
    same microcycle, otherwise the code latched last.  It takes status bit 0
    down, and a key that was waiting is consumed. *)
Theorem key_jump_goes_to_key_code (h : Z) (st : cpu) :
  0 <= h < 256 -> wf_cpu st ->
  exists st',
    execute h 0xD0 st = Ok st' /\
    pc st' = (if key_code st <? _END then key_code st else key_rom st) /\
    s0 st' = 0 /\
    (key_code st < _END -> key_code st' = _END).
Proof.
  intros Hh Hwf.
  rewrite (execute_guarded KeyJump) by (try assumption; try reflexivity; lia).
  fold (entry st). cbn [effect].
  pose proof (wf_entry st Hwf) as Hwfe.
  rewrite wr_status_ok by (try exact Hwfe; lia).
  eexists. split; [reflexivity|]. cbn [pc set_s set_pc s0 s key_code].
  split; [|split].
  - unfold entry, latched. cbn [key_code set_pc].
    destruct (key_code st <? _END); reflexivity.
  - unfold s0. cbn [s set_s set_pc]. apply digit_of_poke_eq.
    apply in_range_bounds. destruct Hwfe as (_ & -> & _). lia.
  - intros Hk. apply Z.ltb_lt in Hk. unfold entry, latched.
    cbn [key_code set_pc]. rewrite Hk. reflexivity.
Qed.

Lemma key_jump_goes_to_key_code_witness :
  exists st',
    execute 0 0xD0 (set_key_code 28 reset_cpu) = Ok st' /\
    pc st' = (if key_code (set_key_code 28 reset_cpu) <? _END
              then key_code (set_key_code 28 reset_cpu)
              else key_rom (set_key_code 28 reset_cpu)) /\
    s0 st' = 0 /\
    (key_code (set_key_code 28 reset_cpu) < _END -> key_code st' = _END).
Proof.
  apply (key_jump_goes_to_key_code 0 (set_key_code 28 reset_cpu)); [lia|].
  exact wf_reset.
Defined.

(** ** The script sequencer at work *)














(** The script SINH run to its end: 2000 passes after it is armed the seven
    key codes of its tape have been handed on, in order, and the sequencer
    has read the sentinel and is disarmed. *)
Example sinh_script_reaches_sentinel :
  fed (no_key 2000) sinh_machine =
    [_EXP; _ENTER; _INV; _CHS; _ADD; _2; _DIV] /\
  isrun (shell_of (outcome (keys_sinh ++ no_key 2000))) = false /\
  memp (shell_of (outcome (keys_sinh ++ no_key 2000))) = _COSH.
Proof. repeat split; vm_compute; reflexivity. Qed.


(** ** Runs in which every dispatched key has a function *)

Lemma dispatch_key_live (mc : machine) :
  machine_inv mc -> key_ok (shell_of mc) -> dead_key (shell_of mc) = false ->
  exists mc', dispatch_key mc = Ok mc' /\ machine_inv mc'.
Proof.
  intros Hinv Hkey Hlive.
  destruct (dispatch_key_inv mc Hinv) as [Hok|Hft]; [exact Hok|].
  exfalso. destruct Hinv as [_ (Hfg & _)].
  unfold dead_key, key_slot in Hlive. unfold dispatch_key in Hft.
  destruct (negb (key (shell_of mc) =? 0) && (key (shell_of mc) <? _END))
    eqn:Htest; [|discriminate].
  cbn [key set_isrun set_darkscreen set_msgnr fg] in Hft.
  destruct (key (shell_of mc) =? _KF) eqn:Hf; [discriminate|].
  cbn [negb andb] in Hlive.
  apply andb_prop in Htest. destruct Htest as [Hnz Hlt].
  apply negb_true_iff, Z.eqb_neq in Hnz. apply Z.ltb_lt in Hlt.
  assert (Hrange : 1 <= key (shell_of mc) <= 16)
    by (destruct Hkey as [Hk|Hk]; lia).
  destruct (peek_in_range k2c
              ((fg (shell_of mc) * KEYS + key (shell_of mc) - 1) mod 256))
    as [kc Hk].
  { apply in_range_bounds. rewrite k2c_length. unfold KEYS.
    rewrite Z.mod_small by lia. lia. }
  rewrite Hk in Hlive, Hft.
  destruct (kc =? _HYP); [discriminate|].
  destruct (kc =? _LIT); [discriminate|].
  destruct (_LIT <? kc) eqn:Hgt; [|discriminate].
  cbn [andb] in Hlive. apply Z.ltb_lt in Hgt. apply Z.leb_gt in Hlive.
  destruct (peek_in_range c2m (kc - _LIT - 1)) as [mp Hm].
  { apply in_range_bounds. rewrite c2m_length. lia. }
  rewrite Hm in Hft. discriminate.
Qed.

Lemma loop_live (hw : Z) (mc : machine) :
  machine_inv mc -> key_ok (shell_of mc) -> 0 <= hw <= 16 ->
  dead_key (shell_of mc) = false ->
  exists mc',
    loop hw mc = Ok mc' /\ machine_inv mc' /\ key_ok (shell_of mc').
Proof.
  intros Hinv Hkey Hhw Hlive. unfold loop.
  destruct (dispatch_key_live mc Hinv Hkey Hlive) as (mc1 & -> & H1).
  cbn [bind]. destruct (process_rom_inv mc1 H1) as (mc2 & -> & H2).
  cbn [bind]. destruct (sequencer_inv mc2 H2) as (mc3 & -> & H3).
  cbn [bind]. eexists. split; [reflexivity|].
  split; [apply scan_key_inv, H3|].
  unfold scan_key, key_ok. cbn [shell_of].
  destruct (hw =? oldkey (shell_of mc3)); cbn [key set_key set_oldkey];
    [left; reflexivity|right; exact Hhw].
Qed.

Lemma run_live (hws : list Z) :
  forall mc,
  machine_inv mc -> key_ok (shell_of mc) ->
  Forall (fun hw => 0 <= hw <= 16) hws -> live hws mc = true ->
  exists mc', run hws mc = Ok mc' /\ machine_inv mc'.
Proof.
  induction hws as [|hw rest IH]; intros mc Hinv Hkey Hhws Hlive.
  - exists mc. split; [reflexivity|exact Hinv].
  - cbn [live] in Hlive. apply andb_prop in Hlive.
    destruct Hlive as [Hhead Hrest]. apply negb_true_iff in Hhead.
    inversion Hhws as [|hw' rest' Hhw Hrest']. subst hw' rest'.
    destruct (loop_live hw mc Hinv Hkey Hhw Hhead) as (mc1 & Hloop & H1 & K1).
    rewrite Hloop in Hrest. cbn [run]. rewrite Hloop. cbn [bind].
    apply IH; assumption.
Qed.

(** X23.  In a run from power-on over key numbers of [getkey] (0..16) in
    which no pass starts with a key without a function waiting (a key whose
    dispatch reads [c2m] behind the table and takes the script position from
    there, X24), the run never fails and, while a script is running, its
    position is on the tape: the sequencer's next read of [mem] is inside
    the table. *)
Theorem script_position_on_tape (hws : list Z) :
  Forall (fun hw => 0 <= hw <= 16) hws -> live hws reset = true ->
  exists mc,
    run hws reset = Ok mc /\
    (isrun (shell_of mc) = true ->
     exists cmd, peek mem (memp (shell_of mc)) = Some cmd).
Proof.
  intros Hhws Hlive.
  destruct (run_live hws reset reset_inv) as (mc & Hrun & Hinv);
    [right; cbn; unfold _KX; lia|exact Hhws|exact Hlive|].
  exists mc. split; [exact Hrun|]. intros Hisrun.
  destruct Hinv as [_ (_ & _ & _ & _ & Hmemp)].
  destruct (peek_mem _ (Hmemp Hisrun)) as (cmd & Hcmd & _). eauto.
Qed.

Lemma script_position_on_tape_witness :
  exists mc,
    run keys_sinh reset = Ok mc /\
    (isrun (shell_of mc) = true ->
     exists cmd, peek mem (memp (shell_of mc)) = Some cmd).
Proof.
  apply (script_position_on_tape keys_sinh).
  - repeat constructor; lia.
  - vm_compute. reflexivity.
Defined.
